(** * BrachioGraph: a shallow embedding of [brachiograph.py]

    Numbers are Python floats in the source; here they are real numbers,
    so every statement is about the arithmetic the code writes down, with
    rounding left out: where the program adds up steps or compares two
    floats, it is within rounding of what is proved here, and the runs
    given as instances are runs in which the program's floats are exact.
    A float can also overflow ([x ** 2] raises [OverflowError] beyond about
    1e154), which a real number cannot; this class is not modelled, and the
    statements about exception classes are made for numbers of moderate
    size.  Exceptions are values: a pure computation returns
    [res A], a method of the plotter object returns a result together with
    the object as the method left it, because in Python the assignments a
    method made before it raised stay made. *)

From Stdlib Require Import String Reals Lra Lia ZArith Bool List.
Import ListNotations.
Open Scope R_scope.

(** ** Exceptions and results *)

(** The built-in exception classes this code can raise.  The source defines
    no exception class of its own; any other class is named by
    [UserDefined]. *)
Inductive exn : Type :=
| ValueError
| ZeroDivisionError
| AttributeError
| IndexError
| UserDefined (name : string).

Inductive res (A : Type) : Type :=
| Ok (a : A)
| Raise (e : exn).
Arguments Ok {A} a.
Arguments Raise {A} e.

Definition rbind {A B : Type} (m : res A) (f : A -> res B) : res B :=
  match m with
  | Ok a => f a
  | Raise e => Raise e
  end.

Declare Scope res_scope.
Delimit Scope res_scope with res.
Notation "x <- m ;; k" := (rbind m (fun x => k))
  (at level 61, m at next level, right associativity) : res_scope.
Notation "' p <- m ;; k" := (rbind m (fun p => k))
  (at level 61, p pattern, m at next level, right associativity) : res_scope.

(** ** The [math] module and float division *)

Module math.

Definition sqrt (x : R) : res R :=
  if Rle_dec 0 x then Ok (R_sqrt.sqrt x) else Raise ValueError.

Definition in_unit (x : R) : bool :=
  if Rle_dec (-1) x then (if Rle_dec x 1 then true else false) else false.

Definition asin (x : R) : res R :=
  if in_unit x then Ok (Ratan.asin x) else Raise ValueError.

Definition acos (x : R) : res R :=
  if in_unit x then Ok (Ratan.acos x) else Raise ValueError.

Definition degrees (x : R) : R := x * (180 / PI).

Definition radians (x : R) : R := x * (PI / 180).

End math.

(** [a / b] on floats raises on a zero divisor. *)
Definition truediv (a b : R) : res R :=
  if Req_dec_T b 0 then Raise ZeroDivisionError else Ok (a / b).

(** ** Trigonometric methods *)

Section Kinematics.

Variables INNER_ARM OUTER_ARM : R.

Definition xy_to_angles (x y : R) : res (R * R) :=
  (hypotenuse <- math.sqrt (x ^ 2 + y ^ 2) ;;
   q <- truediv x hypotenuse ;;
   hypotenuse_angle <- math.asin q ;;
   q1 <- truediv (hypotenuse ^ 2 + INNER_ARM ^ 2 - OUTER_ARM ^ 2)
                 (2 * hypotenuse * INNER_ARM) ;;
   inner_angle <- math.acos q1 ;;
   q2 <- truediv (INNER_ARM ^ 2 + OUTER_ARM ^ 2 - hypotenuse ^ 2)
                 (2 * INNER_ARM * OUTER_ARM) ;;
   outer_angle <- math.acos q2 ;;
   let shoulder_motor_angle := hypotenuse_angle - inner_angle in
   let elbow_motor_angle := PI - outer_angle in
   Ok (math.degrees shoulder_motor_angle, math.degrees elbow_motor_angle))%res.

Definition angles_to_xy (shoulder_motor_angle elbow_motor_angle : R)
  : res (R * R) :=
  (let elbow_motor_angle := math.radians elbow_motor_angle in
   let shoulder_motor_angle := math.radians shoulder_motor_angle in
   hypotenuse <- math.sqrt
     (INNER_ARM ^ 2 + OUTER_ARM ^ 2
      - 2 * INNER_ARM * OUTER_ARM * cos (PI - elbow_motor_angle)) ;;
   q <- truediv (hypotenuse ^ 2 + INNER_ARM ^ 2 - OUTER_ARM ^ 2)
                (2 * hypotenuse * INNER_ARM) ;;
   base_angle <- math.acos q ;;
   let inner_angle := base_angle + shoulder_motor_angle in
   let x := sin inner_angle * hypotenuse in
   let y := cos inner_angle * hypotenuse in
   Ok (x, y))%res.

End Kinematics.

(** ** Stateful code: a state and exception monad

    A method is a function from the object (or the store) as it is on entry
    to a result and the object as it is on exit; a raised exception keeps
    every assignment made before it. *)

Definition M (S A : Type) : Type := S -> res A * S.

Definition ret {S A : Type} (a : A) : M S A := fun s => (Ok a, s).

Definition raise {S A : Type} (e : exn) : M S A := fun s => (Raise e, s).

Definition bind {S A B : Type} (m : M S A) (f : A -> M S B) : M S B :=
  fun s =>
    match m s with
    | (Ok a, s') => f a s'
    | (Raise e, s') => (Raise e, s')
    end.

Definition lift {S A : Type} (r : res A) : M S A := fun s => (r, s).

Definition gets {S A : Type} (f : S -> A) : M S A := fun s => (Ok (f s), s).

Definition modify {S : Type} (f : S -> S) : M S unit := fun s => (Ok tt, f s).

Declare Scope monad_scope.
Delimit Scope monad_scope with monad.
Notation "x <- m ;; k" := (bind m (fun x => k))
  (at level 61, m at next level, right associativity) : monad_scope.
Notation "' p <- m ;; k" := (bind m (fun p => k))
  (at level 61, p pattern, m at next level, right associativity) : monad_scope.
Notation "m ;; k" := (bind m (fun _ => k))
  (at level 61, right associativity) : monad_scope.

(** [for a in l: body(a)] *)
Fixpoint for_each {S A : Type} (l : list A) (body : A -> M S unit) : M S unit :=
  match l with
  | [] => ret tt
  | a :: l' => (body a ;; for_each l' body)%monad
  end.

(** [range(n)] *)
Definition range (n : Z) : list Z := map Z.of_nat (seq 0 (Z.to_nat n)).

(** [int(r)] on a float: truncation towards zero. *)
Definition int (r : R) : Z :=
  if Rle_dec 0 r then Int_part r else (- Int_part (- r))%Z.

Definition Rltb (a b : R) : bool := if Rlt_dec a b then true else false.
Definition Rleb (a b : R) : bool := if Rle_dec a b then true else false.
Definition Rgeb (a b : R) : bool := if Rge_dec a b then true else false.
Definition Reqb (a b : R) : bool := if Req_dec_T a b then true else false.

(** ** The plotter object *)

(** What the program does to the outside world, newest first: delays, and
    calls of the pigpio driver.  [VirtualPulseWidths] marks the assignment
    of the simulated servo pulse-widths in virtual mode. *)
Inductive event : Type :=
| Sleep (seconds : R)
| PWMFrequency (pin : Z) (hz : R)
| ServoPulsewidth (pin : Z) (pw : R)
| VirtualPulseWidths (pw_1 pw_2 : R).

Definition Bounds : Type := (R * R * R * R)%type.

(** [class Pen].  [pen_virtual_mode] is [None] while the attribute
    [virtual_mode] has never been assigned. *)
Record Pen : Type := {
  pin : Z;
  pw_up : R;
  pw_down : R;
  transition_time : R;
  pen_virtual_mode : option bool;
  virtual_pw : option R
}.

(** [class BrachioGraph].  [angles_to_pw_1] and [angles_to_pw_2] are the
    callables stored by [__init__]; [angle_1] and [angle_2] exist only once
    [set_angles] has run.  [servo_pulsewidth] is what the pigpio driver
    reports for a pin, the last pulse-width set on it. *)
Record BrachioGraph : Type := {
  INNER_ARM : R;
  OUTER_ARM : R;
  virtual_mode : bool;
  bounds : option Bounds;
  angles_to_pw_1 : R -> R;
  angles_to_pw_2 : R -> R;
  pen : Pen;
  virtual_pw_1 : R;
  virtual_pw_2 : R;
  current_x : R;
  current_y : R;
  angle_1 : option R;
  angle_2 : option R;
  angles_used_1 : list R;
  angles_used_2 : list R;
  pulse_widths_used_1 : list R;
  pulse_widths_used_2 : list R;
  servo_pulsewidth : Z -> R;
  events : list event
}.

Definition with_pen (p : Pen) (bg : BrachioGraph) : BrachioGraph :=
  {| INNER_ARM := INNER_ARM bg; OUTER_ARM := OUTER_ARM bg;
     virtual_mode := virtual_mode bg; bounds := bounds bg;
     angles_to_pw_1 := angles_to_pw_1 bg; angles_to_pw_2 := angles_to_pw_2 bg;
     pen := p;
     virtual_pw_1 := virtual_pw_1 bg; virtual_pw_2 := virtual_pw_2 bg;
     current_x := current_x bg; current_y := current_y bg;
     angle_1 := angle_1 bg; angle_2 := angle_2 bg;
     angles_used_1 := angles_used_1 bg; angles_used_2 := angles_used_2 bg;
     pulse_widths_used_1 := pulse_widths_used_1 bg;
     pulse_widths_used_2 := pulse_widths_used_2 bg;
     servo_pulsewidth := servo_pulsewidth bg; events := events bg |}.

Definition with_virtual_pw_1 (pw : R) (bg : BrachioGraph) : BrachioGraph :=
  {| INNER_ARM := INNER_ARM bg; OUTER_ARM := OUTER_ARM bg;
     virtual_mode := virtual_mode bg; bounds := bounds bg;
     angles_to_pw_1 := angles_to_pw_1 bg; angles_to_pw_2 := angles_to_pw_2 bg;
     pen := pen bg;
     virtual_pw_1 := pw; virtual_pw_2 := virtual_pw_2 bg;
     current_x := current_x bg; current_y := current_y bg;
     angle_1 := angle_1 bg; angle_2 := angle_2 bg;
     angles_used_1 := angles_used_1 bg; angles_used_2 := angles_used_2 bg;
     pulse_widths_used_1 := pulse_widths_used_1 bg;
     pulse_widths_used_2 := pulse_widths_used_2 bg;
     servo_pulsewidth := servo_pulsewidth bg; events := events bg |}.

Definition with_virtual_pw_2 (pw : R) (bg : BrachioGraph) : BrachioGraph :=
  {| INNER_ARM := INNER_ARM bg; OUTER_ARM := OUTER_ARM bg;
     virtual_mode := virtual_mode bg; bounds := bounds bg;
     angles_to_pw_1 := angles_to_pw_1 bg; angles_to_pw_2 := angles_to_pw_2 bg;
     pen := pen bg;
     virtual_pw_1 := virtual_pw_1 bg; virtual_pw_2 := pw;
     current_x := current_x bg; current_y := current_y bg;
     angle_1 := angle_1 bg; angle_2 := angle_2 bg;
     angles_used_1 := angles_used_1 bg; angles_used_2 := angles_used_2 bg;
     pulse_widths_used_1 := pulse_widths_used_1 bg;
     pulse_widths_used_2 := pulse_widths_used_2 bg;
     servo_pulsewidth := servo_pulsewidth bg; events := events bg |}.

Definition with_current_x (x : R) (bg : BrachioGraph) : BrachioGraph :=
  {| INNER_ARM := INNER_ARM bg; OUTER_ARM := OUTER_ARM bg;
     virtual_mode := virtual_mode bg; bounds := bounds bg;
     angles_to_pw_1 := angles_to_pw_1 bg; angles_to_pw_2 := angles_to_pw_2 bg;
     pen := pen bg;
     virtual_pw_1 := virtual_pw_1 bg; virtual_pw_2 := virtual_pw_2 bg;
     current_x := x; current_y := current_y bg;
     angle_1 := angle_1 bg; angle_2 := angle_2 bg;
     angles_used_1 := angles_used_1 bg; angles_used_2 := angles_used_2 bg;
     pulse_widths_used_1 := pulse_widths_used_1 bg;
     pulse_widths_used_2 := pulse_widths_used_2 bg;
     servo_pulsewidth := servo_pulsewidth bg; events := events bg |}.

Definition with_current_y (y : R) (bg : BrachioGraph) : BrachioGraph :=
  {| INNER_ARM := INNER_ARM bg; OUTER_ARM := OUTER_ARM bg;
     virtual_mode := virtual_mode bg; bounds := bounds bg;
     angles_to_pw_1 := angles_to_pw_1 bg; angles_to_pw_2 := angles_to_pw_2 bg;
     pen := pen bg;
     virtual_pw_1 := virtual_pw_1 bg; virtual_pw_2 := virtual_pw_2 bg;
     current_x := current_x bg; current_y := y;
     angle_1 := angle_1 bg; angle_2 := angle_2 bg;
     angles_used_1 := angles_used_1 bg; angles_used_2 := angles_used_2 bg;
     pulse_widths_used_1 := pulse_widths_used_1 bg;
     pulse_widths_used_2 := pulse_widths_used_2 bg;
     servo_pulsewidth := servo_pulsewidth bg; events := events bg |}.

(** The assignments at the end of [set_angles]: the two angles, and the
    four sets of recorded values (kept as lists, membership is what
    [report] reads). *)
Definition with_angles (a1 a2 pw_1 pw_2 : R) (bg : BrachioGraph) : BrachioGraph :=
  {| INNER_ARM := INNER_ARM bg; OUTER_ARM := OUTER_ARM bg;
     virtual_mode := virtual_mode bg; bounds := bounds bg;
     angles_to_pw_1 := angles_to_pw_1 bg; angles_to_pw_2 := angles_to_pw_2 bg;
     pen := pen bg;
     virtual_pw_1 := virtual_pw_1 bg; virtual_pw_2 := virtual_pw_2 bg;
     current_x := current_x bg; current_y := current_y bg;
     angle_1 := Some a1; angle_2 := Some a2;
     angles_used_1 := a1 :: angles_used_1 bg;
     angles_used_2 := a2 :: angles_used_2 bg;
     pulse_widths_used_1 := pw_1 :: pulse_widths_used_1 bg;
     pulse_widths_used_2 := pw_2 :: pulse_widths_used_2 bg;
     servo_pulsewidth := servo_pulsewidth bg; events := events bg |}.

Definition with_servo_pulsewidth (f : Z -> R) (bg : BrachioGraph) : BrachioGraph :=
  {| INNER_ARM := INNER_ARM bg; OUTER_ARM := OUTER_ARM bg;
     virtual_mode := virtual_mode bg; bounds := bounds bg;
     angles_to_pw_1 := angles_to_pw_1 bg; angles_to_pw_2 := angles_to_pw_2 bg;
     pen := pen bg;
     virtual_pw_1 := virtual_pw_1 bg; virtual_pw_2 := virtual_pw_2 bg;
     current_x := current_x bg; current_y := current_y bg;
     angle_1 := angle_1 bg; angle_2 := angle_2 bg;
     angles_used_1 := angles_used_1 bg; angles_used_2 := angles_used_2 bg;
     pulse_widths_used_1 := pulse_widths_used_1 bg;
     pulse_widths_used_2 := pulse_widths_used_2 bg;
     servo_pulsewidth := f; events := events bg |}.

Definition log (e : event) (bg : BrachioGraph) : BrachioGraph :=
  {| INNER_ARM := INNER_ARM bg; OUTER_ARM := OUTER_ARM bg;
     virtual_mode := virtual_mode bg; bounds := bounds bg;
     angles_to_pw_1 := angles_to_pw_1 bg; angles_to_pw_2 := angles_to_pw_2 bg;
     pen := pen bg;
     virtual_pw_1 := virtual_pw_1 bg; virtual_pw_2 := virtual_pw_2 bg;
     current_x := current_x bg; current_y := current_y bg;
     angle_1 := angle_1 bg; angle_2 := angle_2 bg;
     angles_used_1 := angles_used_1 bg; angles_used_2 := angles_used_2 bg;
     pulse_widths_used_1 := pulse_widths_used_1 bg;
     pulse_widths_used_2 := pulse_widths_used_2 bg;
     servo_pulsewidth := servo_pulsewidth bg; events := e :: events bg |}.

Definition with_pen_virtual_mode (b : bool) (p : Pen) : Pen :=
  {| pin := pin p; pw_up := pw_up p; pw_down := pw_down p;
     transition_time := transition_time p;
     pen_virtual_mode := Some b; virtual_pw := virtual_pw p |}.

Definition with_pen_virtual_pw (pw : R) (p : Pen) : Pen :=
  {| pin := pin p; pw_up := pw_up p; pw_down := pw_down p;
     transition_time := transition_time p;
     pen_virtual_mode := pen_virtual_mode p; virtual_pw := Some pw |}.

Definition BG : Type -> Type := M BrachioGraph.

(** ** The world outside: [time.sleep] and the pigpio driver

    The driver's own checks are not part of this program and are not
    modelled: a call is recorded and the pin reports the value it was
    given.  [time.sleep] raises [ValueError] on a negative argument; here
    the call is recorded, and the statements that need a sleep to return
    are made for a non-negative [wait]. *)

Definition sleep (seconds : R) : BG unit := modify (log (Sleep seconds)).

Definition rpi_set_PWM_frequency (p : Z) (hz : R) : BG unit :=
  modify (log (PWMFrequency p hz)).

Definition rpi_set_servo_pulsewidth (p : Z) (pw : R) : BG unit :=
  modify (fun bg =>
    log (ServoPulsewidth p pw)
        (with_servo_pulsewidth
           (fun q => if Z.eqb q p then pw else servo_pulsewidth bg q) bg)).

Definition rpi_get_servo_pulsewidth (p : Z) : BG R :=
  gets (fun bg => servo_pulsewidth bg p).

(** ** [class Pen] *)

Module PenM.

Definition down : BG unit :=
  (p <- gets pen ;;
   match pen_virtual_mode p with
   | None => raise AttributeError
   | Some true => modify (fun bg => with_pen (with_pen_virtual_pw (pw_down p) p) bg)
   | Some false =>
       rpi_set_servo_pulsewidth (pin p) (pw_down p) ;;
       sleep (transition_time p)
   end)%monad.

Definition up : BG unit :=
  (p <- gets pen ;;
   match pen_virtual_mode p with
   | None => raise AttributeError
   | Some true => modify (fun bg => with_pen (with_pen_virtual_pw (pw_up p) p) bg)
   | Some false =>
       rpi_set_servo_pulsewidth (pin p) (pw_up p) ;;
       sleep (transition_time p)
   end)%monad.

(** [Pen.__init__], run on the plotter that holds the new pen. *)
Definition init (pw_up pw_down : R) (pin : Z) (transition_time : R) : BG unit :=
  (modify (with_pen {| pin := pin; pw_up := pw_up; pw_down := pw_down;
                       transition_time := transition_time;
                       pen_virtual_mode := None; virtual_pw := None |}) ;;
   vm <- gets virtual_mode ;;
   (if vm
    then modify (fun bg => with_pen (with_pen_virtual_mode true (pen bg)) bg)
    else rpi_set_PWM_frequency pin 50) ;;
   up ;; sleep (3 / 10) ;;
   down ;; sleep (3 / 10) ;;
   up ;; sleep (3 / 10))%monad.

End PenM.

(** ** Hardware-related methods *)

Definition naive_angles_to_pulse_widths_1 (servo_1_degree_ms servo_1_zero angle : R) : R :=
  (angle + 90) * servo_1_degree_ms + servo_1_zero.

Definition naive_angles_to_pulse_widths_2 (servo_2_degree_ms servo_2_zero angle : R) : R :=
  (angle - 90) * servo_2_degree_ms + servo_2_zero.

Definition angles_to_pulse_widths (bg : BrachioGraph) (angle_1 angle_2 : R) : R * R :=
  (angles_to_pw_1 bg angle_1, angles_to_pw_2 bg angle_2).

Definition set_pulse_widths (pw_1 pw_2 : R) : BG unit :=
  (vm <- gets virtual_mode ;;
   if vm then
     if (Rltb 500 pw_1 && Rltb pw_1 2500) && (Rltb 500 pw_2 && Rltb pw_2 2500)
     then
       modify (fun bg => with_virtual_pw_1 (angles_to_pw_1 bg pw_1) bg) ;;
       modify (fun bg => with_virtual_pw_2 (angles_to_pw_2 bg pw_2) bg) ;;
       modify (fun bg => log (VirtualPulseWidths (virtual_pw_1 bg) (virtual_pw_2 bg)) bg)
     else raise ValueError
   else
     rpi_set_servo_pulsewidth 14 pw_1 ;;
     rpi_set_servo_pulsewidth 15 pw_2)%monad.

Definition get_pulse_widths : BG (R * R) :=
  (vm <- gets virtual_mode ;;
   if vm then
     gets (fun bg => (virtual_pw_1 bg, virtual_pw_2 bg))
   else
     actual_pulse_width_1 <- rpi_get_servo_pulsewidth 14 ;;
     actual_pulse_width_2 <- rpi_get_servo_pulsewidth 15 ;;
     ret (actual_pulse_width_1, actual_pulse_width_2))%monad.

Definition quiet (servos : list Z) : BG unit :=
  (vm <- gets virtual_mode ;;
   if vm then ret tt
   else for_each servos (fun servo => rpi_set_servo_pulsewidth servo 0))%monad.

(** ** Pen-moving methods *)

Definition set_angles (angle_1 angle_2 : R) : BG unit :=
  ('(pw_1, pw_2) <- gets (fun bg => angles_to_pulse_widths bg angle_1 angle_2) ;;
   set_pulse_widths pw_1 pw_2 ;;
   modify (with_angles angle_1 angle_2 pw_1 pw_2))%monad.

(** The kinematics of the plotter the method is called on. *)
Definition self_xy_to_angles (x y : R) : BG (R * R) :=
  fun bg => (xy_to_angles (INNER_ARM bg) (OUTER_ARM bg) x y, bg).

(** One turn of the interpolation loop of [xy]. *)
Definition xy_step (length wait : R) (no_of_steps : Z)
  (length_of_step_x length_of_step_y : R) (step : Z) : BG unit :=
  (modify (fun bg => with_current_x (current_x bg + length_of_step_x) bg) ;;
   modify (fun bg => with_current_y (current_y bg + length_of_step_y) bg) ;;
   cx <- gets current_x ;;
   cy <- gets current_y ;;
   '(angle_1, angle_2) <- self_xy_to_angles cx cy ;;
   set_angles angle_1 angle_2 ;;
   if Z.ltb (step + 1) no_of_steps
   then (t <- lift (truediv (length * wait) (IZR no_of_steps)) ;; sleep t)
   else ret tt)%monad.

(** [no_of_steps = int(length * interpolate) or 1] *)
Definition no_of_steps (length interpolate : R) : Z :=
  let n := int (length * interpolate) in
  if Z.eqb n 0 then 1%Z else n.

(** Lines 432 to 458 of [xy]: the stepped move, taken when the target
    pulse-widths differ from the reported ones. *)
Definition xy_interpolate (x y wait interpolate : R) : BG unit :=
  (x_length <- gets (fun bg => x - current_x bg) ;;
   y_length <- gets (fun bg => y - current_y bg) ;;
   length <- lift (math.sqrt (x_length ^ 2 + y_length ^ 2)) ;;
   let no_of_steps := no_of_steps length interpolate in
   length_of_step_x <- lift (truediv x_length (IZR no_of_steps)) ;;
   length_of_step_y <- lift (truediv y_length (IZR no_of_steps)) ;;
   for_each (range no_of_steps)
     (xy_step length wait no_of_steps length_of_step_x length_of_step_y) ;;
   sleep (length * wait / 10))%monad.

Definition xy (x y wait interpolate : R) (draw : bool) : BG unit :=
  ((if draw then PenM.down else PenM.up) ;;
   '(angle_1, angle_2) <- self_xy_to_angles x y ;;
   '(pulse_width_1, pulse_width_2) <-
      gets (fun bg => angles_to_pulse_widths bg angle_1 angle_2) ;;
   '(actual_1, actual_2) <- get_pulse_widths ;;
   if Reqb pulse_width_1 actual_1 && Reqb pulse_width_2 actual_2 then
     modify (with_current_x x) ;;
     modify (with_current_y y)
   else
     xy_interpolate x y wait interpolate)%monad.

Definition default_wait : R := 1 / 10.
Definition default_interpolate : R := 10.

Definition park : BG unit :=
  (PenM.up ;;
   px <- gets (fun bg => - INNER_ARM bg) ;;
   py <- gets OUTER_ARM ;;
   xy px py default_wait default_interpolate false ;;
   sleep 1 ;;
   quiet [14; 15; 18]%Z)%monad.

(** ** Drawing methods *)

Definition pre_start_position (start end_ : R * R) : R * R :=
  let '(start_x, start_y) := start in
  let '(end_x, end_y) := end_ in
  let diff_x := start_x - end_x in
  let diff_y := start_y - end_y in
  let pre_x := if Reqb diff_x 0 then start_x
               else start_x + (diff_x / Rabs diff_x / 2) in
  let pre_y := if Reqb diff_y 0 then start_y
               else start_y + (diff_y / Rabs diff_y / 2) in
  (pre_x, pre_y).

(** *** The drawing as Python holds it

    A point is a two-element list object, changed in place by
    [point[0] = x]; a line is a list of references to points and a drawing
    a list of lines.  The store maps a reference to the two numbers its
    point holds now; one point object may be referenced several times. *)

Definition loc : Type := nat.
Definition heap : Type := loc -> R * R.
Definition Drawing : Type := list (list loc).

Definition get_item_0 (point : loc) : M heap R := gets (fun h => fst (h point)).
Definition get_item_1 (point : loc) : M heap R := gets (fun h => snd (h point)).

Definition set_item_0 (point : loc) (v : R) : M heap unit :=
  modify (fun h q => if Nat.eqb q point then (v, snd (h point)) else h q).
Definition set_item_1 (point : loc) (v : R) : M heap unit :=
  modify (fun h q => if Nat.eqb q point then (fst (h point), v) else h q).

(** The unpacking [x_values_in_line, y_values_in_line] of [zip] over the
    points of a line: an empty line gives nothing to unpack. *)
Definition zip_star (h : heap) (line : list loc) : res (list R * list R) :=
  match line with
  | [] => Raise ValueError
  | _ => Ok (map (fun p => fst (h p)) line, map (fun p => snd (h p)) line)
  end.

(** The loop that fills [x_values_in_lines] and [y_values_in_lines]. *)
Fixpoint values_in_lines (h : heap) (lines : Drawing) (xs ys : list R)
  : res (list R * list R) :=
  match lines with
  | [] => Ok (xs, ys)
  | line :: rest =>
      ('(x_values_in_line, y_values_in_line) <- zip_star h line ;;
       values_in_lines h rest (xs ++ x_values_in_line) (ys ++ y_values_in_line))%res
  end.

(** [min] and [max] of a collection: [ValueError] on an empty one. *)
Definition py_min (l : list R) : res R :=
  match l with
  | [] => Raise ValueError
  | a :: l' => Ok (fold_left Rmin l' a)
  end.

Definition py_max (l : list R) : res R :=
  match l with
  | [] => Raise ValueError
  | a :: l' => Ok (fold_left Rmax l' a)
  end.

(** The local variables of [plot_lines] that the fitting loop reads. *)
Record Fit : Type := {
  divider : R;
  rotate : bool;
  x_mid_point : R;
  y_mid_point : R;
  box_x_mid_point : R;
  box_y_mid_point : R
}.

(** Lines 170 to 185 of [plot_lines]: the smallest and largest coordinate
    on each axis, as [(min_x, max_x, min_y, max_y)]. *)
Definition bounding_box (h : heap) (lines : Drawing) : res (R * R * R * R) :=
  ('(x_values_in_lines, y_values_in_lines) <- values_in_lines h lines [] [] ;;
   min_x <- py_min x_values_in_lines ;;
   max_x <- py_max x_values_in_lines ;;
   min_y <- py_min y_values_in_lines ;;
   max_y <- py_max y_values_in_lines ;;
   Ok (min_x, max_x, min_y, max_y))%res.

(** The test of line 207: image and box both landscape, or both portrait. *)
Definition same_orientation (x_range y_range box_x_range box_y_range : R) : bool :=
  (Rgeb x_range y_range && Rgeb box_x_range box_y_range)
  || (Rleb x_range y_range && Rleb box_x_range box_y_range).

(** Lines 189 to 216 of [plot_lines]: ranges, mid-points, orientation and
    divider. *)
Definition fit_parameters (h : heap) (lines : Drawing) (bounds : Bounds) : res Fit :=
  let '(b0, b1, b2, b3) := bounds in
  ('(min_x, max_x, min_y, max_y) <- bounding_box h lines ;;
   let x_range := max_x - min_x in
   let y_range := max_y - min_y in
   let x_mid_point := (max_x + min_x) / 2 in
   let y_mid_point := (max_y + min_y) / 2 in
   let box_x_range := b2 - b0 in
   let box_y_range := b3 - b1 in
   let box_x_mid_point := (b0 + b2) / 2 in
   let box_y_mid_point := (b1 + b3) / 2 in
   if same_orientation x_range y_range box_x_range box_y_range
   then
     dx <- truediv x_range box_x_range ;;
     dy <- truediv y_range box_y_range ;;
     Ok {| divider := Rmax dx dy; rotate := false;
           x_mid_point := x_mid_point; y_mid_point := y_mid_point;
           box_x_mid_point := box_x_mid_point;
           box_y_mid_point := box_y_mid_point |}
   else
     dx <- truediv x_range box_y_range ;;
     dy <- truediv y_range box_x_range ;;
     Ok {| divider := Rmax dx dy; rotate := true;
           x_mid_point := y_mid_point; y_mid_point := x_mid_point;
           box_x_mid_point := box_x_mid_point;
           box_y_mid_point := box_y_mid_point |})%res.

(** The body of the fitting loop, lines 223 to 241, on one point object. *)
Definition fit_point (f : Fit) (flip : bool) (point : loc) : M heap unit :=
  ((if rotate f then
      p0 <- get_item_0 point ;;
      p1 <- get_item_1 point ;;
      set_item_0 point p1 ;;
      set_item_1 point p0
    else ret tt) ;;
   x <- get_item_0 point ;;
   let x := x - x_mid_point f in
   x <- lift (truediv x (divider f)) ;;
   let x := x + box_x_mid_point f in
   let x := if xorb flip (rotate f) then - x else x in
   set_item_0 point x ;;
   y <- get_item_1 point ;;
   let y := y - y_mid_point f in
   y <- lift (truediv y (divider f)) ;;
   let y := y + box_y_mid_point f in
   set_item_1 point y)%monad.

Definition fit_lines (f : Fit) (flip : bool) (lines : Drawing) : M heap unit :=
  for_each lines (fun line => for_each line (fit_point f flip)).

(** The LineFitter stage: everything [plot_lines] does to the drawing. *)
Definition line_fitter (lines : Drawing) (flip : bool) (bounds : Bounds) : M heap Fit :=
  (h <- gets (fun h => h) ;;
   f <- lift (fit_parameters h lines bounds) ;;
   fit_lines f flip lines ;;
   ret f)%monad.

(** *** The plotter and the caller's drawing together *)

Definition World : Type := (BrachioGraph * heap)%type.

Definition on_bg {A : Type} (m : BG A) : M World A :=
  fun w => let (r, bg') := m (fst w) in (r, (bg', snd w)).

Definition on_heap {A : Type} (m : M heap A) : M World A :=
  fun w => let (r, h') := m (snd w) in (r, (fst w, h')).

(** [line[i]] *)
Definition index (line : list loc) (i : nat) : res loc :=
  match nth_error line i with
  | Some p => Ok p
  | None => Raise IndexError
  end.

Definition read_point (point : loc) : M World (R * R) :=
  gets (fun w => snd w point).

(** The body of the plotting loop, lines 245 to 253. *)
Definition plot_line (wait interpolate : R) (pre_start : bool) (line : list loc)
  : M World unit :=
  ((if pre_start then
      l0 <- lift (index line 0) ;;
      start <- read_point l0 ;;
      l1 <- lift (index line 1) ;;
      end_ <- read_point l1 ;;
      let '(pre_x, pre_y) := pre_start_position start end_ in
      on_bg (xy pre_x pre_y wait interpolate false)
    else ret tt) ;;
   l0 <- lift (index line 0) ;;
   '(x, y) <- read_point l0 ;;
   on_bg (xy x y default_wait default_interpolate false) ;;
   for_each (tl line) (fun point =>
     '(x, y) <- read_point point ;;
     on_bg (xy x y wait interpolate true)))%monad.

(** [plot_lines]; the value is the message returned when no bounds are
    set, [None] for Python's [None].  The [rotate] argument is overwritten
    before it is read. *)
Definition plot_lines (lines : Drawing) (wait interpolate : R)
  (pre_start rotate_arg flip : bool) (bounds_arg : option Bounds)
  : M World (option string) :=
  (self_bounds <- gets (fun w => bounds (fst w)) ;;
   let bounds := match bounds_arg with Some b => Some b | None => self_bounds end in
   match bounds with
   | None => ret (Some "Line plotting is only possible when BrachioGraph.bounds is set."%string)
   | Some bounds =>
       on_heap (line_fitter lines flip bounds) ;;
       for_each lines (plot_line wait interpolate pre_start) ;;
       on_bg park ;;
       ret None
   end)%monad.

(** ** [BrachioGraph.__init__]

    [fit_1] and [fit_2] stand for the cubic that [numpy.polyfit] returns
    when a table of angles and pulse-widths is supplied; without one the
    naive linear map is stored. *)

Definition blank (inner_arm outer_arm : R) (virtual_mode : bool)
  (bounds : option Bounds) (pw_1 pw_2 : R -> R) : BrachioGraph :=
  {| INNER_ARM := inner_arm; OUTER_ARM := outer_arm;
     virtual_mode := virtual_mode; bounds := bounds;
     angles_to_pw_1 := pw_1; angles_to_pw_2 := pw_2;
     pen := {| pin := 18; pw_up := 0; pw_down := 0; transition_time := 0;
               pen_virtual_mode := None; virtual_pw := None |};
     virtual_pw_1 := 0; virtual_pw_2 := 0;
     current_x := 0; current_y := 0;
     angle_1 := None; angle_2 := None;
     angles_used_1 := []; angles_used_2 := [];
     pulse_widths_used_1 := []; pulse_widths_used_2 := [];
     servo_pulsewidth := fun _ => 0; events := [] |}.

Definition init (inner_arm outer_arm : R) (virtual_mode force_virtual_mode : bool)
  (bounds : option Bounds) (fit_1 fit_2 : option (R -> R))
  (servo_1_zero servo_2_zero servo_1_degree_ms servo_2_degree_ms : R)
  (pw_up pw_down : R) : res unit * BrachioGraph :=
  let pw_1 := match fit_1 with
              | Some p => p
              | None => naive_angles_to_pulse_widths_1 servo_1_degree_ms servo_1_zero
              end in
  let pw_2 := match fit_2 with
              | Some p => p
              | None => naive_angles_to_pulse_widths_2 servo_2_degree_ms servo_2_zero
              end in
  let vm := virtual_mode || force_virtual_mode in
  ((if vm then
      PenM.init pw_up pw_down 18 (1 / 4) ;;
      modify (fun bg => with_virtual_pw_1 (angles_to_pw_1 bg (-90)) bg) ;;
      modify (fun bg => with_virtual_pw_2 (angles_to_pw_2 bg 90) bg)
    else
      rpi_set_PWM_frequency 14 50 ;;
      rpi_set_PWM_frequency 15 50 ;;
      PenM.init pw_up pw_down 18 (1 / 4) ;;
      pw <- gets (fun bg => angles_to_pw_1 bg (-90)) ;;
      rpi_set_servo_pulsewidth 14 pw ;;
      sleep (3 / 10) ;;
      pw <- gets (fun bg => angles_to_pw_2 bg 90) ;;
      rpi_set_servo_pulsewidth 15 pw ;;
      sleep (3 / 10)) ;;
   modify (fun bg => with_current_x (- INNER_ARM bg) bg) ;;
   modify (fun bg => with_current_y (OUTER_ARM bg) bg))%monad
    (blank inner_arm outer_arm vm bounds pw_1 pw_2).

(** A virtual plotter built with every default but the arm lengths. *)
Definition default_plotter (inner_arm outer_arm : R) (bounds : option Bounds)
  : res unit * BrachioGraph :=
  init inner_arm outer_arm true false bounds None None 1500 1500 (-10) 10 1500 1100.

(** ** Notions used to state the properties *)

(** The distance from the shoulder pivot to the target, the [hypotenuse]
    of [xy_to_angles]. *)
Definition reach (x y : R) : R := sqrt (x ^ 2 + y ^ 2).

(** The two arguments of [acos] in [xy_to_angles]. *)
Definition inner_cos (INNER_ARM OUTER_ARM h : R) : R :=
  (h ^ 2 + INNER_ARM ^ 2 - OUTER_ARM ^ 2) / (2 * h * INNER_ARM).

Definition outer_cos (INNER_ARM OUTER_ARM h : R) : R :=
  (INNER_ARM ^ 2 + OUTER_ARM ^ 2 - h ^ 2) / (2 * INNER_ARM * OUTER_ARM).

(** What the fitting loop leaves in a point that held [p]: swapped when
    rotating, centred, scaled, moved to the box, and negated in [x] when
    exactly one of [flip] and [rotate] holds. *)
Definition fitted (f : Fit) (flip : bool) (p : R * R) : R * R :=
  let p0 := if rotate f then snd p else fst p in
  let p1 := if rotate f then fst p else snd p in
  let x := (p0 - x_mid_point f) / divider f + box_x_mid_point f in
  (if xorb flip (rotate f) then - x else x,
   (p1 - y_mid_point f) / divider f + box_y_mid_point f).

Definition in_bounds (b : Bounds) (p : R * R) : Prop :=
  let '(b0, b1, b2, b3) := b in
  b0 <= fst p <= b2 /\ b1 <= snd p <= b3.

(** A bounds rectangle as the data model has it. *)
Definition proper_bounds (b : Bounds) : Prop :=
  let '(b0, b1, b2, b3) := b in b0 < b2 /\ b1 < b3.

(** The part of the plotter that tracks where the arm is. *)
Definition session (bg : BrachioGraph) : R * R * option R * option R :=
  (current_x bg, current_y bg, angle_1 bg, angle_2 bg).

(** The pulse-width commands sent to the two arm servos. *)
Definition is_arm_command (e : event) : bool :=
  match e with
  | ServoPulsewidth p _ => Z.eqb p 14 || Z.eqb p 15
  | VirtualPulseWidths _ _ => true
  | _ => false
  end.

Definition arm_commands (bg : BrachioGraph) : list event :=
  filter is_arm_command (events bg).

(** ** Example inputs *)

(** The virtual plotter as [__init__] leaves it, parked. *)
Definition parked_plotter (inner_arm outer_arm : R) (bounds : option Bounds)
  : BrachioGraph :=
  snd (default_plotter inner_arm outer_arm bounds).

(** A store with two point objects, at references 0 and 1, and the drawing
    made of the one line through them. *)
Definition two_points (a b : R * R) : heap :=
  fun p => match p with O => a | _ => b end.

Definition one_line : Drawing := [[0%nat; 1%nat]].

(** ** States named in the statements about [xy] *)

(** The plotter after the pen was raised or lowered in virtual mode. *)
Definition pen_set (draw : bool) (bg : BrachioGraph) : BrachioGraph :=
  with_pen
    (with_pen_virtual_pw (if draw then pw_down (pen bg) else pw_up (pen bg)) (pen bg))
    bg.

(** The plotter moved to a position without any motion. *)
Definition positioned (x y : R) (bg : BrachioGraph) : BrachioGraph :=
  with_current_y y (with_current_x x bg).

(** The virtual plotter after [set_pulse_widths pw_1 pw_2] passed its
    check. *)
Definition virtual_written (pw_1 pw_2 : R) (bg : BrachioGraph) : BrachioGraph :=
  log (VirtualPulseWidths (angles_to_pw_1 bg pw_1) (angles_to_pw_2 bg pw_2))
      (with_virtual_pw_2 (angles_to_pw_2 bg pw_2)
         (with_virtual_pw_1 (angles_to_pw_1 bg pw_1) bg)).

(** The safe band as [set_pulse_widths] tests it, both ends excluded. *)
Definition in_band (pw : R) : Prop := 500 < pw < 2500.

(** The plotter after the two position updates that open a turn of the
    interpolation loop. *)
Definition advanced (length_of_step_x length_of_step_y : R) (bg : BrachioGraph)
  : BrachioGraph :=
  with_current_y (current_y bg + length_of_step_y)
    (with_current_x (current_x bg + length_of_step_x) bg).

(** What no method changes after construction: the geometry, the mode, the
    calibration, and the mode of the pen. *)
Definition same_machine (bg bg' : BrachioGraph) : Prop :=
  INNER_ARM bg' = INNER_ARM bg /\ OUTER_ARM bg' = OUTER_ARM bg /\
  virtual_mode bg' = virtual_mode bg /\
  angles_to_pw_1 bg' = angles_to_pw_1 bg /\
  angles_to_pw_2 bg' = angles_to_pw_2 bg /\
  pen_virtual_mode (pen bg') = pen_virtual_mode (pen bg).

(** A step of [plot_lines] that leaves the caller's drawing as it finds
    it. *)
Definition keeps_heap {A : Type} (m : M World A) : Prop :=
  forall w, snd (snd (m w)) = snd w.

(** A virtual plotter whose simulated servos are where the parked position
    puts them. *)
Definition at_rest (bg : BrachioGraph) : Prop :=
  pen_virtual_mode (pen bg) = Some true /\ virtual_mode bg = true /\
  0 < INNER_ARM bg /\ 0 < OUTER_ARM bg /\
  virtual_pw_1 bg = angles_to_pw_1 bg (-90) /\
  virtual_pw_2 bg = angles_to_pw_2 bg 90.

(** ** Methods built on [xy] *)

Definition draw (x y wait interpolate : R) : BG unit :=
  xy x y wait interpolate true.

Definition draw_line (start end_ : R * R) (wait interpolate : R) (pre_start : bool)
  : BG unit :=
  (let '(start_x, start_y) := start in
   let '(end_x, end_y) := end_ in
   (if pre_start then
      let '(pre_x, pre_y) := pre_start_position start end_ in
      xy pre_x pre_y wait interpolate false
    else ret tt) ;;
   xy start_x start_y wait interpolate false ;;
   xy end_x end_y wait interpolate true)%monad.

(** [box]; [repeat] is the number of turns, [range] of a negative number
    being empty. *)
Definition box (bounds_arg : option Bounds) (wait interpolate : R) (repeat : Z)
  (reverse : bool) : BG (option string) :=
  (self_bounds <- gets bounds ;;
   let bounds := match bounds_arg with Some b => Some b | None => self_bounds end in
   match bounds with
   | None => ret (Some "Box drawing is only possible when BrachioGraph.bounds is set."%string)
   | Some (b0, b1, b2, b3) =>
       xy b0 b1 wait interpolate false ;;
       for_each (range repeat) (fun r =>
         if negb reverse then
           draw b2 b1 wait interpolate ;;
           draw b2 b3 wait interpolate ;;
           draw b0 b3 wait interpolate ;;
           draw b0 b1 wait interpolate
         else
           draw b0 b3 wait interpolate ;;
           draw b2 b3 wait interpolate ;;
           draw b2 b1 wait interpolate ;;
           draw b0 b1 wait interpolate) ;;
       park ;;
       ret None
   end)%monad.

Definition centre : BG (option string) :=
  (self_bounds <- gets bounds ;;
   match self_bounds with
   | None => ret (Some "Moving to the centre is only possible when BrachioGraph.bounds is set."%string)
   | Some (b0, b1, b2, b3) =>
       PenM.up ;;
       xy (b2 / 2) (b3 / 2) default_wait default_interpolate false ;;
       quiet [14; 15; 18]%Z ;;
       ret None
   end)%monad.

(** ** Further notions used to state properties *)

(** The distance from the pivot that [angles_to_xy] computes from the elbow
    angle, its [hypotenuse]. *)
Definition forward_reach (INNER_ARM OUTER_ARM elbow_motor_angle : R) : R :=
  sqrt (INNER_ARM ^ 2 + OUTER_ARM ^ 2
        - 2 * INNER_ARM * OUTER_ARM * cos (PI - math.radians elbow_motor_angle)).

(** The square of the distance between two points. *)
Definition distance2 (p q : R * R) : R :=
  (fst p - fst q) ^ 2 + (snd p - snd q) ^ 2.

(** The linear calibration [__init__] stores when no table is given and the
    defaults are kept. *)
Definition default_calibration (bg : BrachioGraph) : Prop :=
  angles_to_pw_1 bg = naive_angles_to_pulse_widths_1 (-10) 1500 /\
  angles_to_pw_2 bg = naive_angles_to_pulse_widths_2 10 1500.

(** Every pulse-width recorded by [set_angles] is inside the band. *)
Definition recorded_in_band (bg : BrachioGraph) : Prop :=
  Forall in_band (pulse_widths_used_1 bg) /\ Forall in_band (pulse_widths_used_2 bg).

(** A drawing of two lines of one point each, over the store of
    [two_points]. *)
Definition two_dots : Drawing := [[0%nat]; [1%nat]].

(** What is fixed when the plotter is built: the geometry, the mode, the
    bounds, the calibration and the mode of the pen. *)
Definition machine (bg : BrachioGraph)
  : R * R * bool * option Bounds * (R -> R) * (R -> R) * option bool :=
  (INNER_ARM bg, OUTER_ARM bg, virtual_mode bg, bounds bg,
   angles_to_pw_1 bg, angles_to_pw_2 bg, pen_virtual_mode (pen bg)).

Definition position (bg : BrachioGraph) : R * R := (current_x bg, current_y bg).

(** A method that leaves an aspect [f] of the plotter as it finds it,
    whether it returns or raises. *)
Definition keeps {A B : Type} (f : BrachioGraph -> B) (m : BG A) : Prop :=
  forall bg, f (snd (m bg)) = f bg.


(** [xy] after the pen has been raised or lowered: lines 416 to 458. *)
Definition xy_body (x y wait interpolate : R) : BG unit :=
  ('(angle_1, angle_2) <- self_xy_to_angles x y ;;
   '(pulse_width_1, pulse_width_2) <-
      gets (fun bg => angles_to_pulse_widths bg angle_1 angle_2) ;;
   '(actual_1, actual_2) <- get_pulse_widths ;;
   if Reqb pulse_width_1 actual_1 && Reqb pulse_width_2 actual_2 then
     modify (with_current_x x) ;;
     modify (with_current_y y)
   else
     xy_interpolate x y wait interpolate)%monad.

Definition pen_move (draw : bool) : BG unit :=
  if draw then PenM.down else PenM.up.

(** A method under which a property of the plotter, once true, stays true,
    whether the method returns or raises. *)
Definition preserves {A : Type} (P : BrachioGraph -> Prop) (m : BG A) : Prop :=
  forall bg, P bg -> P (snd (m bg)).

(** A virtual plotter whose recorded pulse-widths are all inside the band. *)
Definition virtual_record (bg : BrachioGraph) : Prop :=
  virtual_mode bg = true /\ recorded_in_band bg.

(** A number that binary64 arithmetic can square, and multiply by another
    such number, without overflow and without a non-zero result rounded
    to zero: zero, or between 1e-150 and 1e150 in size. *)
Definition float_magnitude (v : R) : Prop :=
  v = 0 \/ / 10 ^ 150 <= Rabs v <= 10 ^ 150.

(** A virtual plotter with arms 4 and 3 long and the default calibration,
    in any state: the hypotenuse of its parked position is 5, and the
    program computes the angles of that position as -90 and 90 without a
    rounding error. *)
Definition small_plotter (bg : BrachioGraph) : Prop :=
  pen_virtual_mode (pen bg) = Some true /\ virtual_mode bg = true /\
  INNER_ARM bg = 4 /\ OUTER_ARM bg = 3 /\ default_calibration bg.
(** * Facts about the arithmetic primitives *)

Lemma truediv_ok (a b : R) : b <> 0 -> truediv a b = Ok (a / b).
Proof. intros Hb. unfold truediv. destruct (Req_dec_T b 0); [contradiction | reflexivity]. Qed.

Lemma truediv_zero (a : R) : truediv a 0 = Raise ZeroDivisionError.
Proof. unfold truediv. destruct (Req_dec_T 0 0); [reflexivity | exfalso; auto]. Qed.

Lemma math_sqrt_ok (x : R) : 0 <= x -> math.sqrt x = Ok (sqrt x).
Proof. intros Hx. unfold math.sqrt. destruct (Rle_dec 0 x); [reflexivity | contradiction]. Qed.

Lemma in_unit_true (v : R) : -1 <= v <= 1 -> math.in_unit v = true.
Proof.
  intros [Hl Hu]. unfold math.in_unit.
  destruct (Rle_dec (-1) v); [| contradiction].
  destruct (Rle_dec v 1); [reflexivity | contradiction].
Qed.

Lemma in_unit_false (v : R) : v < -1 \/ 1 < v -> math.in_unit v = false.
Proof.
  intros H. unfold math.in_unit.
  destruct (Rle_dec (-1) v); [| reflexivity].
  destruct (Rle_dec v 1); [lra | reflexivity].
Qed.

Lemma math_asin_ok (v : R) : -1 <= v <= 1 -> math.asin v = Ok (asin v).
Proof. intros H. unfold math.asin. now rewrite in_unit_true. Qed.

Lemma math_acos_ok (v : R) : -1 <= v <= 1 -> math.acos v = Ok (acos v).
Proof. intros H. unfold math.acos. now rewrite in_unit_true. Qed.

Lemma math_acos_domain (v : R) : v < -1 \/ 1 < v -> math.acos v = Raise ValueError.
Proof. intros H. unfold math.acos. now rewrite in_unit_false. Qed.

Lemma ratio_in_unit (n d : R) : 0 < d -> - d <= n <= d -> -1 <= n / d <= 1.
Proof.
  intros Hd [Hl Hu].
  assert (E : n = n / d * d) by (field; lra).
  split; nra.
Qed.

Lemma ratio_above (n d : R) : 0 < d -> d < n -> 1 < n / d.
Proof.
  intros Hd Hn.
  assert (E : n = n / d * d) by (field; lra).
  nra.
Qed.

Lemma ratio_below (n d : R) : 0 < d -> n < - d -> n / d < -1.
Proof.
  intros Hd Hn.
  assert (E : n = n / d * d) by (field; lra).
  nra.
Qed.

Lemma degrees_radians (a : R) : math.radians (math.degrees a) = a.
Proof.
  unfold math.radians, math.degrees. field. apply PI_neq0.
Qed.

Lemma ratio_strict (n d : R) : 0 < d -> - d < n < d -> -1 < n / d < 1.
Proof.
  intros Hd [Hl Hu].
  assert (E : n = n / d * d) by (field; lra).
  split; nra.
Qed.

(** * Kinematics *)

Lemma reach_nonneg (x y : R) : 0 <= reach x y.
Proof. apply sqrt_pos. Qed.

Lemma reach_sq (x y : R) : reach x y ^ 2 = x ^ 2 + y ^ 2.
Proof. unfold reach. apply pow2_sqrt. nra. Qed.

Lemma reach_zero (x y : R) : reach x y = 0 -> x = 0 /\ y = 0.
Proof.
  intros H. pose proof (reach_sq x y) as E. rewrite H in E.
  split; nra.
Qed.

Lemma x_over_reach (x y : R) :
  0 < reach x y -> -1 <= x / reach x y <= 1.
Proof.
  intros Hh. apply ratio_in_unit; [assumption |].
  pose proof (reach_sq x y) as E. split; nra.
Qed.

Section KinematicsFacts.

Variables INNER OUTER : R.
Hypothesis inner_pos : 0 < INNER.
Hypothesis outer_pos : 0 < OUTER.

Lemma annulus_pos (h : R) : Rabs (INNER - OUTER) < h -> 0 < h.
Proof. intros H. pose proof (Rabs_pos (INNER - OUTER)). lra. Qed.

Lemma inner_cos_inside (h : R) :
  Rabs (INNER - OUTER) < h -> h < INNER + OUTER ->
  -1 < inner_cos INNER OUTER h < 1.
Proof.
  intros Hl Hu. pose proof (annulus_pos h Hl) as Hh.
  apply Rabs_def2 in Hl. destruct Hl as [Hl1 Hl2].
  unfold inner_cos. apply ratio_strict; [nra |]. split; nra.
Qed.

Lemma outer_cos_inside (h : R) :
  Rabs (INNER - OUTER) < h -> h < INNER + OUTER ->
  -1 < outer_cos INNER OUTER h < 1.
Proof.
  intros Hl Hu. pose proof (annulus_pos h Hl) as Hh.
  apply Rabs_def2 in Hl. destruct Hl as [Hl1 Hl2].
  unfold outer_cos. apply ratio_strict; [nra |]. split; nra.
Qed.

(** Outside the closed annulus the first [acos] is already out of its
    domain. *)
Lemma inner_cos_outside (h : R) :
  0 < h -> h < Rabs (INNER - OUTER) \/ INNER + OUTER < h ->
  inner_cos INNER OUTER h < -1 \/ 1 < inner_cos INNER OUTER h.
Proof.
  intros Hh [Hlow | Hhigh]; unfold inner_cos.
  - unfold Rabs in Hlow. destruct (Rcase_abs (INNER - OUTER)).
    + left. apply ratio_below; nra.
    + right. apply ratio_above; nra.
  - right. apply ratio_above; nra.
Qed.

(** What [xy_to_angles] computes, step by step, once the target is not
    the pivot. *)
Lemma xy_to_angles_unfold (x y : R) :
  0 < reach x y ->
  xy_to_angles INNER OUTER x y =
  (inner_angle <- math.acos (inner_cos INNER OUTER (reach x y)) ;;
   outer_angle <- math.acos (outer_cos INNER OUTER (reach x y)) ;;
   Ok (math.degrees (asin (x / reach x y) - inner_angle),
       math.degrees (PI - outer_angle)))%res.
Proof.
  intros Hh. unfold xy_to_angles.
  rewrite math_sqrt_ok by nra. cbn [rbind]. fold (reach x y).
  rewrite truediv_ok by lra. cbn [rbind].
  rewrite math_asin_ok by (apply x_over_reach; assumption). cbn [rbind].
  rewrite truediv_ok by nra. cbn [rbind].
  fold (inner_cos INNER OUTER (reach x y)).
  destruct (math.acos (inner_cos INNER OUTER (reach x y))); cbn [rbind]; [| reflexivity].
  rewrite truediv_ok by nra. cbn [rbind]. reflexivity.
Qed.

Lemma xy_to_angles_inside (x y : R) :
  Rabs (INNER - OUTER) < reach x y -> reach x y < INNER + OUTER ->
  xy_to_angles INNER OUTER x y =
  Ok (math.degrees (asin (x / reach x y) - acos (inner_cos INNER OUTER (reach x y))),
      math.degrees (PI - acos (outer_cos INNER OUTER (reach x y)))).
Proof.
  intros Hl Hu. rewrite xy_to_angles_unfold by (apply annulus_pos; assumption).
  pose proof (inner_cos_inside _ Hl Hu). pose proof (outer_cos_inside _ Hl Hu).
  rewrite math_acos_ok by lra. cbn [rbind].
  rewrite math_acos_ok by lra. reflexivity.
Qed.

Lemma xy_to_angles_outside (x y : R) :
  0 < reach x y ->
  reach x y < Rabs (INNER - OUTER) \/ INNER + OUTER < reach x y ->
  xy_to_angles INNER OUTER x y = Raise ValueError.
Proof.
  intros Hh Hout. rewrite xy_to_angles_unfold by assumption.
  rewrite math_acos_domain by (apply inner_cos_outside; assumption).
  reflexivity.
Qed.

Lemma xy_to_angles_pivot (x y : R) :
  reach x y = 0 -> xy_to_angles INNER OUTER x y = Raise ZeroDivisionError.
Proof.
  intros H0. unfold xy_to_angles.
  rewrite math_sqrt_ok by nra. cbn [rbind]. fold (reach x y).
  rewrite H0, truediv_zero. reflexivity.
Qed.

End KinematicsFacts.

Section RoundTrip.

Variables INNER OUTER : R.
Hypothesis inner_pos : 0 < INNER.
Hypothesis outer_pos : 0 < OUTER.

(** The law of cosines gives back the distance to the target. *)
Lemma hypotenuse_recovered (h : R) :
  INNER ^ 2 + OUTER ^ 2 - 2 * INNER * OUTER * outer_cos INNER OUTER h = h ^ 2.
Proof. unfold outer_cos. field. lra. Qed.

Lemma cos_asin_ratio (x y : R) :
  0 < reach x y ->
  cos (asin (x / reach x y)) * reach x y = Rabs y.
Proof.
  intros Hh. rewrite cos_asin by (apply x_over_reach; assumption).
  pose proof (reach_sq x y) as E.
  replace (1 - (x / reach x y)²) with ((y / reach x y)²).
  - rewrite sqrt_Rsqr_abs. unfold Rdiv. rewrite Rabs_mult.
    rewrite (Rabs_right (/ reach x y)).
    + field. lra.
    + apply Rle_ge. left. apply Rinv_0_lt_compat. assumption.
  - unfold Rsqr. field_simplify; try lra.
    replace (reach x y ^ 2) with (x ^ 2 + y ^ 2) by (symmetry; exact E).
    field. nra.
Qed.

(** Converting to angles and back keeps [x] and loses the sign of [y]:
    [xy_to_angles] reads the target only through [x] and the distance. *)
Lemma round_trip_abs (x y : R) :
  Rabs (INNER - OUTER) < reach x y -> reach x y < INNER + OUTER ->
  (rbind (xy_to_angles INNER OUTER x y)
         (fun a => angles_to_xy INNER OUTER (fst a) (snd a)))
  = Ok (x, Rabs y).
Proof.
  intros Hl Hu. pose proof (annulus_pos INNER OUTER _ Hl) as Hh.
  pose proof (inner_cos_inside INNER OUTER _ Hl Hu) as Hic.
  pose proof (outer_cos_inside INNER OUTER _ Hl Hu) as Hoc.
  rewrite (xy_to_angles_inside INNER OUTER inner_pos outer_pos) by assumption.
  cbn [rbind fst snd]. unfold angles_to_xy. cbv zeta.
  rewrite !degrees_radians.
  replace (PI - (PI - acos (outer_cos INNER OUTER (reach x y))))
    with (acos (outer_cos INNER OUTER (reach x y))) by ring.
  rewrite cos_acos by lra.
  rewrite hypotenuse_recovered.
  rewrite math_sqrt_ok by nra. cbn [rbind].
  rewrite sqrt_pow2 by lra.
  rewrite truediv_ok by nra. cbn [rbind].
  fold (inner_cos INNER OUTER (reach x y)).
  rewrite math_acos_ok by lra. cbn [rbind].
  replace (acos (inner_cos INNER OUTER (reach x y)) +
           (asin (x / reach x y) - acos (inner_cos INNER OUTER (reach x y))))
    with (asin (x / reach x y)) by ring.
  rewrite sin_asin by (apply x_over_reach; assumption).
  rewrite cos_asin_ratio by assumption.
  f_equal. f_equal. field. lra.
Qed.

End RoundTrip.

Lemma reach_eq (x y h : R) : 0 <= h -> x ^ 2 + y ^ 2 = h ^ 2 -> reach x y = h.
Proof. intros Hh E. unfold reach. rewrite E. apply sqrt_pow2. assumption. Qed.

(** ** Properties of the kinematics *)

(** C2, as amended: for positive arm lengths and a target with [y >= 0]
    whose distance from the pivot is strictly inside the annulus,
    [angles_to_xy] applied to the result of [xy_to_angles] returns the target
    exactly (over the reals). *)
Theorem round_trip_upper_half (INNER OUTER x y : R) :
  0 < INNER -> 0 < OUTER ->
  Rabs (INNER - OUTER) < reach x y -> reach x y < INNER + OUTER ->
  0 <= y ->
  rbind (xy_to_angles INNER OUTER x y)
        (fun a => angles_to_xy INNER OUTER (fst a) (snd a))
  = Ok (x, y).
Proof.
  intros HI HO Hl Hu Hy.
  rewrite (round_trip_abs INNER OUTER HI HO) by assumption.
  rewrite Rabs_right by lra. reflexivity.
Qed.

Lemma round_trip_upper_half_witness :
  rbind (xy_to_angles 8 8 0 8) (fun a => angles_to_xy 8 8 (fst a) (snd a))
  = Ok (0, 8).
Proof.
  assert (E : reach 0 8 = 8) by (apply reach_eq; lra).
  apply round_trip_upper_half; rewrite ?E;
    try lra.
  replace (8 - 8) with 0 by ring. rewrite Rabs_R0. lra.
Defined.

(** C2 as stated fails below the x axis: with both arms 8 long the target
    (0, -8) is strictly inside the annulus, and the round trip returns
    (0, 8). *)
Lemma round_trip_below_axis :
  0 < 8 /\ Rabs (8 - 8) < reach 0 (-8) < 8 + 8 /\
  rbind (xy_to_angles 8 8 0 (-8)) (fun a => angles_to_xy 8 8 (fst a) (snd a))
  = Ok (0, 8) /\
  rbind (xy_to_angles 8 8 0 (-8)) (fun a => angles_to_xy 8 8 (fst a) (snd a))
  <> Ok (0, -8).
Proof.
  assert (E : reach 0 (-8) = 8) by (apply reach_eq; lra).
  assert (A : Rabs (8 - 8) < reach 0 (-8) < 8 + 8).
  { rewrite E. replace (8 - 8) with 0 by ring. rewrite Rabs_R0. lra. }
  assert (T : rbind (xy_to_angles 8 8 0 (-8))
                (fun a => angles_to_xy 8 8 (fst a) (snd a)) = Ok (0, 8)).
  { rewrite round_trip_abs by lra.
    rewrite Rabs_left by lra. do 2 f_equal. lra. }
  repeat split; try lra; try apply A; try exact T.
  rewrite T. intros H. injection H as H. lra.
Qed.

Lemma float_magnitude_zero : float_magnitude 0.
Proof. now left. Qed.

Lemma float_magnitude_moderate (v : R) : 1 <= Rabs v <= 10 ^ 2 -> float_magnitude v.
Proof.
  intros [L U]. right.
  assert (P1 : 1 <= 10 ^ 150) by (apply pow_R1_Rle; lra).
  assert (P2 : 10 ^ 2 <= 10 ^ 150) by (apply Rle_pow; [lra | lia]).
  assert (P3 : / 10 ^ 150 <= 1).
  { rewrite <- Rinv_1. apply Rinv_le_contravar; lra. }
  split; lra.
Qed.

(** The exceptions the conversion can raise are the two of [math] and of the
    division. *)
Lemma xy_to_angles_raises (INNER OUTER x y : R) (e : exn) :
  xy_to_angles INNER OUTER x y = Raise e -> e = ValueError \/ e = ZeroDivisionError.
Proof.
  unfold xy_to_angles, math.sqrt, math.asin, math.acos, truediv. intros E.
  repeat match type of E with
         | context [if ?c then _ else _] => destruct c; cbn [rbind] in E
         end;
    try discriminate; injection E as <-; auto.
Qed.

(** C3, as amended: floats are read as real numbers, and the arm lengths and
    the coordinates are zero or between 1e-150 and 1e150 in size, so that
    no square overflows or is rounded to zero.  There, for positive arm
    lengths, [xy_to_angles] raises [ZeroDivisionError] at the pivot, raises
    [ValueError] (the domain error of [math.acos]) when the distance to the
    target is outside the closed annulus, and raises nothing strictly inside
    it; whenever it raises, the exception is one of these two. *)
Theorem xy_to_angles_errors (INNER OUTER x y : R) :
  0 < INNER -> 0 < OUTER ->
  float_magnitude INNER -> float_magnitude OUTER ->
  float_magnitude x -> float_magnitude y ->
  (reach x y = 0 -> xy_to_angles INNER OUTER x y = Raise ZeroDivisionError) /\
  (0 < reach x y ->
   reach x y < Rabs (INNER - OUTER) \/ INNER + OUTER < reach x y ->
   xy_to_angles INNER OUTER x y = Raise ValueError) /\
  (Rabs (INNER - OUTER) < reach x y -> reach x y < INNER + OUTER ->
   exists a, xy_to_angles INNER OUTER x y = Ok a) /\
  (forall e, xy_to_angles INNER OUTER x y = Raise e ->
   e = ValueError \/ e = ZeroDivisionError).
Proof.
  intros HI HO _ _ _ _. repeat split.
  - apply xy_to_angles_pivot.
  - intros Hh Hout. apply xy_to_angles_outside; assumption.
  - intros Hl Hu. eexists. apply xy_to_angles_inside; assumption.
  - apply xy_to_angles_raises.
Qed.

Lemma reach_20_20 : 8 + 8 < reach 20 20.
Proof.
  pose proof (reach_sq 20 20) as E. pose proof (reach_nonneg 20 20) as P.
  nra.
Qed.

Lemma xy_to_angles_errors_witness :
  xy_to_angles 8 8 0 0 = Raise ZeroDivisionError /\
  xy_to_angles 8 8 20 20 = Raise ValueError /\
  (exists a, xy_to_angles 8 8 0 8 = Ok a).
Proof.
  assert (H8 : 0 < 8) by lra.
  assert (F8 : float_magnitude 8)
    by (apply float_magnitude_moderate; rewrite Rabs_right; lra).
  assert (F20 : float_magnitude 20)
    by (apply float_magnitude_moderate; rewrite Rabs_right; lra).
  pose proof float_magnitude_zero as F0.
  destruct (xy_to_angles_errors 8 8 0 0 H8 H8 F8 F8 F0 F0) as [Z _].
  destruct (xy_to_angles_errors 8 8 20 20 H8 H8 F8 F8 F20 F20) as [_ [V _]].
  destruct (xy_to_angles_errors 8 8 0 8 H8 H8 F8 F8 F0 F8) as [_ [_ [I _]]].
  pose proof reach_20_20 as F.
  assert (E0 : reach 0 0 = 0) by (apply reach_eq; lra).
  assert (E8 : reach 0 8 = 8) by (apply reach_eq; lra).
  split; [apply Z; exact E0 |].
  split; [apply V; [lra | right; exact F] |].
  apply I; rewrite E8.
  - replace (8 - 8) with 0 by ring. rewrite Rabs_R0. lra.
  - lra.
Defined.

(** C3 as stated names an exception class the code does not have: the
    unreachable target (20, 20) of an 8 and 8 arm raises [ValueError]. *)
Lemma unreachable_raises_ValueError :
  0 < 8 /\ 8 + 8 < reach 20 20 /\
  xy_to_angles 8 8 20 20 = Raise ValueError /\
  xy_to_angles 8 8 20 20 <> Raise (UserDefined "UnreachablePositionError").
Proof.
  pose proof reach_20_20 as F.
  assert (V : xy_to_angles 8 8 20 20 = Raise ValueError).
  { apply xy_to_angles_outside; try lra; right; exact F. }
  repeat split; try lra; try exact V.
  rewrite V. discriminate.
Qed.

(** * The LineFitter stage *)

Lemma Rgeb_true (a b : R) : Rgeb a b = true <-> a >= b.
Proof. unfold Rgeb. destruct (Rge_dec a b); split; auto; discriminate. Qed.

Lemma Rleb_true (a b : R) : Rleb a b = true <-> a <= b.
Proof. unfold Rleb. destruct (Rle_dec a b); split; auto; discriminate. Qed.

Lemma Rltb_true (a b : R) : Rltb a b = true <-> a < b.
Proof. unfold Rltb. destruct (Rlt_dec a b); split; auto; discriminate. Qed.

Lemma Reqb_true (a b : R) : Reqb a b = true <-> a = b.
Proof. unfold Reqb. destruct (Req_dec_T a b); split; auto; discriminate. Qed.

Lemma Reqb_false (a b : R) : Reqb a b = false <-> a <> b.
Proof.
  unfold Reqb. destruct (Req_dec_T a b); split; auto; try discriminate.
  intros H. contradiction.
Qed.

Lemma same_orientation_true (xr yr bx by_ : R) :
  same_orientation xr yr bx by_ = true <->
  (xr >= yr /\ bx >= by_) \/ (xr <= yr /\ bx <= by_).
Proof.
  unfold same_orientation.
  rewrite orb_true_iff, !andb_true_iff, !Rgeb_true, !Rleb_true. tauto.
Qed.

Lemma same_orientation_false (xr yr bx by_ : R) :
  same_orientation xr yr bx by_ = false <->
  (xr > yr /\ bx < by_) \/ (xr < yr /\ bx > by_).
Proof.
  rewrite <- not_true_iff_false, same_orientation_true. split.
  - intros H.
    destruct (Rlt_le_dec yr xr); destruct (Rlt_le_dec bx by_);
      destruct (Rlt_le_dec xr yr); destruct (Rlt_le_dec by_ bx);
      try (exfalso; apply H; lra); lra.
  - lra.
Qed.

(** ** The bounding box *)

Lemma fold_min_init (l : list R) (a : R) : fold_left Rmin l a <= a.
Proof.
  revert a. induction l as [| b l IH]; intros a; cbn; [lra |].
  apply Rle_trans with (Rmin a b); [apply IH | apply Rmin_l].
Qed.

Lemma fold_max_init (l : list R) (a : R) : a <= fold_left Rmax l a.
Proof.
  revert a. induction l as [| b l IH]; intros a; cbn; [lra |].
  apply Rle_trans with (Rmax a b); [apply Rmax_l | apply IH].
Qed.

Lemma fold_min_le (l : list R) (a x : R) :
  In x (a :: l) -> fold_left Rmin l a <= x.
Proof.
  revert a. induction l as [| b l IH]; intros a Hin.
  - destruct Hin as [-> | []]. cbn. lra.
  - cbn [fold_left]. destruct Hin as [-> | [-> | Hin]].
    + apply Rle_trans with (Rmin x b); [apply fold_min_init | apply Rmin_l].
    + apply Rle_trans with (Rmin a x); [apply fold_min_init | apply Rmin_r].
    + apply IH. now right.
Qed.

Lemma fold_max_ge (l : list R) (a x : R) :
  In x (a :: l) -> x <= fold_left Rmax l a.
Proof.
  revert a. induction l as [| b l IH]; intros a Hin.
  - destruct Hin as [-> | []]. cbn. lra.
  - cbn [fold_left]. destruct Hin as [-> | [-> | Hin]].
    + apply Rle_trans with (Rmax x b); [apply Rmax_l | apply fold_max_init].
    + apply Rle_trans with (Rmax a x); [apply Rmax_r | apply fold_max_init].
    + apply IH. now right.
Qed.

Lemma py_min_le (l : list R) (m x : R) : py_min l = Ok m -> In x l -> m <= x.
Proof.
  destruct l as [| a l]; cbn; [discriminate |].
  intros E Hin. injection E as <-. now apply fold_min_le.
Qed.

Lemma py_max_ge (l : list R) (m x : R) : py_max l = Ok m -> In x l -> x <= m.
Proof.
  destruct l as [| a l]; cbn; [discriminate |].
  intros E Hin. injection E as <-. now apply fold_max_ge.
Qed.

Lemma zip_star_ok (h : heap) (line : list loc) :
  line <> [] ->
  zip_star h line = Ok (map (fun p => fst (h p)) line, map (fun p => snd (h p)) line).
Proof. destruct line; [congruence | reflexivity]. Qed.

Lemma values_in_lines_inv (h : heap) (lines : Drawing) :
  forall xs ys X Y,
  values_in_lines h lines xs ys = Ok (X, Y) ->
  Forall (fun line => line <> []) lines /\
  X = xs ++ map (fun p => fst (h p)) (concat lines) /\
  Y = ys ++ map (fun p => snd (h p)) (concat lines).
Proof.
  induction lines as [| line rest IH]; intros xs ys X Y E; cbn in E.
  - injection E as <- <-. cbn. rewrite !app_nil_r. auto.
  - destruct line as [| p line]; [discriminate |].
    cbn [zip_star rbind] in E. apply IH in E. destruct E as [F [-> ->]].
    split; [constructor; [discriminate | exact F] |].
    cbn [concat]. rewrite !map_app, !app_assoc. auto.
Qed.

Lemma values_in_lines_ok (h : heap) (lines : Drawing) :
  Forall (fun line => line <> []) lines ->
  forall xs ys,
  values_in_lines h lines xs ys =
  Ok (xs ++ map (fun p => fst (h p)) (concat lines),
      ys ++ map (fun p => snd (h p)) (concat lines)).
Proof.
  induction 1 as [| line rest Hne _ IH]; intros xs ys; cbn.
  - now rewrite !app_nil_r.
  - rewrite zip_star_ok by assumption. cbn [rbind]. rewrite IH.
    rewrite !map_app, !app_assoc. reflexivity.
Qed.

(** An empty drawing has no bounding box: [min] of an empty collection. *)
Lemma bounding_box_empty (h : heap) : bounding_box h [] = Raise ValueError.
Proof. reflexivity. Qed.

(** A bounding box exists exactly for a non-empty drawing of non-empty
    lines, and it encloses every point. *)
Lemma bounding_box_inv (h : heap) (lines : Drawing) (min_x max_x min_y max_y : R) :
  bounding_box h lines = Ok (min_x, max_x, min_y, max_y) ->
  lines <> [] /\ Forall (fun line => line <> []) lines /\
  forall p, In p (concat lines) ->
    min_x <= fst (h p) <= max_x /\ min_y <= snd (h p) <= max_y.
Proof.
  unfold bounding_box. intros E.
  destruct (values_in_lines h lines [] []) as [[X Y] |] eqn:V; [| discriminate].
  apply values_in_lines_inv in V. destruct V as [F [-> ->]]. cbn [app rbind] in E.
  destruct (py_min (map (fun p => fst (h p)) (concat lines))) as [mx |] eqn:E1;
    [| discriminate]; cbn [rbind] in E.
  destruct (py_max (map (fun p => fst (h p)) (concat lines))) as [Mx |] eqn:E2;
    [| discriminate]; cbn [rbind] in E.
  destruct (py_min (map (fun p => snd (h p)) (concat lines))) as [my |] eqn:E3;
    [| discriminate]; cbn [rbind] in E.
  destruct (py_max (map (fun p => snd (h p)) (concat lines))) as [My |] eqn:E4;
    [| discriminate]; cbn [rbind] in E.
  injection E as -> -> -> ->.
  split; [| split; [exact F |]].
  - intros ->. discriminate.
  - intros p Hin.
    assert (Hx : In (fst (h p)) (map (fun p => fst (h p)) (concat lines)))
      by (apply in_map_iff; eauto).
    assert (Hy : In (snd (h p)) (map (fun p => snd (h p)) (concat lines)))
      by (apply in_map_iff; eauto).
    repeat split;
      eauto using py_min_le, py_max_ge.
Qed.

Lemma bounding_box_total (h : heap) (lines : Drawing) :
  lines <> [] -> Forall (fun line => line <> []) lines ->
  exists box, bounding_box h lines = Ok box.
Proof.
  intros Hne F. unfold bounding_box. rewrite values_in_lines_ok by assumption.
  cbn [app rbind].
  destruct lines as [| [| p line] rest]; [congruence | inversion F; congruence |].
  cbn [concat app map py_min py_max rbind]. eexists. reflexivity.
Qed.

(** ** Orientation and divider *)

Lemma fit_parameters_spec (h : heap) (lines : Drawing)
  (min_x max_x min_y max_y b0 b1 b2 b3 : R) :
  bounding_box h lines = Ok (min_x, max_x, min_y, max_y) ->
  b2 - b0 <> 0 -> b3 - b1 <> 0 ->
  fit_parameters h lines (b0, b1, b2, b3) =
  Ok (if same_orientation (max_x - min_x) (max_y - min_y) (b2 - b0) (b3 - b1)
      then {| divider := Rmax ((max_x - min_x) / (b2 - b0)) ((max_y - min_y) / (b3 - b1));
              rotate := false;
              x_mid_point := (max_x + min_x) / 2;
              y_mid_point := (max_y + min_y) / 2;
              box_x_mid_point := (b0 + b2) / 2;
              box_y_mid_point := (b1 + b3) / 2 |}
      else {| divider := Rmax ((max_x - min_x) / (b3 - b1)) ((max_y - min_y) / (b2 - b0));
              rotate := true;
              x_mid_point := (max_y + min_y) / 2;
              y_mid_point := (max_x + min_x) / 2;
              box_x_mid_point := (b0 + b2) / 2;
              box_y_mid_point := (b1 + b3) / 2 |}).
Proof.
  intros E Hx Hy. unfold fit_parameters. rewrite E. cbn [rbind].
  destruct (same_orientation _ _ _ _); rewrite !truediv_ok by assumption;
    reflexivity.
Qed.

(** ** The fitting loop *)

Lemma fit_point_spec (f : Fit) (flip : bool) (p : loc) (h : heap) :
  divider f <> 0 ->
  exists h', fit_point f flip p h = (Ok tt, h') /\
             h' p = fitted f flip (h p) /\
             forall q, q <> p -> h' q = h q.
Proof.
  intros Hd. unfold fit_point, fitted.
  destruct (rotate f);
    unfold bind, get_item_0, get_item_1, set_item_0, set_item_1, gets, modify,
           lift, ret; cbn;
    rewrite !truediv_ok by assumption; cbn;
    rewrite ?Nat.eqb_refl; cbn;
    (eexists; split; [reflexivity |]; cbn; rewrite ?Nat.eqb_refl; cbn;
     split; [reflexivity |];
     intros q Hq; apply Nat.eqb_neq in Hq; rewrite ?Hq; reflexivity).
Qed.

(** With a zero divider the first division of the loop raises; when not
    rotating nothing has been written yet. *)
Lemma fit_point_zero (f : Fit) (flip : bool) (p : loc) (h : heap) :
  divider f = 0 -> rotate f = false ->
  fit_point f flip p h = (Raise ZeroDivisionError, h).
Proof.
  intros Hd Hr. unfold fit_point. rewrite Hr, Hd.
  unfold bind, get_item_0, gets, lift, ret. cbn.
  rewrite truediv_zero. reflexivity.
Qed.

Lemma fit_line_spec (f : Fit) (flip : bool) (line : list loc) :
  divider f <> 0 -> NoDup line ->
  forall h, exists h',
    for_each line (fit_point f flip) h = (Ok tt, h') /\
    (forall p, In p line -> h' p = fitted f flip (h p)) /\
    (forall q, ~ In q line -> h' q = h q).
Proof.
  intros Hd. induction line as [| p line IH]; intros ND h.
  - exists h. cbn. unfold ret. repeat split; auto. intros p [].
  - inversion ND as [| ? ? Hnotin ND']; subst.
    destruct (fit_point_spec f flip p h Hd) as [h1 [E1 [Hp Hoth]]].
    destruct (IH ND' h1) as [h2 [E2 [Hin Hout]]].
    exists h2. cbn [for_each]. unfold bind. rewrite E1. split; [exact E2 |].
    split.
    + intros q [<- | Hq].
      * rewrite Hout by assumption. exact Hp.
      * rewrite Hin by assumption. rewrite Hoth; [reflexivity |].
        intros ->. contradiction.
    + intros q Hq. rewrite Hout by (intros C; apply Hq; now right).
      apply Hoth. intros ->. apply Hq. now left.
Qed.

Lemma NoDup_app_disjoint {A : Type} (l1 l2 : list A) (a : A) :
  NoDup (l1 ++ l2) -> In a l1 -> ~ In a l2.
Proof.
  induction l1 as [| b l1 IH]; cbn; intros ND Hin; [contradiction |].
  inversion ND as [| ? ? Hb ND']; subst. destruct Hin as [-> | Hin].
  - intros C. apply Hb. apply in_or_app. now right.
  - now apply IH.
Qed.

Lemma fit_lines_spec (f : Fit) (flip : bool) (lines : Drawing) :
  divider f <> 0 -> NoDup (concat lines) ->
  forall h, exists h',
    fit_lines f flip lines h = (Ok tt, h') /\
    (forall p, In p (concat lines) -> h' p = fitted f flip (h p)) /\
    (forall q, ~ In q (concat lines) -> h' q = h q).
Proof.
  intros Hd. unfold fit_lines.
  induction lines as [| line rest IH]; intros ND h.
  - exists h. cbn. unfold ret. repeat split; auto. intros p [].
  - cbn [concat] in ND. apply NoDup_app_remove_l in ND as ND2.
    pose proof (NoDup_app_remove_r _ _ ND) as ND1.
    destruct (fit_line_spec f flip line Hd ND1 h) as [h1 [E1 [Hin1 Hout1]]].
    destruct (IH ND2 h1) as [h2 [E2 [Hin2 Hout2]]].
    exists h2. cbn [for_each]. unfold bind. rewrite E1. split; [exact E2 |].
    cbn [concat]. split.
    + intros p Hp. apply in_app_or in Hp. destruct Hp as [Hp | Hp].
      * rewrite Hout2; [now apply Hin1 |].
        now apply (NoDup_app_disjoint line (concat rest)).
      * rewrite Hin2 by assumption. rewrite Hout1; [reflexivity |].
        intros C. now apply (NoDup_app_disjoint line (concat rest) p ND C).
    + intros q Hq. rewrite Hout2 by (intros C; apply Hq; apply in_or_app; now right).
      apply Hout1. intros C. apply Hq. apply in_or_app. now left.
Qed.

Lemma fit_lines_total (f : Fit) (flip : bool) (lines : Drawing) :
  divider f <> 0 ->
  forall h, exists h', fit_lines f flip lines h = (Ok tt, h').
Proof.
  intros Hd. unfold fit_lines.
  assert (L : forall line h, exists h',
             for_each line (fit_point f flip) h = (Ok tt, h')).
  { induction line as [| p line IH]; intros h.
    - exists h. reflexivity.
    - destruct (fit_point_spec f flip p h Hd) as [h1 [E1 _]].
      destruct (IH h1) as [h2 E2].
      exists h2. cbn [for_each]. unfold bind. now rewrite E1. }
  induction lines as [| line rest IH]; intros h.
  - exists h. reflexivity.
  - destruct (L line h) as [h1 E1]. destruct (IH h1) as [h2 E2].
    exists h2. cbn [for_each]. unfold bind. now rewrite E1.
Qed.

Lemma line_fitter_unfold (lines : Drawing) (flip : bool) (b : Bounds) (h : heap) :
  line_fitter lines flip b h =
  match fit_parameters h lines b with
  | Ok f => match fit_lines f flip lines h with
            | (Ok _, h') => (Ok f, h')
            | (Raise e, h') => (Raise e, h')
            end
  | Raise e => (Raise e, h)
  end.
Proof.
  unfold line_fitter, bind, gets, lift, ret.
  destruct (fit_parameters h lines b); [| reflexivity].
  destruct (fit_lines a flip lines h) as [[[] | e] h']; reflexivity.
Qed.

(** The bounding box of a drawing is not inverted. *)
Lemma bounding_box_ordered (h : heap) (lines : Drawing) (min_x max_x min_y max_y : R) :
  bounding_box h lines = Ok (min_x, max_x, min_y, max_y) ->
  min_x <= max_x /\ min_y <= max_y.
Proof.
  intros E. destruct (bounding_box_inv _ _ _ _ _ _ E) as [Hne [F Hin]].
  destruct lines as [| [| p line] rest]; [congruence | inversion F; congruence |].
  destruct (Hin p) as [Hx Hy]; [cbn; now left | lra].
Qed.

Lemma Rmax_pos_l (a b : R) : 0 < a -> 0 < Rmax a b.
Proof. intros H. pose proof (Rmax_l a b). lra. Qed.

Lemma Rmax_pos_r (a b : R) : 0 < b -> 0 < Rmax a b.
Proof. intros H. pose proof (Rmax_r a b). lra. Qed.

Lemma div_pos (a b : R) : 0 < a -> 0 < b -> 0 < a / b.
Proof. intros Ha Hb. apply Rdiv_lt_0_compat; assumption. Qed.

Lemma div_le_mult (a b d : R) : 0 < b -> a / b <= d -> a <= d * b.
Proof.
  intros Hb H. assert (E : a = a / b * b) by (field; lra). nra.
Qed.

(** Centring on the middle of [lo, hi], dividing by a divider that is large
    enough and moving to the middle of [blo, bhi] lands inside [blo, bhi]. *)
Lemma scale_within (v lo hi d blo bhi : R) :
  lo <= v <= hi -> 0 < d -> hi - lo <= d * (bhi - blo) ->
  blo <= (v - (hi + lo) / 2) / d + (blo + bhi) / 2 <= bhi.
Proof.
  intros Hv Hd Hfit.
  assert (E : v - (hi + lo) / 2 = (v - (hi + lo) / 2) / d * d) by (field; lra).
  split; nra.
Qed.

(** The divider is positive as soon as the drawing has extent on one axis. *)
Lemma divider_pos (h : heap) (lines : Drawing) (min_x max_x min_y max_y : R)
  (b : Bounds) :
  bounding_box h lines = Ok (min_x, max_x, min_y, max_y) ->
  proper_bounds b ->
  min_x < max_x \/ min_y < max_y ->
  exists f, fit_parameters h lines b = Ok f /\ 0 < divider f.
Proof.
  intros E PB Hext. destruct b as [[[b0 b1] b2] b3]. cbn in PB. destruct PB as [Hbx Hby].
  destruct (bounding_box_ordered _ _ _ _ _ _ E) as [Ox Oy].
  rewrite (fit_parameters_spec _ _ _ _ _ _ _ _ _ _ E) by lra.
  eexists. split; [reflexivity |].
  destruct (same_orientation _ _ _ _); cbn [divider];
    destruct Hext as [Hx | Hy];
    solve [ apply Rmax_pos_l; apply div_pos; lra
          | apply Rmax_pos_r; apply div_pos; lra ].
Qed.

(** The fitted drawing, point by point, for a drawing whose point objects
    are all distinct. *)
Lemma line_fitter_spec (h : heap) (lines : Drawing) (flip : bool) (b : Bounds) (f : Fit) :
  fit_parameters h lines b = Ok f -> divider f <> 0 ->
  NoDup (concat lines) ->
  exists h', line_fitter lines flip b h = (Ok f, h') /\
    (forall p, In p (concat lines) -> h' p = fitted f flip (h p)) /\
    (forall q, ~ In q (concat lines) -> h' q = h q).
Proof.
  intros E Hd ND. rewrite line_fitter_unfold, E.
  destruct (fit_lines_spec f flip lines Hd ND h) as [h' [E' [Hin Hout]]].
  exists h'. rewrite E'. auto.
Qed.

(** Containment, where the code achieves it: every fitted [y] is inside the
    bounds, and every fitted [x] that was not negated. *)
Lemma fitted_contained (h : heap) (lines : Drawing) (min_x max_x min_y max_y : R)
  (b : Bounds) (f : Fit) (flip : bool) (p : loc) :
  bounding_box h lines = Ok (min_x, max_x, min_y, max_y) ->
  min_x < max_x -> min_y < max_y -> proper_bounds b ->
  fit_parameters h lines b = Ok f ->
  In p (concat lines) ->
  let '(b0, b1, b2, b3) := b in
  b1 <= snd (fitted f flip (h p)) <= b3 /\
  (xorb flip (rotate f) = false -> b0 <= fst (fitted f flip (h p)) <= b2) /\
  (xorb flip (rotate f) = true -> - b2 <= fst (fitted f flip (h p)) <= - b0).
Proof.
  intros E Hx Hy PB EF Hin. destruct b as [[[b0 b1] b2] b3].
  cbn in PB. destruct PB as [Hbx Hby].
  destruct (bounding_box_inv _ _ _ _ _ _ E) as [_ [_ Hbox]].
  destruct (Hbox p Hin) as [Px Py].
  rewrite (fit_parameters_spec _ _ _ _ _ _ _ _ _ _ E) in EF by lra.
  injection EF as <-.
  destruct (same_orientation _ _ _ _); unfold fitted;
    cbn [rotate divider x_mid_point y_mid_point box_x_mid_point box_y_mid_point fst snd].
  - set (d := Rmax ((max_x - min_x) / (b2 - b0)) ((max_y - min_y) / (b3 - b1))).
    assert (Hd : 0 < d) by (apply Rmax_pos_l; apply div_pos; lra).
    assert (Fx : max_x - min_x <= d * (b2 - b0))
      by (apply div_le_mult; [lra | apply Rmax_l]).
    assert (Fy : max_y - min_y <= d * (b3 - b1))
      by (apply div_le_mult; [lra | apply Rmax_r]).
    pose proof (scale_within _ _ _ _ _ _ Px Hd Fx).
    pose proof (scale_within _ _ _ _ _ _ Py Hd Fy).
    rewrite xorb_false_r. split; [lra |]. split; intros ->; cbn; lra.
  - set (d := Rmax ((max_x - min_x) / (b3 - b1)) ((max_y - min_y) / (b2 - b0))).
    assert (Hd : 0 < d) by (apply Rmax_pos_l; apply div_pos; lra).
    assert (Fx : max_x - min_x <= d * (b3 - b1))
      by (apply div_le_mult; [lra | apply Rmax_l]).
    assert (Fy : max_y - min_y <= d * (b2 - b0))
      by (apply div_le_mult; [lra | apply Rmax_r]).
    pose proof (scale_within _ _ _ _ _ _ Px Hd Fx).
    pose proof (scale_within _ _ _ _ _ _ Py Hd Fy).
    split; [lra |]. split; intros ->; cbn; lra.
Qed.

(** ** Properties of the LineFitter stage *)

Lemma bounding_box_two (a b : R * R) :
  bounding_box (two_points a b) one_line =
  Ok (Rmin (fst a) (fst b), Rmax (fst a) (fst b),
      Rmin (snd a) (snd b), Rmax (snd a) (snd b)).
Proof. reflexivity. Qed.

Lemma bounding_box_increasing (x0 y0 x1 y1 : R) :
  x0 <= x1 -> y0 <= y1 ->
  bounding_box (two_points (x0, y0) (x1, y1)) one_line = Ok (x0, x1, y0, y1).
Proof.
  intros Hx Hy. rewrite bounding_box_two. cbn [fst snd].
  rewrite !Rmin_left, !Rmax_right by assumption. reflexivity.
Qed.

Lemma line_fitter_two (a b : R * R) (flip : bool) (bnds : Bounds) (f : Fit) :
  fit_parameters (two_points a b) one_line bnds = Ok f -> divider f <> 0 ->
  exists h', line_fitter one_line flip bnds (two_points a b) = (Ok f, h') /\
             h' 0%nat = fitted f flip a /\ h' 1%nat = fitted f flip b.
Proof.
  intros E Hd.
  assert (ND : NoDup (concat one_line)).
  { cbn. repeat constructor; cbn; intuition discriminate. }
  destruct (line_fitter_spec _ _ flip _ _ E Hd ND) as [h' [E' [Hin _]]].
  exists h'. split; [exact E' |].
  split; [apply (Hin 0%nat) | apply (Hin 1%nat)]; cbn; auto.
Qed.

(** Containment as far as the code achieves it: for a drawing with extent
    on both axes, whose point objects are all distinct, every fitted point
    is inside the bounds when its [x] was not negated, that is when [flip]
    and the rotation agree. *)
Lemma line_fitter_contained (h : heap) (lines : Drawing)
  (min_x max_x min_y max_y : R) (b : Bounds) (flip : bool) :
  bounding_box h lines = Ok (min_x, max_x, min_y, max_y) ->
  min_x < max_x -> min_y < max_y -> proper_bounds b ->
  NoDup (concat lines) ->
  exists f h', line_fitter lines flip b h = (Ok f, h') /\
    (xorb flip (rotate f) = false ->
     forall p, In p (concat lines) -> in_bounds b (h' p)).
Proof.
  intros E Hx Hy PB ND.
  destruct (divider_pos _ _ _ _ _ _ b E PB (or_introl Hx)) as [f [EF Hd]].
  assert (Hd' : divider f <> 0) by lra.
  destruct (line_fitter_spec _ _ flip _ _ EF Hd' ND) as [h' [E' [Hin _]]].
  exists f, h'. split; [exact E' |].
  intros Hflip p Hp. rewrite (Hin p Hp).
  pose proof (fitted_contained _ _ _ _ _ _ b f flip p E Hx Hy PB EF Hp) as C.
  destruct b as [[[b0 b1] b2] b3]. destruct C as [Cy [Cx _]].
  cbn. split; [apply Cx; exact Hflip | exact Cy].
Qed.

(** C1, the defect: with [flip] set, the drawing (0,0)-(2,1) fitted to the
    bounds (1,1,5,3) has its first point at (-1, 1), left of the bounds.  The
    negation of [x] is applied after the move to the box, so it mirrors about
    [x = 0] and not about the middle of the box. *)
Theorem flip_leaves_bounds :
  proper_bounds (1, 1, 5, 3) /\
  bounding_box (two_points (0, 0) (2, 1)) one_line = Ok (0, 2, 0, 1) /\
  exists f h',
    line_fitter one_line true (1, 1, 5, 3) (two_points (0, 0) (2, 1)) = (Ok f, h') /\
    h' 0%nat = (-1, 1) /\
    ~ in_bounds (1, 1, 5, 3) (h' 0%nat).
Proof.
  assert (B : bounding_box (two_points (0, 0) (2, 1)) one_line = Ok (0, 2, 0, 1))
    by (apply bounding_box_increasing; lra).
  split; [cbn; lra |]. split; [exact B |].
  pose proof (fit_parameters_spec _ _ _ _ _ _ 1 1 5 3 B) as F.
  assert (S : same_orientation (2 - 0) (1 - 0) (5 - 1) (3 - 1) = true)
    by (apply same_orientation_true; lra).
  rewrite S in F.
  assert (D : Rmax ((2 - 0) / (5 - 1)) ((1 - 0) / (3 - 1)) = 1 / 2).
  { rewrite Rmax_left; lra. }
  rewrite D in F.
  destruct (line_fitter_two (0, 0) (2, 1) true _ _ (F ltac:(lra) ltac:(lra)))
    as [h' [E [H0 _]]]; [cbn; lra |].
  eexists. exists h'. split; [exact E |].
  assert (V : h' 0%nat = (-1, 1)).
  { rewrite H0. unfold fitted. cbn. f_equal; field. }
  split; [exact V |].
  rewrite V. cbn. lra.
Qed.

(** C6, as amended: for a drawing with a bounding box and proper bounds the
    fitting stage rotates exactly when the test of line 207 fails, that is
    when the image is strictly landscape and the box strictly portrait or the
    reverse (a square image or box never rotates).  Without rotation the
    divider is [max (xRange/boxXRange) (yRange/boxYRange)] and the mid-points
    are kept; with rotation it is [max (xRange/boxYRange) (yRange/boxXRange)],
    the mid-points are exchanged and each point has its coordinates
    exchanged before it is scaled. *)
Theorem orientation_rule (h : heap) (lines : Drawing)
  (min_x max_x min_y max_y b0 b1 b2 b3 : R) :
  bounding_box h lines = Ok (min_x, max_x, min_y, max_y) ->
  proper_bounds (b0, b1, b2, b3) ->
  let x_range := max_x - min_x in
  let y_range := max_y - min_y in
  let box_x_range := b2 - b0 in
  let box_y_range := b3 - b1 in
  exists f, fit_parameters h lines (b0, b1, b2, b3) = Ok f /\
    (rotate f = true <->
       (x_range > y_range /\ box_x_range < box_y_range) \/
       (x_range < y_range /\ box_x_range > box_y_range)) /\
    (rotate f = false ->
       divider f = Rmax (x_range / box_x_range) (y_range / box_y_range) /\
       x_mid_point f = (max_x + min_x) / 2 /\
       y_mid_point f = (max_y + min_y) / 2) /\
    (rotate f = true ->
       divider f = Rmax (x_range / box_y_range) (y_range / box_x_range) /\
       x_mid_point f = (max_y + min_y) / 2 /\
       y_mid_point f = (max_x + min_x) / 2) /\
    (forall flip p h0, divider f <> 0 ->
       exists h1, fit_point f flip p h0 = (Ok tt, h1) /\
         let '(p0, p1) := if rotate f then (snd (h0 p), fst (h0 p)) else h0 p in
         let x := (p0 - x_mid_point f) / divider f + box_x_mid_point f in
         let y := (p1 - y_mid_point f) / divider f + box_y_mid_point f in
         h1 p = (if xorb flip (rotate f) then - x else x, y)).
Proof.
  intros E PB x_range y_range box_x_range box_y_range.
  cbn in PB. destruct PB as [Hbx Hby].
  rewrite (fit_parameters_spec _ _ _ _ _ _ _ _ _ _ E) by lra.
  fold x_range y_range box_x_range box_y_range.
  assert (P : forall f flip p h0, divider f <> 0 ->
       exists h1, fit_point f flip p h0 = (Ok tt, h1) /\
         let '(p0, p1) := if rotate f then (snd (h0 p), fst (h0 p)) else h0 p in
         let x := (p0 - x_mid_point f) / divider f + box_x_mid_point f in
         let y := (p1 - y_mid_point f) / divider f + box_y_mid_point f in
         h1 p = (if xorb flip (rotate f) then - x else x, y)).
  { intros f flip p h0 Hd.
    destruct (fit_point_spec f flip p h0 Hd) as [h1 [E1 [Hp _]]].
    exists h1. split; [exact E1 |]. rewrite Hp. unfold fitted.
    destruct (rotate f); [reflexivity |]. destruct (h0 p). reflexivity. }
  destruct (same_orientation x_range y_range box_x_range box_y_range) eqn:S;
    eexists; (split; [reflexivity |]);
    (split; [| split; [| split; [| apply P]]]);
    cbn [rotate divider x_mid_point y_mid_point].
  - apply same_orientation_true in S. split; [discriminate | lra].
  - auto.
  - discriminate.
  - apply same_orientation_false in S. split; auto.
  - discriminate.
  - auto.
Qed.

(** The example of the specification: a drawing with bounding box
    (0,0)-(10,20) and the square bounds (-5,-5,5,5). *)
Lemma tall_into_square :
  exists f,
    fit_parameters (two_points (0, 0) (10, 20)) one_line (-5, -5, 5, 5) = Ok f /\
    rotate f = false /\ divider f = 2.
Proof.
  assert (B : bounding_box (two_points (0, 0) (10, 20)) one_line = Ok (0, 10, 0, 20))
    by (apply bounding_box_increasing; lra).
  rewrite (fit_parameters_spec _ _ _ _ _ _ (-5) (-5) 5 5 B) by lra.
  assert (S : same_orientation (10 - 0) (20 - 0) (5 - -5) (5 - -5) = true)
    by (apply same_orientation_true; lra).
  rewrite S. eexists. split; [reflexivity |]. split; [reflexivity |].
  cbn [divider]. rewrite Rmax_right; lra.
Qed.

Lemma orientation_rule_witness :
  proper_bounds (-5, -5, 5, 5) /\
  bounding_box (two_points (0, 0) (10, 20)) one_line = Ok (0, 10, 0, 20) /\
  exists f,
    fit_parameters (two_points (0, 0) (10, 20)) one_line (-5, -5, 5, 5) = Ok f /\
    rotate f = false /\
    divider f = Rmax ((10 - 0) / (5 - -5)) ((20 - 0) / (5 - -5)).
Proof.
  assert (PB : proper_bounds (-5, -5, 5, 5)) by (cbn; lra).
  assert (B : bounding_box (two_points (0, 0) (10, 20)) one_line = Ok (0, 10, 0, 20))
    by (apply bounding_box_increasing; lra).
  split; [exact PB |]. split; [exact B |].
  destruct (orientation_rule _ _ _ _ _ _ _ _ _ _ B PB) as [f [E [R [N _]]]].
  exists f. split; [exact E |].
  assert (Rf : rotate f = false).
  { destruct (rotate f); [| reflexivity]. destruct R as [R _].
    specialize (R eq_refl). lra. }
  split; [exact Rf |]. apply N. exact Rf.
Defined.

(** C6 as stated fails on its own example: the shape classes
    [xRange >= yRange] and [boxXRange >= boxYRange] differ, and the code
    does not rotate, because a square box is also portrait. *)
Lemma square_box_no_rotation :
  Rgeb (10 - 0) (20 - 0) <> Rgeb (5 - -5) (5 - -5) /\
  bounding_box (two_points (0, 0) (10, 20)) one_line = Ok (0, 10, 0, 20) /\
  exists f,
    fit_parameters (two_points (0, 0) (10, 20)) one_line (-5, -5, 5, 5) = Ok f /\
    rotate f = false /\ divider f = 2.
Proof.
  split.
  - assert (A : Rgeb (10 - 0) (20 - 0) = false).
    { apply not_true_iff_false. rewrite Rgeb_true. lra. }
    assert (B : Rgeb (5 - -5) (5 - -5) = true) by (apply Rgeb_true; lra).
    rewrite A, B. discriminate.
  - split; [apply bounding_box_increasing; lra | exact tall_into_square].
Qed.

(** C7, as amended: for proper bounds, when the drawing has no extent on
    either axis the divider is 0 and the first division of the fitting loop
    raises [ZeroDivisionError], the drawing untouched; when it has no extent
    on exactly one axis the divider is positive and the fitting stage
    completes without an error. *)
Theorem degenerate_drawing (h : heap) (lines : Drawing)
  (min_x max_x min_y max_y : R) (b : Bounds) (flip : bool) :
  bounding_box h lines = Ok (min_x, max_x, min_y, max_y) ->
  proper_bounds b ->
  (max_x - min_x = 0 -> max_y - min_y = 0 ->
   (exists f, fit_parameters h lines b = Ok f /\ divider f = 0) /\
   line_fitter lines flip b h = (Raise ZeroDivisionError, h)) /\
  ((max_x - min_x = 0 /\ max_y - min_y > 0) \/
   (max_x - min_x > 0 /\ max_y - min_y = 0) ->
   exists f h', line_fitter lines flip b h = (Ok f, h') /\ 0 < divider f).
Proof.
  intros E PB. split.
  - intros Hx Hy. destruct b as [[[b0 b1] b2] b3]. cbn in PB. destruct PB as [Hbx Hby].
    rewrite line_fitter_unfold.
    rewrite (fit_parameters_spec _ _ _ _ _ _ _ _ _ _ E) by lra.
    assert (S : same_orientation (max_x - min_x) (max_y - min_y) (b2 - b0) (b3 - b1) = true).
    { apply same_orientation_true. rewrite Hx, Hy.
      destruct (Rle_lt_dec (b2 - b0) (b3 - b1)); [right | left]; lra. }
    rewrite S, Hx, Hy.
    assert (D : Rmax (0 / (b2 - b0)) (0 / (b3 - b1)) = 0).
    { unfold Rdiv. rewrite !Rmult_0_l. apply Rmax_left. lra. }
    split; [eexists; split; [reflexivity | exact D] |].
    destruct (bounding_box_inv _ _ _ _ _ _ E) as [Hne [F _]].
    destruct lines as [| [| p line] rest]; [congruence | inversion F; congruence |].
    unfold fit_lines. cbn [for_each]. unfold bind at 1. unfold bind at 1.
    rewrite fit_point_zero; [reflexivity | exact D | reflexivity].
  - intros Hone.
    assert (Hext : min_x < max_x \/ min_y < max_y) by lra.
    destruct (divider_pos _ _ _ _ _ _ b E PB Hext) as [f [EF Hd]].
    assert (Hd' : divider f <> 0) by lra.
    destruct (fit_lines_total f flip lines Hd' h) as [h' E'].
    exists f, h'. rewrite line_fitter_unfold, EF, E'. auto.
Qed.

(** A single dot, and a vertical stroke. *)
Lemma degenerate_drawing_witness :
  line_fitter one_line false (0, 0, 1, 1) (two_points (3, 4) (3, 4))
    = (Raise ZeroDivisionError, two_points (3, 4) (3, 4)) /\
  exists f h',
    line_fitter one_line false (0, 0, 1, 1) (two_points (0, 0) (0, 1)) = (Ok f, h') /\
    0 < divider f.
Proof.
  assert (PB : proper_bounds (0, 0, 1, 1)) by (cbn; lra).
  assert (B1 : bounding_box (two_points (3, 4) (3, 4)) one_line = Ok (3, 3, 4, 4))
    by (apply bounding_box_increasing; lra).
  assert (B2 : bounding_box (two_points (0, 0) (0, 1)) one_line = Ok (0, 0, 0, 1))
    by (apply bounding_box_increasing; lra).
  split.
  - apply (degenerate_drawing _ _ _ _ _ _ _ false B1 PB); lra.
  - apply (degenerate_drawing _ _ _ _ _ _ _ false B2 PB). left. lra.
Defined.

(** C7 as stated fails when only one range is 0: a vertical stroke has
    [xRange = 0], its divider is 1 and it is fitted without an error. *)
Lemma vertical_stroke_is_fitted :
  bounding_box (two_points (0, 0) (0, 1)) one_line = Ok (0, 0, 0, 1) /\
  exists f h',
    line_fitter one_line false (0, 0, 1, 1) (two_points (0, 0) (0, 1)) = (Ok f, h') /\
    divider f = 1 /\ h' 0%nat = (1 / 2, 0) /\ h' 1%nat = (1 / 2, 1).
Proof.
  assert (B : bounding_box (two_points (0, 0) (0, 1)) one_line = Ok (0, 0, 0, 1))
    by (apply bounding_box_increasing; lra).
  split; [exact B |].
  pose proof (fit_parameters_spec _ _ _ _ _ _ 0 0 1 1 B) as F.
  assert (S : same_orientation (0 - 0) (1 - 0) (1 - 0) (1 - 0) = true)
    by (apply same_orientation_true; lra).
  rewrite S in F.
  assert (D : Rmax ((0 - 0) / (1 - 0)) ((1 - 0) / (1 - 0)) = 1).
  { rewrite Rmax_right; [field | ]. lra. }
  rewrite D in F.
  destruct (line_fitter_two (0, 0) (0, 1) false _ _ (F ltac:(lra) ltac:(lra)))
    as [h' [E [H0 H1]]]; [cbn; lra |].
  eexists. exists h'. split; [exact E |]. split; [reflexivity |].
  rewrite H0, H1. unfold fitted. cbn. split; f_equal; field.
Qed.

(** C10: with bounds configured, [plot_lines] on an empty drawing raises
    [ValueError] from the [min] of an empty collection; nothing has been
    moved or written. *)
Theorem plot_lines_empty (bg : BrachioGraph) (h : heap) (wait interpolate : R)
  (pre_start rotate_arg flip : bool) (bounds_arg : option Bounds) (b : Bounds) :
  match bounds_arg with Some b' => Some b' | None => bounds bg end = Some b ->
  plot_lines [] wait interpolate pre_start rotate_arg flip bounds_arg (bg, h)
  = (Raise ValueError, (bg, h)).
Proof.
  intros Hb. unfold plot_lines, bind, gets. cbn [fst snd]. rewrite Hb.
  unfold on_heap. cbn [fst snd]. rewrite line_fitter_unfold.
  destruct b as [[[b0 b1] b2] b3]. reflexivity.
Qed.

Lemma plot_lines_empty_witness :
  plot_lines [] (1 / 10) 10 false false false None
    (parked_plotter 8 8 (Some (-8, 4, 6, 13)), two_points (0, 0) (0, 0))
  = (Raise ValueError,
     (parked_plotter 8 8 (Some (-8, 4, 6, 13)), two_points (0, 0) (0, 0))).
Proof.
  apply (plot_lines_empty _ _ _ _ _ _ _ _ (-8, 4, 6, 13)). reflexivity.
Defined.

(** * The actuator boundary *)

Lemma band_true (pw_1 pw_2 : R) :
  in_band pw_1 -> in_band pw_2 ->
  (Rltb 500 pw_1 && Rltb pw_1 2500) && (Rltb 500 pw_2 && Rltb pw_2 2500) = true.
Proof.
  intros [A B] [C D]. rewrite !andb_true_iff, !Rltb_true. auto.
Qed.

Lemma band_false (pw_1 pw_2 : R) :
  ~ (in_band pw_1 /\ in_band pw_2) ->
  (Rltb 500 pw_1 && Rltb pw_1 2500) && (Rltb 500 pw_2 && Rltb pw_2 2500) = false.
Proof.
  intros H. apply not_true_iff_false. intros T. apply H.
  rewrite !andb_true_iff, !Rltb_true in T. unfold in_band. tauto.
Qed.

Lemma set_pulse_widths_virtual_ok (pw_1 pw_2 : R) (bg : BrachioGraph) :
  virtual_mode bg = true -> in_band pw_1 -> in_band pw_2 ->
  set_pulse_widths pw_1 pw_2 bg = (Ok tt, virtual_written pw_1 pw_2 bg).
Proof.
  intros V B1 B2. unfold set_pulse_widths, bind, gets. rewrite V.
  rewrite band_true by assumption. reflexivity.
Qed.

Lemma set_pulse_widths_virtual_bad (pw_1 pw_2 : R) (bg : BrachioGraph) :
  virtual_mode bg = true -> ~ (in_band pw_1 /\ in_band pw_2) ->
  set_pulse_widths pw_1 pw_2 bg = (Raise ValueError, bg).
Proof.
  intros V B. unfold set_pulse_widths, bind, gets. rewrite V.
  rewrite band_false by assumption. reflexivity.
Qed.







(** * Moving the pen *)

Lemma pen_virtual (draw : bool) (bg : BrachioGraph) :
  pen_virtual_mode (pen bg) = Some true ->
  (if draw then PenM.down else PenM.up) bg = (Ok tt, pen_set draw bg).
Proof.
  intros H. destruct draw; unfold PenM.down, PenM.up, bind, gets; rewrite H;
    reflexivity.
Qed.

(** Raising or lowering the pen leaves the tracked position and angles
    alone, whatever the pen does. *)
Lemma pen_session (draw : bool) (bg : BrachioGraph) :
  session (snd ((if draw then PenM.down else PenM.up) bg)) = session bg.
Proof.
  destruct draw; unfold PenM.down, PenM.up, bind, gets;
    destruct (pen_virtual_mode (pen bg)) as [[|] |]; reflexivity.
Qed.

Lemma get_pulse_widths_state (bg : BrachioGraph) :
  get_pulse_widths bg =
  (Ok (if virtual_mode bg then (virtual_pw_1 bg, virtual_pw_2 bg)
       else (servo_pulsewidth bg 14%Z, servo_pulsewidth bg 15%Z)), bg).
Proof.
  unfold get_pulse_widths, bind, gets. destruct (virtual_mode bg); reflexivity.
Qed.

(** [xy] up to the early return, for a virtual pen. *)
Lemma xy_unfold (x y wait interpolate : R) (draw : bool) (bg : BrachioGraph) :
  pen_virtual_mode (pen bg) = Some true ->
  xy x y wait interpolate draw bg =
  match xy_to_angles (INNER_ARM bg) (OUTER_ARM bg) x y with
  | Raise e => (Raise e, pen_set draw bg)
  | Ok (a1, a2) =>
      let actual := if virtual_mode bg then (virtual_pw_1 bg, virtual_pw_2 bg)
                    else (servo_pulsewidth bg 14%Z, servo_pulsewidth bg 15%Z) in
      if Reqb (angles_to_pw_1 bg a1) (fst actual)
         && Reqb (angles_to_pw_2 bg a2) (snd actual)
      then (Ok tt, positioned x y (pen_set draw bg))
      else xy_interpolate x y wait interpolate (pen_set draw bg)
  end.
Proof.
  intros P. unfold xy. unfold bind at 1. rewrite pen_virtual by assumption.
  unfold bind at 1. unfold self_xy_to_angles.
  change (INNER_ARM (pen_set draw bg)) with (INNER_ARM bg).
  change (OUTER_ARM (pen_set draw bg)) with (OUTER_ARM bg).
  destruct (xy_to_angles (INNER_ARM bg) (OUTER_ARM bg) x y) as [[a1 a2] | e];
    [| reflexivity].
  unfold bind at 1. unfold gets at 1. unfold angles_to_pulse_widths.
  unfold bind at 1. rewrite get_pulse_widths_state.
  change (virtual_mode (pen_set draw bg)) with (virtual_mode bg).
  change (angles_to_pw_1 (pen_set draw bg)) with (angles_to_pw_1 bg).
  change (angles_to_pw_2 (pen_set draw bg)) with (angles_to_pw_2 bg).
  change (virtual_pw_1 (pen_set draw bg)) with (virtual_pw_1 bg).
  change (virtual_pw_2 (pen_set draw bg)) with (virtual_pw_2 bg).
  change (servo_pulsewidth (pen_set draw bg)) with (servo_pulsewidth bg).
  destruct (virtual_mode bg); cbn [fst snd];
    match goal with
    | |- context [Reqb ?a ?b && Reqb ?c ?d] => destruct (Reqb a b && Reqb c d)
    end; reflexivity.
Qed.

Lemma pen_arms (draw : bool) (bg : BrachioGraph) :
  INNER_ARM (snd ((if draw then PenM.down else PenM.up) bg)) = INNER_ARM bg /\
  OUTER_ARM (snd ((if draw then PenM.down else PenM.up) bg)) = OUTER_ARM bg.
Proof.
  destruct draw; unfold PenM.down, PenM.up, bind, gets;
    destruct (pen_virtual_mode (pen bg)) as [[|] |]; split; reflexivity.
Qed.

(** A target that cannot be converted: [xy] raises before it has touched
    the position or the angles. *)
Lemma xy_target_unreachable (x y wait interpolate : R) (draw : bool)
  (bg : BrachioGraph) (e : exn) :
  xy_to_angles (INNER_ARM bg) (OUTER_ARM bg) x y = Raise e ->
  exists e' bg', xy x y wait interpolate draw bg = (Raise e', bg') /\
                 session bg' = session bg.
Proof.
  intros E. unfold xy. unfold bind at 1.
  pose proof (pen_session draw bg) as S. pose proof (pen_arms draw bg) as [AI AO].
  destruct draw;
    match goal with
    | |- context [?pen_op bg] =>
        match pen_op with
        | PenM.down => idtac
        | PenM.up => idtac
        end;
        destruct (pen_op bg) as [[[] | e0] bg1]
    end; cbn [snd] in *;
    try (exists e0, bg1; split; [reflexivity | exact S]);
    (unfold bind at 1; unfold self_xy_to_angles; rewrite AI, AO, E;
     exists e, bg1; auto).
Qed.

Lemma no_of_steps_nonzero (length interpolate : R) :
  no_of_steps length interpolate <> 0%Z.
Proof.
  unfold no_of_steps.
  destruct (Z.eqb (int (length * interpolate)) 0) eqn:E; [discriminate |].
  now apply Z.eqb_neq.
Qed.

Lemma xy_interpolate_unfold (x y wait interpolate : R) (bg : BrachioGraph) :
  xy_interpolate x y wait interpolate bg =
  let x_length := x - current_x bg in
  let y_length := y - current_y bg in
  let length := sqrt (x_length ^ 2 + y_length ^ 2) in
  let n := no_of_steps length interpolate in
  (for_each (range n)
     (xy_step length wait n (x_length / IZR n) (y_length / IZR n)) ;;
   sleep (length * wait / 10))%monad bg.
Proof.
  unfold xy_interpolate. unfold bind at 1. unfold gets at 1.
  unfold bind at 1. unfold gets at 1.
  unfold bind at 1. unfold lift at 1. cbv beta.
  rewrite math_sqrt_ok by (apply Rplus_le_le_0_compat; apply pow2_ge_0).
  assert (N : IZR (no_of_steps
                (sqrt ((x - current_x bg) ^ 2 + (y - current_y bg) ^ 2))
                interpolate) <> 0).
  { apply not_0_IZR. apply no_of_steps_nonzero. }
  unfold bind at 1. unfold lift at 1. rewrite truediv_ok by exact N.
  unfold bind at 1. unfold lift at 1. rewrite truediv_ok by exact N.
  reflexivity.
Qed.

Lemma set_pulse_widths_position (pw_1 pw_2 : R) (bg : BrachioGraph) :
  current_x (snd (set_pulse_widths pw_1 pw_2 bg)) = current_x bg /\
  current_y (snd (set_pulse_widths pw_1 pw_2 bg)) = current_y bg.
Proof.
  unfold set_pulse_widths, bind, gets. destruct (virtual_mode bg).
  - destruct ((Rltb 500 pw_1 && Rltb pw_1 2500) && (Rltb 500 pw_2 && Rltb pw_2 2500));
      split; reflexivity.
  - split; reflexivity.
Qed.

(** One turn of the loop, case by case. *)
Lemma xy_step_unfold (length wait : R) (n : Z) (lsx lsy : R) (step : Z)
  (bg : BrachioGraph) :
  xy_step length wait n lsx lsy step bg =
  match xy_to_angles (INNER_ARM bg) (OUTER_ARM bg)
                     (current_x bg + lsx) (current_y bg + lsy) with
  | Raise e => (Raise e, advanced lsx lsy bg)
  | Ok (a1, a2) =>
      let pw_1 := angles_to_pw_1 bg a1 in
      let pw_2 := angles_to_pw_2 bg a2 in
      match set_pulse_widths pw_1 pw_2 (advanced lsx lsy bg) with
      | (Raise e, bg2) => (Raise e, bg2)
      | (Ok _, bg2) =>
          let bg3 := with_angles a1 a2 pw_1 pw_2 bg2 in
          if Z.ltb (step + 1) n
          then match truediv (length * wait) (IZR n) with
               | Ok t => (Ok tt, log (Sleep t) bg3)
               | Raise e => (Raise e, bg3)
               end
          else (Ok tt, bg3)
      end
  end.
Proof.
  unfold xy_step. unfold bind at 1. unfold modify at 1.
  unfold bind at 1. unfold modify at 1.
  unfold bind at 1. unfold gets at 1. unfold bind at 1. unfold gets at 1.
  unfold bind at 1. unfold self_xy_to_angles. cbv beta.
  change (with_current_y (current_y (with_current_x (current_x bg + lsx) bg) + lsy)
            (with_current_x (current_x bg + lsx) bg))
    with (advanced lsx lsy bg).
  change (INNER_ARM (advanced lsx lsy bg)) with (INNER_ARM bg).
  change (OUTER_ARM (advanced lsx lsy bg)) with (OUTER_ARM bg).
  change (current_x (advanced lsx lsy bg)) with (current_x bg + lsx).
  change (current_y (advanced lsx lsy bg)) with (current_y bg + lsy).
  destruct (xy_to_angles (INNER_ARM bg) (OUTER_ARM bg)
              (current_x bg + lsx) (current_y bg + lsy)) as [[a1 a2] | e];
    [| reflexivity].
  unfold bind at 1. unfold set_angles. unfold bind at 1. unfold gets at 1.
  unfold angles_to_pulse_widths.
  change (angles_to_pw_1 (advanced lsx lsy bg)) with (angles_to_pw_1 bg).
  change (angles_to_pw_2 (advanced lsx lsy bg)) with (angles_to_pw_2 bg).
  unfold bind at 1.
  destruct (set_pulse_widths (angles_to_pw_1 bg a1) (angles_to_pw_2 bg a2)
              (advanced lsx lsy bg)) as [[[] | e] bg2]; [| reflexivity].
  unfold modify at 1. cbv zeta.
  destruct (Z.ltb (step + 1) n); [| reflexivity].
  unfold bind, lift, sleep, modify.
  destruct (truediv (length * wait) (IZR n)); reflexivity.
Qed.

(** Whatever happens in a turn of the loop, the position has been advanced
    by one step when it ends. *)
Lemma xy_step_position (length wait : R) (n : Z) (lsx lsy : R) (step : Z)
  (bg : BrachioGraph) :
  current_x (snd (xy_step length wait n lsx lsy step bg)) = current_x bg + lsx /\
  current_y (snd (xy_step length wait n lsx lsy step bg)) = current_y bg + lsy.
Proof.
  rewrite xy_step_unfold.
  destruct (xy_to_angles _ _ _ _) as [[a1 a2] | e]; [| split; reflexivity].
  cbv zeta.
  pose proof (set_pulse_widths_position (angles_to_pw_1 bg a1) (angles_to_pw_2 bg a2)
                (advanced lsx lsy bg)) as [Px Py].
  destruct (set_pulse_widths _ _ _) as [[[] | e] bg2]; cbn [snd] in *.
  - destruct (Z.ltb (step + 1) n);
      [destruct (truediv (length * wait) (IZR n)) |]; cbn; auto.
  - auto.
Qed.

(** The loop: after [k] turns, the last of which may have raised, the
    position is [k] steps from where it started. *)
Lemma xy_loop_position (length wait : R) (n : Z) (lsx lsy : R) (l : list Z) :
  forall bg r bg',
  for_each l (xy_step length wait n lsx lsy) bg = (r, bg') ->
  exists k : nat, (k <= List.length l)%nat /\
    current_x bg' = current_x bg + INR k * lsx /\
    current_y bg' = current_y bg + INR k * lsy /\
    (forall e, r = Raise e -> (1 <= k)%nat).
Proof.
  induction l as [| step l IH]; intros bg r bg' E.
  - cbn in E. injection E as <- <-. exists 0%nat. cbn.
    repeat split; try lra; try lia. intros e H. discriminate.
  - cbn [for_each] in E. unfold bind in E.
    pose proof (xy_step_position length wait n lsx lsy step bg) as [Px Py].
    destruct (xy_step length wait n lsx lsy step bg) as [[[] | e] bg1];
      cbn [snd] in *.
    + destruct (IH _ _ _ E) as [k [Hk [Hx [Hy Hr]]]].
      exists (S k). rewrite S_INR, Hx, Hy, Px, Py. cbn [List.length].
      repeat split; try lra; try lia.
    + injection E as <- <-. exists 1%nat. cbn [List.length INR].
      rewrite Px, Py. repeat split; try lra; try lia.
Qed.

Lemma length_range (n : Z) : List.length (range n) = Z.to_nat n.
Proof. unfold range. now rewrite length_map, length_seq. Qed.

(** ** Facts used to run [xy] on given numbers *)

Lemma sqrt_eq (a h : R) : 0 <= h -> a = h ^ 2 -> sqrt a = h.
Proof. intros Hh ->. now apply sqrt_pow2. Qed.

Lemma int_IZR (z : Z) : (0 <= z)%Z -> int (IZR z) = z.
Proof.
  intros Hz. unfold int.
  destruct (Rle_dec 0 (IZR z)) as [_ | N]; [| exfalso; apply N; now apply IZR_le].
  symmetry. apply Int_part_spec. lra.
Qed.

Lemma no_of_steps_exact (length interpolate : R) (z : Z) :
  (1 <= z)%Z -> length * interpolate = IZR z -> no_of_steps length interpolate = z.
Proof.
  intros Hz E. unfold no_of_steps. rewrite E, int_IZR by lia.
  destruct (Z.eqb z 0) eqn:Z0; [apply Z.eqb_eq in Z0; lia | reflexivity].
Qed.

Lemma no_of_steps_zero (length interpolate : R) :
  length * interpolate = 0 -> no_of_steps length interpolate = 1%Z.
Proof.
  intros E. unfold no_of_steps. rewrite E, (int_IZR 0) by lia. reflexivity.
Qed.

Lemma parked_plotter_eq (i o : R) (b : option Bounds) :
  parked_plotter i o b =
  {| INNER_ARM := i; OUTER_ARM := o; virtual_mode := true; bounds := b;
     angles_to_pw_1 := naive_angles_to_pulse_widths_1 (-10) 1500;
     angles_to_pw_2 := naive_angles_to_pulse_widths_2 10 1500;
     pen := {| pin := 18; pw_up := 1500; pw_down := 1100;
               transition_time := 1 / 4;
               pen_virtual_mode := Some true; virtual_pw := Some 1500 |};
     virtual_pw_1 := naive_angles_to_pulse_widths_1 (-10) 1500 (-90);
     virtual_pw_2 := naive_angles_to_pulse_widths_2 10 1500 90;
     current_x := - i; current_y := o;
     angle_1 := None; angle_2 := None;
     angles_used_1 := []; angles_used_2 := [];
     pulse_widths_used_1 := []; pulse_widths_used_2 := [];
     servo_pulsewidth := fun _ => 0;
     events := [Sleep (3 / 10); Sleep (3 / 10); Sleep (3 / 10)] |}.
Proof. reflexivity. Qed.

(** The short-circuit of [xy] in virtual mode: equal pulse-widths, so the
    position is recorded and nothing else happens. *)
Lemma xy_short_circuit (x y wait interpolate : R) (draw : bool)
  (bg : BrachioGraph) (a1 a2 : R) :
  pen_virtual_mode (pen bg) = Some true -> virtual_mode bg = true ->
  xy_to_angles (INNER_ARM bg) (OUTER_ARM bg) x y = Ok (a1, a2) ->
  angles_to_pw_1 bg a1 = virtual_pw_1 bg ->
  angles_to_pw_2 bg a2 = virtual_pw_2 bg ->
  xy x y wait interpolate draw bg = (Ok tt, positioned x y (pen_set draw bg)).
Proof.
  intros P V A E1 E2. rewrite xy_unfold, A, V by assumption. cbv zeta. cbn [fst snd].
  rewrite (proj2 (Reqb_true _ _) E1), (proj2 (Reqb_true _ _) E2). reflexivity.
Qed.

(** A move made in one step, in virtual mode. *)
Lemma xy_one_step (x y wait interpolate : R) (draw : bool)
  (bg : BrachioGraph) (a1 a2 : R) :
  pen_virtual_mode (pen bg) = Some true -> virtual_mode bg = true ->
  xy_to_angles (INNER_ARM bg) (OUTER_ARM bg) x y = Ok (a1, a2) ->
  angles_to_pw_1 bg a1 <> virtual_pw_1 bg \/ angles_to_pw_2 bg a2 <> virtual_pw_2 bg ->
  no_of_steps (sqrt ((x - current_x bg) ^ 2 + (y - current_y bg) ^ 2)) interpolate
    = 1%Z ->
  in_band (angles_to_pw_1 bg a1) -> in_band (angles_to_pw_2 bg a2) ->
  exists bg', xy x y wait interpolate draw bg = (Ok tt, bg') /\
    same_machine bg bg' /\
    current_x bg' = x /\ current_y bg' = y /\
    angle_1 bg' = Some a1 /\ angle_2 bg' = Some a2 /\
    virtual_pw_1 bg' = angles_to_pw_1 bg (angles_to_pw_1 bg a1) /\
    virtual_pw_2 bg' = angles_to_pw_2 bg (angles_to_pw_2 bg a2) /\
    arm_commands bg' =
      VirtualPulseWidths (angles_to_pw_1 bg (angles_to_pw_1 bg a1))
                         (angles_to_pw_2 bg (angles_to_pw_2 bg a2))
      :: arm_commands bg.
Proof.
  intros P V A Hne N B1 B2. rewrite xy_unfold, A, V by assumption.
  cbv zeta. cbn [fst snd].
  assert (C : Reqb (angles_to_pw_1 bg a1) (virtual_pw_1 bg)
              && Reqb (angles_to_pw_2 bg a2) (virtual_pw_2 bg) = false).
  { apply andb_false_iff. rewrite !Reqb_false. exact Hne. }
  rewrite C. rewrite xy_interpolate_unfold. cbv zeta.
  change (current_x (pen_set draw bg)) with (current_x bg).
  change (current_y (pen_set draw bg)) with (current_y bg).
  rewrite N. change (range 1) with [0%Z]. cbn [for_each].
  unfold bind at 1. unfold bind at 1. rewrite xy_step_unfold.
  change (INNER_ARM (pen_set draw bg)) with (INNER_ARM bg).
  change (OUTER_ARM (pen_set draw bg)) with (OUTER_ARM bg).
  change (current_x (pen_set draw bg)) with (current_x bg).
  change (current_y (pen_set draw bg)) with (current_y bg).
  change (angles_to_pw_1 (pen_set draw bg)) with (angles_to_pw_1 bg).
  change (angles_to_pw_2 (pen_set draw bg)) with (angles_to_pw_2 bg).
  replace (current_x bg + (x - current_x bg) / 1) with x by field.
  replace (current_y bg + (y - current_y bg) / 1) with y by field.
  rewrite A. cbv zeta.
  rewrite set_pulse_widths_virtual_ok by (assumption || exact V).
  change (Z.ltb (0 + 1) 1) with false. cbv iota.
  unfold ret, sleep, modify.
  eexists. split; [reflexivity |].
  unfold same_machine. cbn. repeat split; try reflexivity; try assumption; field.
Qed.

(** ** Angles at particular positions *)

Lemma acos_half : acos (1 / 2) = PI / 3.
Proof.
  rewrite <- cos_PI3. apply acos_cos. pose proof PI_RGT_0. split; lra.
Qed.

(** With both arms 8 long, the position (0, 8) is reached with the shoulder
    at -60 degrees and the elbow at 120 degrees. *)
Lemma angles_at_0_8 : xy_to_angles 8 8 0 8 = Ok (-60, 120).
Proof.
  assert (E : reach 0 8 = 8) by (apply reach_eq; lra).
  rewrite xy_to_angles_inside; rewrite ?E; try lra.
  - assert (I : inner_cos 8 8 8 = 1 / 2) by (unfold inner_cos; field).
    assert (O : outer_cos 8 8 8 = 1 / 2) by (unfold outer_cos; field).
    rewrite I, O, acos_half.
    replace (0 / 8) with 0 by field. rewrite asin_0.
    unfold math.degrees. do 2 f_equal; field; apply PI_neq0.
  - replace (8 - 8) with 0 by ring. rewrite Rabs_R0. lra.
Qed.

(** The parked position, and its mirror image below the x axis: shoulder at
    -90 degrees, elbow at 90 degrees. *)
Lemma parked_angles (INNER OUTER y : R) :
  0 < INNER -> 0 < OUTER -> y ^ 2 = OUTER ^ 2 ->
  xy_to_angles INNER OUTER (- INNER) y = Ok (-90, 90).
Proof.
  intros HI HO Hy.
  pose proof (reach_sq (- INNER) y) as Sq. rewrite Hy in Sq.
  pose proof (reach_nonneg (- INNER) y) as Nn.
  set (h := reach (- INNER) y) in *.
  assert (Hh : 0 < h) by nra.
  assert (Lo : Rabs (INNER - OUTER) < h).
  { unfold Rabs. destruct (Rcase_abs (INNER - OUTER)); nra. }
  assert (Hi : h < INNER + OUTER) by nra.
  rewrite xy_to_angles_inside by assumption. fold h.
  assert (I : inner_cos INNER OUTER h = INNER / h).
  { unfold inner_cos. rewrite Sq. field. lra. }
  assert (O : outer_cos INNER OUTER h = 0).
  { unfold outer_cos. rewrite Sq. field. lra. }
  assert (U : -1 <= INNER / h <= 1).
  { apply ratio_in_unit; [assumption |]. split; nra. }
  rewrite I, O, acos_0.
  replace (- INNER / h) with (- (INNER / h)) by (field; lra).
  rewrite asin_opp, acos_asin by assumption.
  unfold math.degrees. do 2 f_equal; field; apply PI_neq0.
Qed.

Lemma shoulder_not_parked (v : R) :
  0 < v <= 1 -> math.degrees (asin v - acos v) <> -90.
Proof.
  intros Hv E. rewrite acos_asin in E by lra. unfold math.degrees in E.
  pose proof PI_RGT_0 as Ppos.
  assert (K : 180 / PI * PI = 180) by (field; lra).
  assert (T : 0 < 180 / PI) by (apply div_pos; lra).
  assert (Z : asin v = 0) by nra.
  pose proof (sin_asin v ltac:(lra)) as S. rewrite Z, sin_0 in S. lra.
Qed.

(** ** A move that fails on the way *)

(** From the parked position of a 4 and 3 arm to (4, -3) in two steps: the
    target converts, the first step lands on the shoulder pivot, where the
    conversion divides by zero. *)
Lemma move_through_pivot :
  exists a bg',
    xy_to_angles 4 3 4 (-3) = Ok a /\
    xy 4 (-3) (1 / 10) (1 / 5) false (parked_plotter 4 3 None)
      = (Raise ZeroDivisionError, bg') /\
    session (parked_plotter 4 3 None) = (-4, 3, None, None) /\
    session bg' = (0, 0, None, None).
Proof.
  assert (R5 : reach 4 (-3) = 5) by (apply reach_eq; lra).
  assert (IC : inner_cos 4 3 5 = 4 / 5) by (unfold inner_cos; field).
  assert (A : xy_to_angles 4 3 4 (-3) =
              Ok (math.degrees (asin (4 / 5) - acos (4 / 5)),
                  math.degrees (PI - acos (outer_cos 4 3 5)))).
  { rewrite xy_to_angles_inside; rewrite ?R5, ?IC; try lra; try reflexivity.
    replace (4 - 3) with 1 by ring. rewrite Rabs_R1. lra. }
  eexists. eexists. split; [exact A |].
  rewrite xy_unfold by reflexivity.
  rewrite parked_plotter_eq.
  cbn [INNER_ARM OUTER_ARM virtual_mode angles_to_pw_1 angles_to_pw_2
       virtual_pw_1 virtual_pw_2 fst snd].
  rewrite A. cbv zeta. cbn [fst snd].
  assert (C : Reqb (naive_angles_to_pulse_widths_1 (-10) 1500
                      (math.degrees (asin (4 / 5) - acos (4 / 5))))
                   (naive_angles_to_pulse_widths_1 (-10) 1500 (-90)) = false).
  { apply Reqb_false. unfold naive_angles_to_pulse_widths_1. intros E.
    apply (shoulder_not_parked (4 / 5)); lra. }
  rewrite C. cbn [andb].
  rewrite xy_interpolate_unfold. cbv zeta.
  cbn [pen_set with_pen current_x current_y].
  assert (L : sqrt ((4 - - (4)) ^ 2 + (-3 - 3) ^ 2) = 10)
    by (apply sqrt_eq; [lra | ring]).
  rewrite L.
  assert (N : no_of_steps 10 (1 / 5) = 2%Z).
  { apply no_of_steps_exact; [lia | field]. }
  rewrite N.
  change (range 2) with [0%Z; 1%Z]. cbn [for_each].
  unfold bind at 1. unfold bind at 1. rewrite xy_step_unfold.
  cbn [INNER_ARM OUTER_ARM current_x current_y].
  rewrite xy_to_angles_pivot by (apply reach_eq; [lra | cbn; field]).
  split; [reflexivity |].
  split; [unfold session; cbn; repeat f_equal; lra |].
  unfold session. cbn. repeat f_equal; lra.
Qed.

(** C4 as stated fails: the move of [move_through_pivot] raises in the
    middle of the interpolation, and the position it leaves is the pivot,
    not the parked position the call started from. *)
Lemma mid_move_failure_not_rolled_back :
  exists a bg',
    xy_to_angles 4 3 4 (-3) = Ok a /\
    xy 4 (-3) (1 / 10) (1 / 5) false (parked_plotter 4 3 None)
      = (Raise ZeroDivisionError, bg') /\
    session bg' <> session (parked_plotter 4 3 None).
Proof.
  destruct move_through_pivot as [a [bg' [A [E [S0 S1]]]]].
  exists a, bg'. split; [exact A |]. split; [exact E |].
  rewrite S0, S1. intros H. injection H as H _. lra.
Qed.

(** ** The short-circuit and the repeated move *)

(** The first half of C5 holds: when the target pulse-widths equal the
    reported ones, [xy] records the target as the position and sends no
    command; no event at all is added. *)
Lemma xy_short_circuit_quiet (x y wait interpolate : R) (draw : bool)
  (bg : BrachioGraph) (a1 a2 : R) :
  pen_virtual_mode (pen bg) = Some true -> virtual_mode bg = true ->
  xy_to_angles (INNER_ARM bg) (OUTER_ARM bg) x y = Ok (a1, a2) ->
  angles_to_pulse_widths bg a1 a2 = (virtual_pw_1 bg, virtual_pw_2 bg) ->
  exists bg', xy x y wait interpolate draw bg = (Ok tt, bg') /\
    current_x bg' = x /\ current_y bg' = y /\
    angle_1 bg' = angle_1 bg /\ angle_2 bg' = angle_2 bg /\
    events bg' = events bg /\ arm_commands bg' = arm_commands bg.
Proof.
  intros P V A E. unfold angles_to_pulse_widths in E. injection E as E1 E2.
  exists (positioned x y (pen_set draw bg)).
  split; [now apply (xy_short_circuit x y wait interpolate draw bg a1 a2) |].
  repeat split; reflexivity.
Qed.

(** C5, the defect: a virtual plotter with both arms 8 long is moved from
    its parked position to (0, 8) in one step, then told to move to (0, 8)
    again.  [set_pulse_widths] has stored [angles_to_pw_1] of the pulse-width,
    -11400, where the pulse-width 1200 was meant, so the second call does not
    see equal pulse-widths: it leaves the position and the angles as they
    are, and sends a second command to the servos. *)
Theorem repeated_move_commands_again :
  exists bg1 bg2,
    xy 0 8 (1 / 10) (1 / 8) false (parked_plotter 8 8 None) = (Ok tt, bg1) /\
    xy 0 8 (1 / 10) (1 / 8) false bg1 = (Ok tt, bg2) /\
    session bg1 = (0, 8, Some (-60), Some 120) /\
    session bg2 = session bg1 /\
    angles_to_pulse_widths bg1 (-60) 120 = (1200, 1800) /\
    (virtual_pw_1 bg1, virtual_pw_2 bg1) = (-11400, 18600) /\
    arm_commands bg1 = [VirtualPulseWidths (-11400) 18600] /\
    arm_commands bg2 = VirtualPulseWidths (-11400) 18600 :: arm_commands bg1.
Proof.
  set (bg0 := parked_plotter 8 8 None).
  assert (A0 : xy_to_angles (INNER_ARM bg0) (OUTER_ARM bg0) 0 8 = Ok (-60, 120))
    by exact angles_at_0_8.
  assert (P1 : angles_to_pw_1 bg0 (-60) = 1200)
    by (cbn; unfold naive_angles_to_pulse_widths_1; lra).
  assert (P2 : angles_to_pw_2 bg0 120 = 1800)
    by (cbn; unfold naive_angles_to_pulse_widths_2; lra).
  assert (Q1 : angles_to_pw_1 bg0 1200 = -11400)
    by (cbn; unfold naive_angles_to_pulse_widths_1; lra).
  assert (Q2 : angles_to_pw_2 bg0 1800 = 18600)
    by (cbn; unfold naive_angles_to_pulse_widths_2; lra).
  assert (V1 : virtual_pw_1 bg0 = 1500)
    by (cbn; unfold naive_angles_to_pulse_widths_1; lra).
  destruct (xy_one_step 0 8 (1 / 10) (1 / 8) false bg0 (-60) 120)
    as [bg1 [E1 [SM [X1 [Y1 [An1 [An2 [W1 [W2 C1]]]]]]]]];
    try reflexivity; try exact A0.
  { left. rewrite P1, V1. lra. }
  { change (current_x bg0) with (- (8)). change (current_y bg0) with 8.
    rewrite (sqrt_eq _ 8) by (try lra; ring).
    apply no_of_steps_exact; [lia | field]. }
  { rewrite P1. unfold in_band. lra. }
  { rewrite P2. unfold in_band. lra. }
  rewrite P1, Q1 in W1, C1. rewrite P2, Q2 in W2, C1.
  destruct SM as [SI [SO [SV [S1 [S2 SP]]]]].
  destruct (xy_one_step 0 8 (1 / 10) (1 / 8) false bg1 (-60) 120)
    as [bg2 [E2 [_ [X2 [Y2 [Bn1 [Bn2 [_ [_ C2]]]]]]]]].
  { rewrite SP. reflexivity. }
  { rewrite SV. reflexivity. }
  { rewrite SI, SO. exact A0. }
  { left. rewrite S1, P1, W1. lra. }
  { rewrite X1, Y1. rewrite (sqrt_eq _ 0) by (try lra; ring).
    apply no_of_steps_zero. ring. }
  { rewrite S1, P1. unfold in_band. lra. }
  { rewrite S2, P2. unfold in_band. lra. }
  rewrite S1, S2, P1, P2, Q1, Q2 in C2.
  exists bg1, bg2. split; [exact E1 |]. split; [exact E2 |].
  split; [unfold session; now rewrite X1, Y1, An1, An2 |].
  split; [unfold session; now rewrite X1, Y1, An1, An2, X2, Y2, Bn1, Bn2 |].
  split; [unfold angles_to_pulse_widths; now rewrite S1, S2, P1, P2 |].
  split; [now rewrite W1, W2 |].
  split; [rewrite C1; reflexivity | exact C2].
Qed.

(** * Shared point objects *)

Lemma for_each_app {S A : Type} (l1 l2 : list A) (body : A -> M S unit) (s : S) :
  for_each (l1 ++ l2) body s
  = bind (for_each l1 body) (fun _ => for_each l2 body) s.
Proof.
  revert s. induction l1 as [| a l1 IH]; intros s; cbn [app for_each].
  - reflexivity.
  - unfold bind. destruct (body a s) as [[[] | e] s1].
    + rewrite IH. reflexivity.
    + reflexivity.
Qed.

(** The nested loops of the fitting stage visit the points in the order of
    the flattened drawing. *)
Lemma for_each_concat {S A : Type} (ls : list (list A)) (body : A -> M S unit) (s : S) :
  for_each ls (fun l => for_each l body) s = for_each (concat ls) body s.
Proof.
  revert s. induction ls as [| l ls IH]; intros s; cbn [concat for_each].
  - reflexivity.
  - rewrite for_each_app. unfold bind.
    destruct (for_each l body s) as [[[] | e] s1]; [apply IH | reflexivity].
Qed.

Lemma iter_shift {A : Type} (f : A -> A) (n : nat) (x : A) :
  Nat.iter n f (f x) = f (Nat.iter n f x).
Proof. rewrite <- Nat.iter_succ_r. apply Nat.iter_succ. Qed.

(** A point object is fitted once for each time the loop meets it. *)
Lemma fit_points_count (f : Fit) (flip : bool) (l : list loc) :
  divider f <> 0 ->
  forall h, exists h',
    for_each l (fit_point f flip) h = (Ok tt, h') /\
    forall p, h' p = Nat.iter (count_occ Nat.eq_dec l p) (fitted f flip) (h p).
Proof.
  intros Hd. induction l as [| q l IH]; intros h.
  - exists h. split; reflexivity.
  - destruct (fit_point_spec f flip q h Hd) as [h1 [E1 [Hq Hoth]]].
    destruct (IH h1) as [h2 [E2 Hc]].
    exists h2. cbn [for_each]. unfold bind. rewrite E1. split; [exact E2 |].
    intros p. rewrite Hc. cbn [count_occ].
    destruct (Nat.eq_dec q p) as [-> | Hne].
    + rewrite Hq. rewrite Nat.iter_succ. apply iter_shift.
    + rewrite Hoth by congruence. reflexivity.
Qed.

Lemma fit_lines_count (f : Fit) (flip : bool) (lines : Drawing) (h : heap) :
  divider f <> 0 ->
  exists h', fit_lines f flip lines h = (Ok tt, h') /\
    forall p, h' p =
      Nat.iter (count_occ Nat.eq_dec (concat lines) p) (fitted f flip) (h p).
Proof.
  intros Hd. unfold fit_lines. rewrite for_each_concat. now apply fit_points_count.
Qed.

(** * The drawing after [plot_lines] *)

Lemma keeps_heap_ret {A : Type} (a : A) : keeps_heap (ret a).
Proof. intros w. reflexivity. Qed.

Lemma keeps_heap_lift {A : Type} (r : res A) : keeps_heap (lift r).
Proof. intros w. reflexivity. Qed.

Lemma keeps_heap_gets {A : Type} (f : World -> A) : keeps_heap (gets f).
Proof. intros w. reflexivity. Qed.

Lemma keeps_heap_on_bg {A : Type} (m : BG A) : keeps_heap (on_bg m).
Proof. intros w. unfold on_bg. destruct (m (fst w)). reflexivity. Qed.

Lemma keeps_heap_bind {A B : Type} (m : M World A) (f : A -> M World B) :
  keeps_heap m -> (forall a, keeps_heap (f a)) -> keeps_heap (bind m f).
Proof.
  intros Hm Hf w. unfold bind. specialize (Hm w).
  destruct (m w) as [[a | e] w1]; cbn [snd] in *.
  - rewrite Hf. exact Hm.
  - exact Hm.
Qed.

Lemma keeps_heap_for_each {A : Type} (l : list A) (body : A -> M World unit) :
  (forall a, keeps_heap (body a)) -> keeps_heap (for_each l body).
Proof.
  intros Hb. induction l as [| a l IH]; cbn [for_each].
  - apply keeps_heap_ret.
  - apply keeps_heap_bind; [apply Hb | intros _; exact IH].
Qed.

Lemma keeps_heap_read_point (p : loc) : keeps_heap (read_point p).
Proof. apply keeps_heap_gets. Qed.

(** The plotting loop reads the points and never writes them. *)
Lemma keeps_heap_plot_line (wait interpolate : R) (pre_start : bool) (line : list loc) :
  keeps_heap (plot_line wait interpolate pre_start line).
Proof.
  unfold plot_line. apply keeps_heap_bind.
  - destruct pre_start; [| apply keeps_heap_ret].
    apply keeps_heap_bind; [apply keeps_heap_lift | intros l0].
    apply keeps_heap_bind; [apply keeps_heap_read_point | intros start].
    apply keeps_heap_bind; [apply keeps_heap_lift | intros l1].
    apply keeps_heap_bind; [apply keeps_heap_read_point | intros end_].
    destruct (pre_start_position start end_). apply keeps_heap_on_bg.
  - intros _.
    apply keeps_heap_bind; [apply keeps_heap_lift | intros l0].
    apply keeps_heap_bind; [apply keeps_heap_read_point | intros [x y]].
    apply keeps_heap_bind; [apply keeps_heap_on_bg | intros _].
    apply keeps_heap_for_each. intros point.
    apply keeps_heap_bind; [apply keeps_heap_read_point | intros [x' y']].
    apply keeps_heap_on_bg.
Qed.

(** Lines 243 to 255 of [plot_lines], the part after the fitting. *)
Lemma keeps_heap_plotting (lines : Drawing) (wait interpolate : R) (pre_start : bool) :
  keeps_heap (bind (for_each lines (plot_line wait interpolate pre_start))
                (fun _ => bind (on_bg park) (fun _ => ret (@None string)))).
Proof.
  apply keeps_heap_bind.
  - apply keeps_heap_for_each. intros line. apply keeps_heap_plot_line.
  - intros _. apply keeps_heap_bind; [apply keeps_heap_on_bg |].
    intros _. apply keeps_heap_ret.
Qed.

(** With a zero divider the fitting loop raises at its first point. *)
Lemma fit_point_zero_raises (f : Fit) (flip : bool) (p : loc) (h : heap) :
  divider f = 0 -> fst (fit_point f flip p h) = Raise ZeroDivisionError.
Proof.
  intros Hd. unfold fit_point.
  destruct (rotate f);
    unfold bind, get_item_0, get_item_1, set_item_0, set_item_1, gets, modify,
           lift, ret; cbn; rewrite Hd, truediv_zero; reflexivity.
Qed.

Lemma fit_lines_zero_raises (f : Fit) (flip : bool) (lines : Drawing) (h : heap) :
  divider f = 0 -> lines <> [] -> Forall (fun line => line <> []) lines ->
  fst (fit_lines f flip lines h) = Raise ZeroDivisionError.
Proof.
  intros Hd Hne F.
  destruct lines as [| [| p line] rest]; [congruence | inversion F; congruence |].
  unfold fit_lines. cbn [for_each]. unfold bind at 1. unfold bind at 1.
  pose proof (fit_point_zero_raises f flip p h Hd) as Z.
  destruct (fit_point f flip p h) as [r h1]. cbn [fst] in Z. rewrite Z.
  reflexivity.
Qed.

(** What a call of [plot_lines] that gets past the fitting stage has done to
    the drawing, whether or not the plotting that follows succeeds. *)
Lemma plot_lines_heap (lines : Drawing) (wait interpolate : R)
  (pre_start rotate_arg flip : bool) (bounds_arg : option Bounds) (b : Bounds)
  (bg : BrachioGraph) (h : heap) (f : Fit) (h1 : heap) :
  match bounds_arg with Some b' => Some b' | None => bounds bg end = Some b ->
  line_fitter lines flip b h = (Ok f, h1) ->
  snd (snd (plot_lines lines wait interpolate pre_start rotate_arg flip bounds_arg
              (bg, h))) = h1.
Proof.
  intros Hb E. unfold plot_lines. unfold bind at 1. unfold gets at 1.
  cbn [fst snd]. rewrite Hb. unfold bind at 1. unfold on_heap. cbn [fst snd].
  rewrite E. apply (keeps_heap_plotting lines wait interpolate pre_start (bg, h1)).
Qed.

(** C9: a call of [plot_lines] that returns normally with bounds set has
    overwritten the caller's drawing in place.  Every point object holds its
    coordinates fitted once for each time the drawing references it, so a
    point outside the drawing is untouched, and in a drawing that references
    each point object once every point holds its fitted coordinates, swapped,
    scaled, shifted and negated as the fitting loop computes them. *)
Theorem plot_lines_mutates_drawing (lines : Drawing) (wait interpolate : R)
  (pre_start rotate_arg flip : bool) (bounds_arg : option Bounds)
  (bg bg' : BrachioGraph) (h h' : heap) :
  plot_lines lines wait interpolate pre_start rotate_arg flip bounds_arg (bg, h)
    = (Ok None, (bg', h')) ->
  exists b f,
    match bounds_arg with Some b' => Some b' | None => bounds bg end = Some b /\
    fit_parameters h lines b = Ok f /\
    (forall p, h' p =
       Nat.iter (count_occ Nat.eq_dec (concat lines) p) (fitted f flip) (h p)) /\
    (forall q, ~ In q (concat lines) -> h' q = h q) /\
    (NoDup (concat lines) ->
     forall p, In p (concat lines) -> h' p = fitted f flip (h p)).
Proof.
  intros E.
  destruct (match bounds_arg with Some b' => Some b' | None => bounds bg end)
    as [b |] eqn:Hb.
  2:{ unfold plot_lines in E. unfold bind at 1 in E. unfold gets at 1 in E.
      cbn [fst snd] in E. rewrite Hb in E. discriminate. }
  exists b.
  destruct (line_fitter lines flip b h) as [[f | e] h1] eqn:LF.
  2:{ unfold plot_lines in E. unfold bind at 1 in E. unfold gets at 1 in E.
      cbn [fst snd] in E. rewrite Hb in E. unfold bind at 1 in E.
      unfold on_heap in E. cbn [fst snd] in E. rewrite LF in E. discriminate. }
  pose proof (plot_lines_heap lines wait interpolate pre_start rotate_arg flip
                bounds_arg b bg h f h1 Hb LF) as Hh.
  rewrite E in Hh. cbn [snd] in Hh. subst h1.
  exists f. split; [reflexivity |].
  rewrite line_fitter_unfold in LF.
  destruct (fit_parameters h lines b) as [f0 | e0] eqn:FP; [| discriminate].
  assert (Hd : divider f0 <> 0).
  { intros Hd.
    assert (BB : exists box, bounding_box h lines = Ok box).
    { unfold fit_parameters in FP. destruct b as [[[b0 b1] b2] b3].
      destruct (bounding_box h lines) as [box |]; [eauto | discriminate]. }
    destruct BB as [[[[mx Mx] my] My] BB].
    destruct (bounding_box_inv _ _ _ _ _ _ BB) as [Hne [F _]].
    pose proof (fit_lines_zero_raises f0 flip lines h Hd Hne F) as Z.
    destruct (fit_lines f0 flip lines h) as [[[] | e1] h2]; cbn [fst] in Z;
      discriminate. }
  destruct (fit_lines_count f0 flip lines h Hd) as [h2 [E2 Hc]].
  rewrite E2 in LF. injection LF as <- <-.
  split; [reflexivity |]. split; [exact Hc |]. split.
  - intros q Hq. rewrite Hc.
    rewrite (proj1 (count_occ_not_In Nat.eq_dec _ _) Hq). reflexivity.
  - intros ND p Hp. rewrite Hc.
    rewrite (proj1 (NoDup_count_occ' Nat.eq_dec _) ND p Hp). reflexivity.
Qed.

(** ** A call of [plot_lines] that returns normally *)

(** Moving a plotter at rest to its parked position, or to the mirror image
    of it below the x axis, is the short-circuit: the angles are those of the
    parked position. *)
Lemma xy_at_rest (x y wait interpolate : R) (draw : bool) (bg : BrachioGraph) :
  at_rest bg -> x = - INNER_ARM bg -> y ^ 2 = OUTER_ARM bg ^ 2 ->
  xy x y wait interpolate draw bg = (Ok tt, positioned x y (pen_set draw bg)) /\
  at_rest (positioned x y (pen_set draw bg)).
Proof.
  intros [P [V [HI [HO [W1 W2]]]]] Hx Hy. split.
  - apply (xy_short_circuit x y wait interpolate draw bg (-90) 90);
      try assumption; try (symmetry; assumption).
    rewrite Hx. now apply parked_angles.
  - unfold at_rest. cbn. repeat split; assumption.
Qed.

Lemma park_at_rest (bg : BrachioGraph) :
  at_rest bg -> exists bg', park bg = (Ok tt, bg') /\ at_rest bg'.
Proof.
  intros R. pose proof R as [P [V [HI [HO [W1 W2]]]]].
  unfold park. unfold bind at 1. rewrite (pen_virtual false) by assumption.
  unfold bind at 1. unfold gets at 1. unfold bind at 1. unfold gets at 1.
  assert (R1 : at_rest (pen_set false bg))
    by (unfold at_rest; cbn; repeat split; assumption).
  destruct (xy_at_rest (- INNER_ARM (pen_set false bg)) (OUTER_ARM (pen_set false bg))
              default_wait default_interpolate false (pen_set false bg) R1
              eq_refl eq_refl) as [E R2].
  unfold bind at 1. rewrite E.
  unfold bind at 1. unfold sleep at 1. unfold modify at 1.
  unfold quiet, bind, gets. cbn [virtual_mode log positioned pen_set with_pen
                                 with_current_x with_current_y].
  rewrite V. eexists. split; [reflexivity |].
  destruct R2 as [A1 [A2 [A3 [A4 [A5 A6]]]]].
  unfold at_rest. cbn in *. repeat split; assumption.
Qed.

Lemma on_bg_run {A : Type} (m : BG A) (bg bg' : BrachioGraph) (h : heap) (r : res A) :
  m bg = (r, bg') -> on_bg m (bg, h) = (r, (bg', h)).
Proof. intros E. unfold on_bg. cbn [fst snd]. now rewrite E. Qed.

(** The vertical stroke from (0, 1) to (0, 0), fitted to the bounds
    (-16, -8, 0, 8) of a plotter with both arms 8 long: its ends are fitted to
    the parked position and to its mirror image. *)
Lemma stroke_fitted :
  exists f h1,
    line_fitter one_line false (-16, -8, 0, 8) (two_points (0, 1) (0, 0)) = (Ok f, h1) /\
    h1 0%nat = (- (8), 8) /\ h1 1%nat = (- (8), - (8)).
Proof.
  assert (B : bounding_box (two_points (0, 1) (0, 0)) one_line = Ok (0, 0, 0, 1)).
  { rewrite bounding_box_two. cbn [fst snd].
    rewrite (Rmin_left 0 0), (Rmax_left 0 0), (Rmin_right 1 0), (Rmax_left 1 0)
      by lra. reflexivity. }
  pose proof (fit_parameters_spec _ _ _ _ _ _ (-16) (-8) 0 8 B) as F.
  assert (S : same_orientation (0 - 0) (1 - 0) (0 - -16) (8 - -8) = true)
    by (apply same_orientation_true; lra).
  rewrite S in F.
  assert (D : Rmax ((0 - 0) / (0 - -16)) ((1 - 0) / (8 - -8)) = 1 / 16).
  { rewrite Rmax_right; [field | ]. lra. }
  rewrite D in F.
  destruct (line_fitter_two (0, 1) (0, 0) false _ _ (F ltac:(lra) ltac:(lra)))
    as [h1 [E [H0 H1]]]; [cbn; lra |].
  eexists. exists h1. split; [exact E |].
  rewrite H0, H1. unfold fitted. cbn. split; f_equal; field.
Qed.

Lemma plot_stroke :
  exists bg' h',
    plot_lines one_line (1 / 10) 10 false false false None
      (parked_plotter 8 8 (Some (-16, -8, 0, 8)), two_points (0, 1) (0, 0))
    = (Ok None, (bg', h')).
Proof.
  destruct stroke_fitted as [f [h1 [LF [H0 H1]]]].
  set (bg0 := parked_plotter 8 8 (Some (-16, -8, 0, 8))).
  assert (R0 : at_rest bg0).
  { unfold at_rest. cbn. repeat split; try reflexivity; lra. }
  assert (I0 : INNER_ARM bg0 = 8) by reflexivity.
  assert (O0 : OUTER_ARM bg0 = 8) by reflexivity.
  destruct (xy_at_rest (- (8)) 8 default_wait default_interpolate false bg0 R0)
    as [E1 R1]; [now rewrite I0 | now rewrite O0 |].
  set (bg1 := positioned (- (8)) 8 (pen_set false bg0)) in *.
  destruct (xy_at_rest (- (8)) (- (8)) (1 / 10) 10 true bg1 R1)
    as [E2 R2]; [reflexivity | change (OUTER_ARM bg1) with 8; ring |].
  set (bg2 := positioned (- (8)) (- (8)) (pen_set true bg1)) in *.
  destruct (park_at_rest bg2 R2) as [bg3 [E3 _]].
  exists bg3, h1.
  unfold plot_lines. unfold bind at 1. unfold gets at 1. cbn [fst snd].
  change (bounds bg0) with (Some (-16, -8, 0, 8)). cbv iota.
  unfold bind at 1. unfold on_heap. cbn [fst snd]. rewrite LF.
  unfold one_line. cbn [for_each].
  unfold bind at 1. unfold bind at 1.
  unfold plot_line. unfold bind at 1. unfold ret at 1.
  unfold bind at 1. unfold lift at 1. cbn [index nth_error].
  unfold bind at 1. unfold read_point at 1. unfold gets at 1. cbn [fst snd].
  rewrite H0.
  unfold bind at 1. rewrite (on_bg_run _ _ _ _ _ E1).
  cbn [tl for_each].
  unfold bind at 1. unfold bind at 1.
  unfold read_point at 1. unfold gets at 1. cbn [fst snd]. rewrite H1.
  rewrite (on_bg_run _ _ _ _ _ E2).
  unfold ret at 1. unfold ret at 1.
  unfold bind at 1. rewrite (on_bg_run _ _ _ _ _ E3).
  reflexivity.
Qed.

Lemma plot_lines_mutates_drawing_witness :
  exists b f bg' h',
    plot_lines one_line (1 / 10) 10 false false false None
      (parked_plotter 8 8 (Some (-16, -8, 0, 8)), two_points (0, 1) (0, 0))
    = (Ok None, (bg', h')) /\
    fit_parameters (two_points (0, 1) (0, 0)) one_line b = Ok f /\
    h' 0%nat = fitted f false (0, 1) /\ h' 1%nat = fitted f false (0, 0).
Proof.
  destruct plot_stroke as [bg' [h' E]].
  assert (ND : NoDup (concat one_line)).
  { cbn. repeat constructor; cbn; intuition discriminate. }
  destruct (plot_lines_mutates_drawing _ _ _ _ _ _ _ _ _ _ _ E)
    as [b [f [_ [FP [_ [_ Hin]]]]]].
  exists b, f, bg', h'. split; [exact E |]. split; [exact FP |].
  split; [apply (Hin ND 0%nat) | apply (Hin ND 1%nat)]; cbn; auto.
Defined.

(** * Further properties of the code *)

(** * Further properties of the kinematics *)

Lemma radians_degrees (a : R) : math.degrees (math.radians a) = a.
Proof. unfold math.radians, math.degrees. field. apply PI_neq0. Qed.

(** What a successful [xy_to_angles] has computed. *)
Lemma xy_to_angles_inv (INNER OUTER x y a1 a2 : R) :
  xy_to_angles INNER OUTER x y = Ok (a1, a2) ->
  exists q q1 q2,
    a1 = math.degrees (asin q - acos q1) /\ a2 = math.degrees (PI - acos q2).
Proof.
  unfold xy_to_angles. intros E.
  destruct (math.sqrt (x ^ 2 + y ^ 2)) as [h |]; cbn [rbind] in E; [| discriminate].
  destruct (truediv x h) as [q |]; cbn [rbind] in E; [| discriminate].
  unfold math.asin in E. destruct (math.in_unit q); cbn [rbind] in E; [| discriminate].
  destruct (truediv _ (2 * h * INNER)) as [q1 |]; cbn [rbind] in E; [| discriminate].
  unfold math.acos in E at 1.
  destruct (math.in_unit q1); cbn [rbind] in E; [| discriminate].
  destruct (truediv _ (2 * INNER * OUTER)) as [q2 |]; cbn [rbind] in E; [| discriminate].
  unfold math.acos in E. destruct (math.in_unit q2); cbn [rbind] in E; [| discriminate].
  injection E as <- <-. eauto.
Qed.

Lemma xy_to_angles_bounds (INNER OUTER x y a1 a2 : R) :
  xy_to_angles INNER OUTER x y = Ok (a1, a2) ->
  -270 <= a1 <= 90 /\ 0 <= a2 <= 180.
Proof.
  intros E. destruct (xy_to_angles_inv _ _ _ _ _ _ E) as [q [q1 [q2 [-> ->]]]].
  pose proof (asin_bound q) as A. pose proof (acos_bound q1) as B.
  pose proof (acos_bound q2) as C. pose proof PI_RGT_0 as P.
  unfold math.degrees.
  assert (K : 180 / PI * PI = 180) by (field; lra).
  assert (T : 0 < 180 / PI) by (apply Rdiv_lt_0_compat; lra).
  repeat split; nra.
Qed.

(** X1: the angles [xy_to_angles] can return: the shoulder between -270 and 90
    degrees, the elbow between 0 and 180 degrees. *)
Theorem angle_ranges (INNER OUTER x y a1 a2 : R) :
  xy_to_angles INNER OUTER x y = Ok (a1, a2) ->
  -270 <= a1 <= 90 /\ 0 <= a2 <= 180.
Proof. exact (xy_to_angles_bounds INNER OUTER x y a1 a2). Qed.

Lemma angle_ranges_witness : -270 <= -60 <= 90 /\ 0 <= 120 <= 180.
Proof. exact (angle_ranges 8 8 0 8 (-60) 120 angles_at_0_8). Defined.

(** X2: [xy_to_angles] reads its target through [x] and the distance only: a
    target and its mirror image in the x axis get the same angles, or the
    same exception. *)
Theorem xy_to_angles_mirror (INNER OUTER x y : R) :
  xy_to_angles INNER OUTER x (- y) = xy_to_angles INNER OUTER x y.
Proof.
  unfold xy_to_angles.
  replace (x ^ 2 + (- y) ^ 2) with (x ^ 2 + y ^ 2) by ring. reflexivity.
Qed.

Lemma cos_PI_minus (r : R) : cos (PI - r) = - cos r.
Proof. rewrite cos_minus, cos_PI, sin_PI. ring. Qed.

(** X3: the position [angles_to_xy] returns is at the distance the law of
    cosines gives for the elbow angle, so inside the closed annulus. *)
Theorem angles_to_xy_distance (INNER OUTER s e x y : R) :
  0 <= INNER -> 0 <= OUTER ->
  angles_to_xy INNER OUTER s e = Ok (x, y) ->
  x ^ 2 + y ^ 2 = INNER ^ 2 + OUTER ^ 2 + 2 * INNER * OUTER * cos (math.radians e) /\
  (INNER - OUTER) ^ 2 <= x ^ 2 + y ^ 2 <= (INNER + OUTER) ^ 2.
Proof.
  intros HI HO. unfold angles_to_xy. cbv zeta. rewrite cos_PI_minus. intros E.
  unfold math.sqrt in E.
  set (A := INNER ^ 2 + OUTER ^ 2 - 2 * INNER * OUTER * - cos (math.radians e)) in *.
  destruct (Rle_dec 0 A) as [Hpos |]; cbn [rbind] in E; [| discriminate].
  pose proof (pow2_sqrt A Hpos) as Sq.
  set (h := sqrt A) in *.
  destruct (truediv _ _) as [q |]; cbn [rbind] in E; [| discriminate].
  destruct (math.acos q) as [b |]; cbn [rbind] in E; [| discriminate].
  set (t := b + math.radians s) in *.
  injection E as <- <-.
  pose proof (sin2_cos2 t) as SC. unfold Rsqr in SC.
  assert (D : (sin t * h) ^ 2 + (cos t * h) ^ 2 = A).
  { replace ((sin t * h) ^ 2 + (cos t * h) ^ 2)
      with ((sin t * sin t + cos t * cos t) * h ^ 2) by ring.
    rewrite SC, Sq. ring. }
  rewrite D. unfold A.
  pose proof (COS_bound (math.radians e)) as [C1 C2].
  assert (IO : 0 <= INNER * OUTER) by (apply Rmult_le_pos; assumption).
  assert (M1 : 0 <= INNER * OUTER * (1 + cos (math.radians e)))
    by (apply Rmult_le_pos; lra).
  assert (M2 : 0 <= INNER * OUTER * (1 - cos (math.radians e)))
    by (apply Rmult_le_pos; lra).
  split; [ring |]. split; nra.
Qed.

(** X4: the round trip from angles: for an elbow angle strictly between 0 and
    180 degrees and a shoulder angle that keeps the angle of the target,
    measured from the y axis, within 90 degrees either side,
    [xy_to_angles] of [angles_to_xy] returns the angles. *)
Theorem angles_round_trip (INNER OUTER s e : R) :
  0 < INNER -> 0 < OUTER -> 0 < e < 180 ->
  - (PI / 2) <= acos (inner_cos INNER OUTER (forward_reach INNER OUTER e))
                + math.radians s <= PI / 2 ->
  rbind (angles_to_xy INNER OUTER s e)
        (fun p => xy_to_angles INNER OUTER (fst p) (snd p))
  = Ok (s, e).
Proof.
  intros HI HO He Hs. pose proof PI_RGT_0 as P.
  set (er := math.radians e) in *.
  assert (Er : 0 < PI - er < PI).
  { unfold er, math.radians.
    assert (K : e * (PI / 180) = e / 180 * PI) by field. rewrite K.
    assert (0 < e / 180 < 1) by lra.
    nra. }
  set (c := cos (PI - er)).
  assert (Hc : -1 < c < 1).
  { unfold c. split.
    - rewrite <- cos_PI. apply cos_decreasing_1; lra.
    - rewrite <- cos_0. apply cos_decreasing_1; lra. }
  unfold forward_reach in Hs. fold er in Hs. fold c in Hs.
  set (A := INNER ^ 2 + OUTER ^ 2 - 2 * INNER * OUTER * c) in *.
  assert (IO : 0 < INNER * OUTER) by (apply Rmult_lt_0_compat; assumption).
  assert (M1 : 0 < INNER * OUTER * (1 + c)) by (apply Rmult_lt_0_compat; lra).
  assert (M2 : 0 < INNER * OUTER * (1 - c)) by (apply Rmult_lt_0_compat; lra).
  assert (A1 : A = (INNER - OUTER) ^ 2 + 2 * (INNER * OUTER * (1 - c)))
    by (unfold A; ring).
  assert (A2 : A = (INNER + OUTER) ^ 2 - 2 * (INNER * OUTER * (1 + c)))
    by (unfold A; ring).
  pose proof (pow2_ge_0 (INNER - OUTER)) as Q1.
  assert (HA : 0 <= A) by lra.
  set (h := sqrt A) in *.
  pose proof (pow2_sqrt A HA) as Sq. fold h in Sq.
  pose proof (sqrt_pos A) as Hh0. fold h in Hh0.
  assert (Lo : Rabs (INNER - OUTER) < h).
  { unfold Rabs. destruct (Rcase_abs (INNER - OUTER)); nra. }
  assert (Hi : h < INNER + OUTER) by nra.
  assert (Hh : 0 < h) by (pose proof (Rabs_pos (INNER - OUTER)); lra).
  pose proof (inner_cos_inside INNER OUTER h Lo Hi) as Hic.
  unfold angles_to_xy. cbv zeta. fold er. fold c. fold A.
  rewrite math_sqrt_ok by assumption. cbn [rbind]. fold h.
  rewrite truediv_ok by nra. cbn [rbind].
  fold (inner_cos INNER OUTER h).
  rewrite math_acos_ok by lra. cbn [rbind fst snd].
  set (t := acos (inner_cos INNER OUTER h) + math.radians s) in *.
  assert (Rch : reach (sin t * h) (cos t * h) = h).
  { apply reach_eq; [lra |].
    pose proof (sin2_cos2 t) as SC. unfold Rsqr in SC.
    replace ((sin t * h) ^ 2 + (cos t * h) ^ 2)
      with ((sin t * sin t + cos t * cos t) * h ^ 2) by ring.
    rewrite SC. ring. }
  rewrite xy_to_angles_inside; rewrite ?Rch; try assumption.
  replace (sin t * h / h) with (sin t) by (field; lra).
  rewrite asin_sin by exact Hs.
  assert (Oc : outer_cos INNER OUTER h = c).
  { unfold outer_cos. rewrite Sq. unfold A. field. lra. }
  rewrite Oc. unfold c. rewrite acos_cos by lra.
  replace (t - acos (inner_cos INNER OUTER h)) with (math.radians s)
    by (unfold t; ring).
  replace (PI - (PI - er)) with er by ring.
  unfold er. rewrite !radians_degrees. reflexivity.
Qed.

Lemma angles_round_trip_witness :
  rbind (angles_to_xy 8 8 (-90) 90)
        (fun p => xy_to_angles 8 8 (fst p) (snd p))
  = Ok (-90, 90).
Proof.
  apply angles_round_trip; try lra.
  pose proof (acos_bound (inner_cos 8 8 (forward_reach 8 8 90))) as B.
  unfold math.radians. pose proof PI_RGT_0. split.
  - replace (-90 * (PI / 180)) with (- (PI / 2)) by field. lra.
  - replace (-90 * (PI / 180)) with (- (PI / 2)) by field. lra.
Defined.

Lemma angles_to_xy_at_0_8 : angles_to_xy 8 8 (-60) 120 = Ok (0, Rabs 8).
Proof.
  assert (E : reach 0 8 = 8) by (apply reach_eq; lra).
  pose proof (round_trip_abs 8 8 ltac:(lra) ltac:(lra) 0 8) as T.
  rewrite E, angles_at_0_8 in T. cbn [rbind fst snd] in T. apply T.
  - replace (8 - 8) with 0 by ring. rewrite Rabs_R0. lra.
  - lra.
Qed.

Lemma angles_to_xy_distance_witness :
  0 ^ 2 + Rabs 8 ^ 2 = 8 ^ 2 + 8 ^ 2 + 2 * 8 * 8 * cos (math.radians 120) /\
  (8 - 8) ^ 2 <= 0 ^ 2 + Rabs 8 ^ 2 <= (8 + 8) ^ 2.
Proof.
  apply (angles_to_xy_distance 8 8 (-60) 120 0 (Rabs 8)); try lra.
  exact angles_to_xy_at_0_8.
Defined.

(** * Further properties of the LineFitter stage *)

(** What a fitting stage that succeeded has gone through. *)
Lemma line_fitter_ok_inv (lines : Drawing) (flip : bool) (b : Bounds)
  (h h' : heap) (f : Fit) :
  line_fitter lines flip b h = (Ok f, h') ->
  fit_parameters h lines b = Ok f /\ divider f <> 0 /\
  fit_lines f flip lines h = (Ok tt, h').
Proof.
  intros LF. rewrite line_fitter_unfold in LF.
  destruct (fit_parameters h lines b) as [f0 | e0] eqn:FP; [| discriminate].
  assert (Hd : divider f0 <> 0).
  { intros Hd.
    assert (BB : exists box, bounding_box h lines = Ok box).
    { unfold fit_parameters in FP. destruct b as [[[b0 b1] b2] b3].
      destruct (bounding_box h lines) as [box |]; [eauto | discriminate]. }
    destruct BB as [[[[mx Mx] my] My] BB].
    destruct (bounding_box_inv _ _ _ _ _ _ BB) as [Hne [F _]].
    pose proof (fit_lines_zero_raises f0 flip lines h Hd Hne F) as Z.
    destruct (fit_lines f0 flip lines h) as [[[] | e1] h2]; cbn [fst] in Z;
      discriminate. }
  destruct (fit_lines f0 flip lines h) as [[[] | e1] h2] eqn:FL; [| discriminate].
  injection LF as <- <-. auto.
Qed.

Lemma line_fitter_total (h : heap) (lines : Drawing) (min_x max_x min_y max_y : R)
  (b : Bounds) (flip : bool) :
  bounding_box h lines = Ok (min_x, max_x, min_y, max_y) ->
  proper_bounds b -> min_x < max_x \/ min_y < max_y ->
  exists f h', line_fitter lines flip b h = (Ok f, h').
Proof.
  intros E PB Hext.
  destruct (divider_pos _ _ _ _ _ _ b E PB Hext) as [f [EF Hd]].
  assert (Hd' : divider f <> 0) by lra.
  destruct (fit_lines_total f flip lines Hd' h) as [h' E'].
  exists f, h'. rewrite line_fitter_unfold, EF, E'. reflexivity.
Qed.

(** The fit of a point is a similarity: whatever the flip and the rotation,
    squared distances are divided by the square of the divider. *)
Lemma fitted_distance (f : Fit) (flip : bool) (p q : R * R) :
  divider f <> 0 ->
  distance2 (fitted f flip p) (fitted f flip q) * divider f ^ 2 = distance2 p q.
Proof.
  intros Hd. unfold distance2, fitted.
  destruct (rotate f), flip; cbn [xorb fst snd]; field; assumption.
Qed.

(** X6: uniform scale: after the fitting stage, for a drawing whose point
    objects are all distinct, the squared distance between any two of its
    points is the original one divided by the square of the divider; the
    drawing is not distorted. *)
Theorem line_fitter_uniform_scale (lines : Drawing) (flip : bool) (b : Bounds)
  (h h' : heap) (f : Fit) (p q : loc) :
  line_fitter lines flip b h = (Ok f, h') ->
  NoDup (concat lines) -> In p (concat lines) -> In q (concat lines) ->
  divider f <> 0 /\
  distance2 (h' p) (h' q) * divider f ^ 2 = distance2 (h p) (h q).
Proof.
  intros LF ND Hp Hq.
  destruct (line_fitter_ok_inv _ _ _ _ _ _ LF) as [FP [Hd FL]].
  destruct (fit_lines_spec f flip lines Hd ND h) as [h2 [E2 [Hin _]]].
  rewrite FL in E2. injection E2 as <-.
  split; [exact Hd |]. rewrite (Hin p Hp), (Hin q Hq).
  now apply fitted_distance.
Qed.

Lemma line_fitter_uniform_scale_witness :
  exists f h',
    line_fitter one_line true (1, 1, 5, 3) (two_points (0, 0) (2, 1)) = (Ok f, h') /\
    divider f <> 0 /\
    distance2 (h' 0%nat) (h' 1%nat) * divider f ^ 2
      = distance2 (two_points (0, 0) (2, 1) 0%nat) (two_points (0, 0) (2, 1) 1%nat).
Proof.
  assert (B : bounding_box (two_points (0, 0) (2, 1)) one_line = Ok (0, 2, 0, 1))
    by (apply bounding_box_increasing; lra).
  assert (PB : proper_bounds (1, 1, 5, 3)) by (cbn; lra).
  destruct (line_fitter_total _ _ _ _ _ _ (1, 1, 5, 3) true B PB) as [f [h' LF]];
    [left; lra |].
  assert (ND : NoDup (concat one_line)).
  { cbn. repeat constructor; cbn; intuition discriminate. }
  exists f, h'. split; [exact LF |].
  apply (line_fitter_uniform_scale one_line true (1, 1, 5, 3) _ h' f 0%nat 1%nat LF ND);
    cbn; auto.
Defined.

(** X7: the scale is the largest that fits: divided by the divider, the drawing
    (turned, when rotating) is no larger than the box on either axis and
    exactly as large on one of them. *)
Theorem divider_fills_box (h : heap) (lines : Drawing)
  (min_x max_x min_y max_y b0 b1 b2 b3 : R) (f : Fit) :
  bounding_box h lines = Ok (min_x, max_x, min_y, max_y) ->
  min_x < max_x -> min_y < max_y -> proper_bounds (b0, b1, b2, b3) ->
  fit_parameters h lines (b0, b1, b2, b3) = Ok f ->
  let width := if rotate f then max_y - min_y else max_x - min_x in
  let height := if rotate f then max_x - min_x else max_y - min_y in
  0 < divider f /\
  width / divider f <= b2 - b0 /\ height / divider f <= b3 - b1 /\
  (width / divider f = b2 - b0 \/ height / divider f = b3 - b1).
Proof.
  intros E Hx Hy PB EF. cbn in PB. destruct PB as [Hbx Hby].
  rewrite (fit_parameters_spec _ _ _ _ _ _ _ _ _ _ E) in EF by lra.
  injection EF as <-.
  assert (G : forall w hh bw bh, 0 < w -> 0 < hh -> 0 < bw -> 0 < bh ->
            let d := Rmax (w / bw) (hh / bh) in
            0 < d /\ w / d <= bw /\ hh / d <= bh /\ (w / d = bw \/ hh / d = bh)).
  { intros w hh bw bh Hw Hh Hbw Hbh d.
    assert (Pw : 0 < w / bw) by (apply Rdiv_lt_0_compat; assumption).
    assert (Ph : 0 < hh / bh) by (apply Rdiv_lt_0_compat; assumption).
    assert (Hd : 0 < d) by (unfold d; apply Rmax_pos_l; exact Pw).
    assert (L1 : w / bw <= d) by apply Rmax_l.
    assert (L2 : hh / bh <= d) by apply Rmax_r.
    assert (W : w = w / bw * bw) by (field; lra).
    assert (H : hh = hh / bh * bh) by (field; lra).
    assert (Wd : w = w / d * d) by (field; lra).
    assert (Hhd : hh = hh / d * d) by (field; lra).
    split; [exact Hd |]. split; [nra |]. split; [nra |].
    unfold d, Rmax in *. destruct (Rle_dec (w / bw) (hh / bh)).
    - right. field_simplify_eq; lra.
    - left. field_simplify_eq; lra. }
  destruct (same_orientation _ _ _ _); cbn [rotate divider]; cbv zeta.
  - apply G; lra.
  - destruct (G (max_x - min_x) (max_y - min_y) (b3 - b1) (b2 - b0))
      as [D [A [B C]]]; lra.
Qed.

Lemma divider_fills_box_witness :
  exists f,
    fit_parameters (two_points (0, 0) (2, 1)) one_line (1, 1, 5, 3) = Ok f /\
    0 < divider f /\
    (if rotate f then 1 - 0 else 2 - 0) / divider f <= 5 - 1 /\
    (if rotate f then 2 - 0 else 1 - 0) / divider f <= 3 - 1 /\
    ((if rotate f then 1 - 0 else 2 - 0) / divider f = 5 - 1 \/
     (if rotate f then 2 - 0 else 1 - 0) / divider f = 3 - 1).
Proof.
  assert (B : bounding_box (two_points (0, 0) (2, 1)) one_line = Ok (0, 2, 0, 1))
    by (apply bounding_box_increasing; lra).
  assert (PB : proper_bounds (1, 1, 5, 3)) by (cbn; lra).
  destruct (divider_pos _ _ _ _ _ _ (1, 1, 5, 3) B PB) as [f [EF _]]; [left; lra |].
  exists f. split; [exact EF |].
  apply (divider_fills_box _ _ _ _ _ _ _ _ _ _ f B); try lra; assumption.
Defined.

(** X8: the fit is centred: a point object that holds the middle of the
    drawing's bounding box is fitted to the middle of the bounds, or to its
    mirror image in the y axis when [x] is negated. *)
Theorem middle_to_middle (h : heap) (lines : Drawing)
  (min_x max_x min_y max_y b0 b1 b2 b3 : R) (f : Fit) (flip : bool)
  (p : loc) (h0 : heap) :
  bounding_box h lines = Ok (min_x, max_x, min_y, max_y) ->
  proper_bounds (b0, b1, b2, b3) ->
  fit_parameters h lines (b0, b1, b2, b3) = Ok f ->
  divider f <> 0 ->
  h0 p = ((max_x + min_x) / 2, (max_y + min_y) / 2) ->
  exists h1, fit_point f flip p h0 = (Ok tt, h1) /\
    h1 p = (if xorb flip (rotate f) then - ((b0 + b2) / 2) else (b0 + b2) / 2,
            (b1 + b3) / 2).
Proof.
  intros E PB EF Hd Hp. cbn in PB. destruct PB as [Hbx Hby].
  destruct (fit_point_spec f flip p h0 Hd) as [h1 [E1 [V _]]].
  exists h1. split; [exact E1 |]. rewrite V, Hp.
  rewrite (fit_parameters_spec _ _ _ _ _ _ _ _ _ _ E) in EF by lra.
  injection EF as <-.
  destruct (same_orientation _ _ _ _); unfold fitted;
    cbn [rotate divider x_mid_point y_mid_point box_x_mid_point box_y_mid_point
         fst snd];
    destruct flip; cbn [xorb]; f_equal; unfold Rdiv; ring.
Qed.

Lemma middle_to_middle_witness :
  exists f h1,
    fit_parameters (two_points (0, 0) (2, 1)) one_line (1, 1, 5, 3) = Ok f /\
    fit_point f true 7%nat (fun _ => ((2 + 0) / 2, (1 + 0) / 2)) = (Ok tt, h1) /\
    h1 7%nat = (if xorb true (rotate f) then - ((1 + 5) / 2) else (1 + 5) / 2,
                (1 + 3) / 2).
Proof.
  assert (B : bounding_box (two_points (0, 0) (2, 1)) one_line = Ok (0, 2, 0, 1))
    by (apply bounding_box_increasing; lra).
  assert (PB : proper_bounds (1, 1, 5, 3)) by (cbn; lra).
  destruct (divider_pos _ _ _ _ _ _ (1, 1, 5, 3) B PB) as [f [EF Hd]]; [left; lra |].
  destruct (middle_to_middle _ _ _ _ _ _ _ _ _ _ f true 7%nat
              (fun _ => ((2 + 0) / 2, (1 + 0) / 2)) B PB EF)
    as [h1 [E1 V]]; [lra | reflexivity |].
  exists f, h1. auto.
Defined.

(** ** Malformed drawings *)

Lemma values_in_lines_empty_line (h : heap) (lines : Drawing) :
  In [] lines ->
  forall xs ys, values_in_lines h lines xs ys = Raise ValueError.
Proof.
  induction lines as [| line rest IH]; intros Hin xs ys; [contradiction |].
  cbn [values_in_lines]. destruct line as [| p line].
  - reflexivity.
  - cbn [zip_star rbind]. apply IH.
    destruct Hin as [H | H]; [discriminate | exact H].
Qed.

(** X10: a drawing with an empty line is refused before anything is written or
    moved: [plot_lines] raises [ValueError] from the unpacking of the line's
    coordinates. *)
Theorem plot_lines_empty_line (lines : Drawing) (wait interpolate : R)
  (pre_start rotate_arg flip : bool) (bounds_arg : option Bounds) (b : Bounds)
  (bg : BrachioGraph) (h : heap) :
  match bounds_arg with Some b' => Some b' | None => bounds bg end = Some b ->
  In [] lines ->
  plot_lines lines wait interpolate pre_start rotate_arg flip bounds_arg (bg, h)
  = (Raise ValueError, (bg, h)).
Proof.
  intros Hb Hin. unfold plot_lines. unfold bind at 1. unfold gets at 1.
  cbn [fst snd]. rewrite Hb. unfold bind at 1. unfold on_heap. cbn [fst snd].
  rewrite line_fitter_unfold.
  assert (FP : fit_parameters h lines b = Raise ValueError).
  { unfold fit_parameters, bounding_box. destruct b as [[[b0 b1] b2] b3].
    rewrite values_in_lines_empty_line by assumption. reflexivity. }
  rewrite FP. reflexivity.
Qed.

Lemma plot_lines_empty_line_witness :
  plot_lines [[0%nat; 1%nat]; []] (1 / 10) 10 false false false None
    (parked_plotter 8 8 (Some (-8, 4, 6, 13)), two_points (0, 0) (2, 1))
  = (Raise ValueError,
     (parked_plotter 8 8 (Some (-8, 4, 6, 13)), two_points (0, 0) (2, 1))).
Proof.
  apply (plot_lines_empty_line _ _ _ _ _ _ _ (-8, 4, 6, 13)); [reflexivity |].
  cbn. auto.
Defined.

(** X11: with [pre_start] set, a first line of a single point makes [plot_lines]
    raise [IndexError] when it looks for the line's second point.  The
    plotter has not moved, but the fitting has been done: the caller's
    drawing is already rescaled. *)
Theorem plot_lines_pre_start_single_point (lines rest : Drawing) (p : loc)
  (wait interpolate : R) (rotate_arg flip : bool) (bounds_arg : option Bounds)
  (b : Bounds) (bg : BrachioGraph) (h h1 : heap) (f : Fit) :
  match bounds_arg with Some b' => Some b' | None => bounds bg end = Some b ->
  lines = [p] :: rest ->
  line_fitter lines flip b h = (Ok f, h1) ->
  plot_lines lines wait interpolate true rotate_arg flip bounds_arg (bg, h)
  = (Raise IndexError, (bg, h1)).
Proof.
  intros Hb -> LF. unfold plot_lines. unfold bind at 1. unfold gets at 1.
  cbn [fst snd]. rewrite Hb. unfold bind at 1. unfold on_heap. cbn [fst snd].
  rewrite LF. reflexivity.
Qed.

Lemma plot_lines_pre_start_single_point_witness :
  exists f h1,
    line_fitter two_dots false (-8, 4, 6, 13) (two_points (0, 0) (2, 1)) = (Ok f, h1) /\
    plot_lines two_dots (1 / 10) 10 true false false None
      (parked_plotter 8 8 (Some (-8, 4, 6, 13)), two_points (0, 0) (2, 1))
    = (Raise IndexError, (parked_plotter 8 8 (Some (-8, 4, 6, 13)), h1)).
Proof.
  assert (B : bounding_box (two_points (0, 0) (2, 1)) two_dots = Ok (0, 2, 0, 1)).
  { unfold bounding_box, two_dots. cbn [values_in_lines zip_star rbind app map
      two_points fst snd py_min py_max fold_left].
    rewrite !Rmin_left, !Rmax_right by lra. reflexivity. }
  assert (PB : proper_bounds (-8, 4, 6, 13)) by (cbn; lra).
  destruct (line_fitter_total _ _ _ _ _ _ (-8, 4, 6, 13) false B PB) as [f [h1 LF]];
    [left; lra |].
  exists f, h1. split; [exact LF |].
  apply (plot_lines_pre_start_single_point two_dots [[1%nat]] 0%nat _ _ _ _ _
           (-8, 4, 6, 13) _ _ h1 f); [reflexivity | reflexivity | exact LF].
Defined.

(** ** No bounds *)

(** X12: without bounds, neither as an argument nor on the plotter, [plot_lines],
    [box] and [centre] return their message instead of raising, and leave
    the plotter and the drawing exactly as they were. *)
Theorem no_bounds_no_effect (bg : BrachioGraph) (h : heap) (lines : Drawing)
  (wait interpolate : R) (pre_start rotate_arg flip reverse : bool) (repeat : Z) :
  bounds bg = None ->
  (exists msg,
     plot_lines lines wait interpolate pre_start rotate_arg flip None (bg, h)
     = (Ok (Some msg), (bg, h))) /\
  (exists msg, box None wait interpolate repeat reverse bg = (Ok (Some msg), bg)) /\
  (exists msg, centre bg = (Ok (Some msg), bg)).
Proof.
  intros Hb. repeat split.
  - unfold plot_lines, bind, gets. cbn [fst snd]. rewrite Hb.
    eexists. destruct bg. reflexivity.
  - unfold box, bind, gets. rewrite Hb. eexists. reflexivity.
  - unfold centre, bind, gets. rewrite Hb. eexists. reflexivity.
Qed.

Lemma no_bounds_no_effect_witness :
  (exists msg,
     plot_lines one_line (1 / 10) 10 false false false None
       (parked_plotter 8 8 None, two_points (0, 0) (2, 1))
     = (Ok (Some msg), (parked_plotter 8 8 None, two_points (0, 0) (2, 1)))) /\
  (exists msg, box None (1 / 10) 10 1 false (parked_plotter 8 8 None)
               = (Ok (Some msg), parked_plotter 8 8 None)) /\
  (exists msg, centre (parked_plotter 8 8 None) = (Ok (Some msg), parked_plotter 8 8 None)).
Proof.
  apply (no_bounds_no_effect (parked_plotter 8 8 None)). reflexivity.
Defined.

(** * What the methods leave alone *)

Lemma keeps_bind {A B C : Type} (f : BrachioGraph -> C) (m : BG A) (k : A -> BG B) :
  keeps f m -> (forall a, keeps f (k a)) -> keeps f (bind m k).
Proof.
  intros Hm Hk bg. unfold bind. specialize (Hm bg).
  destruct (m bg) as [[a | e] bg1]; cbn [snd] in *.
  - rewrite Hk. exact Hm.
  - exact Hm.
Qed.

Lemma keeps_for_each {A C : Type} (f : BrachioGraph -> C) (l : list A)
  (body : A -> BG unit) :
  (forall a, keeps f (body a)) -> keeps f (for_each l body).
Proof.
  intros Hb. induction l as [| a l IH]; cbn [for_each].
  - intros bg. reflexivity.
  - apply keeps_bind; [apply Hb | intros _; exact IH].
Qed.

Create HintDb keeps.

(** Walks through a method: sequencing, loops and branches by the lemmas
    above, methods already treated by the hints, single assignments by
    computation. *)
Ltac keeps_walk :=
  repeat first
    [ solve [auto with keeps nocore]
    | apply keeps_bind; [| intros ?]
    | apply keeps_for_each; intros ?
    | solve [intros ?; reflexivity]
    | match goal with
      | |- context [match ?x with _ => _ end] => destruct x
      end ].

Lemma keeps_sleep {C : Type} (f : BrachioGraph -> C) (t : R) :
  (forall e bg, f (log e bg) = f bg) -> keeps f (sleep t).
Proof. intros H bg. apply H. Qed.

(** ** The machine *)

Lemma machine_pen_down : keeps machine PenM.down.
Proof.
  intros bg. unfold PenM.down, bind, gets.
  destruct (pen_virtual_mode (pen bg)) as [[|] |]; reflexivity.
Qed.

Lemma machine_pen_up : keeps machine PenM.up.
Proof.
  intros bg. unfold PenM.up, bind, gets.
  destruct (pen_virtual_mode (pen bg)) as [[|] |]; reflexivity.
Qed.

#[local] Hint Resolve machine_pen_down machine_pen_up : keeps.

Lemma machine_set_pulse_widths (pw_1 pw_2 : R) : keeps machine (set_pulse_widths pw_1 pw_2).
Proof. unfold set_pulse_widths. keeps_walk. Qed.

#[local] Hint Resolve machine_set_pulse_widths : keeps.

Lemma machine_get_pulse_widths : keeps machine get_pulse_widths.
Proof. unfold get_pulse_widths. keeps_walk. Qed.

Lemma machine_quiet (servos : list Z) : keeps machine (quiet servos).
Proof. unfold quiet. keeps_walk. Qed.

#[local] Hint Resolve machine_get_pulse_widths machine_quiet : keeps.

Lemma machine_set_angles (a1 a2 : R) : keeps machine (set_angles a1 a2).
Proof. unfold set_angles. keeps_walk. Qed.

#[local] Hint Resolve machine_set_angles : keeps.

Lemma machine_xy_step (length wait : R) (n : Z) (lsx lsy : R) (step : Z) :
  keeps machine (xy_step length wait n lsx lsy step).
Proof. unfold xy_step. keeps_walk. Qed.

#[local] Hint Resolve machine_xy_step : keeps.

Lemma machine_xy_interpolate (x y wait interpolate : R) :
  keeps machine (xy_interpolate x y wait interpolate).
Proof. unfold xy_interpolate. keeps_walk. Qed.

#[local] Hint Resolve machine_xy_interpolate : keeps.

Lemma machine_xy (x y wait interpolate : R) (draw : bool) :
  keeps machine (xy x y wait interpolate draw).
Proof. unfold xy. keeps_walk. Qed.

#[local] Hint Resolve machine_xy : keeps.

Lemma machine_park : keeps machine park.
Proof. unfold park. keeps_walk. Qed.

#[local] Hint Resolve machine_park : keeps.

Lemma machine_draw_line (start end_ : R * R) (wait interpolate : R) (pre_start : bool) :
  keeps machine (draw_line start end_ wait interpolate pre_start).
Proof.
  unfold draw_line. destruct start, end_. destruct (pre_start_position _ _).
  keeps_walk.
Qed.

Lemma machine_box (bounds_arg : option Bounds) (wait interpolate : R) (repeat : Z)
  (reverse : bool) :
  keeps machine (box bounds_arg wait interpolate repeat reverse).
Proof.
  unfold box, draw. apply keeps_bind; [keeps_walk | intros self_bounds].
  destruct (match bounds_arg with Some b => Some b | None => self_bounds end)
    as [[[[b0 b1] b2] b3] |]; keeps_walk.
Qed.

Lemma machine_centre : keeps machine centre.
Proof.
  unfold centre. apply keeps_bind; [keeps_walk | intros [[[[b0 b1] b2] b3] |]];
    keeps_walk.
Qed.

(** X14: no method that moves the pen changes the geometry, the mode, the
    bounds, the calibration or the mode of the pen, whether it returns or
    raises. *)
Theorem methods_keep_machine :
  (forall x y wait interpolate draw, keeps machine (xy x y wait interpolate draw)) /\
  keeps machine park /\
  (forall start end_ wait interpolate pre_start,
     keeps machine (draw_line start end_ wait interpolate pre_start)) /\
  (forall bounds_arg wait interpolate repeat reverse,
     keeps machine (box bounds_arg wait interpolate repeat reverse)) /\
  keeps machine centre.
Proof.
  repeat split.
  - apply machine_xy.
  - apply machine_park.
  - apply machine_draw_line.
  - apply machine_box.
  - apply machine_centre.
Qed.

(** ** The pen and the position *)

Lemma position_pen_down : keeps position PenM.down.
Proof.
  intros bg. unfold PenM.down, bind, gets.
  destruct (pen_virtual_mode (pen bg)) as [[|] |]; reflexivity.
Qed.

Lemma position_pen_up : keeps position PenM.up.
Proof.
  intros bg. unfold PenM.up, bind, gets.
  destruct (pen_virtual_mode (pen bg)) as [[|] |]; reflexivity.
Qed.

Lemma position_quiet (servos : list Z) : keeps position (quiet servos).
Proof. unfold quiet. keeps_walk. Qed.

Lemma pen_set_pulse_widths (pw_1 pw_2 : R) : keeps pen (set_pulse_widths pw_1 pw_2).
Proof. unfold set_pulse_widths. keeps_walk. Qed.

Lemma pen_get_pulse_widths : keeps pen get_pulse_widths.
Proof. unfold get_pulse_widths. keeps_walk. Qed.


Lemma pen_xy_body (x y wait interpolate : R) : keeps pen (xy_body x y wait interpolate).
Proof.
  pose proof pen_set_pulse_widths. pose proof pen_get_pulse_widths.
  unfold xy_body, xy_interpolate, xy_step, set_angles.
  repeat first
    [ assumption
    | match goal with H : forall a b, keeps pen (set_pulse_widths a b) |- _ => apply H end
    | apply keeps_bind; [| intros ?]
    | apply keeps_for_each; intros ?
    | solve [intros ?; reflexivity]
    | match goal with
      | |- context [match ?x with _ => _ end] => destruct x
      end ].
Qed.

Lemma xy_split (x y wait interpolate : R) (draw : bool) :
  xy x y wait interpolate draw
  = bind (pen_move draw) (fun _ => xy_body x y wait interpolate).
Proof. reflexivity. Qed.

(** [xy] after the pen, case by case. *)
Lemma xy_body_unfold (x y wait interpolate : R) (bg : BrachioGraph) :
  xy_body x y wait interpolate bg =
  match xy_to_angles (INNER_ARM bg) (OUTER_ARM bg) x y with
  | Raise e => (Raise e, bg)
  | Ok (a1, a2) =>
      let actual := if virtual_mode bg then (virtual_pw_1 bg, virtual_pw_2 bg)
                    else (servo_pulsewidth bg 14%Z, servo_pulsewidth bg 15%Z) in
      if Reqb (angles_to_pw_1 bg a1) (fst actual)
         && Reqb (angles_to_pw_2 bg a2) (snd actual)
      then (Ok tt, positioned x y bg)
      else xy_interpolate x y wait interpolate bg
  end.
Proof.
  unfold xy_body. unfold bind at 1. unfold self_xy_to_angles.
  destruct (xy_to_angles (INNER_ARM bg) (OUTER_ARM bg) x y) as [[a1 a2] | e];
    [| reflexivity].
  unfold bind at 1. unfold gets at 1. unfold angles_to_pulse_widths.
  unfold bind at 1. rewrite get_pulse_widths_state.
  destruct (virtual_mode bg); cbn [fst snd];
    match goal with
    | |- context [Reqb ?a ?b && Reqb ?c ?d] => destruct (Reqb a b && Reqb c d)
    end; reflexivity.
Qed.

(** A loop that completes has advanced the position by all its steps. *)
Lemma xy_loop_completed (length wait : R) (n : Z) (lsx lsy : R) (l : list Z) :
  forall bg bg',
  for_each l (xy_step length wait n lsx lsy) bg = (Ok tt, bg') ->
  current_x bg' = current_x bg + INR (List.length l) * lsx /\
  current_y bg' = current_y bg + INR (List.length l) * lsy.
Proof.
  induction l as [| step l IH]; intros bg bg' E.
  - cbn in E. injection E as <-. cbn. split; lra.
  - cbn [for_each] in E. unfold bind in E.
    pose proof (xy_step_position length wait n lsx lsy step bg) as [Px Py].
    destruct (xy_step length wait n lsx lsy step bg) as [[[] | e] bg1];
      cbn [snd] in *; [| discriminate].
    destruct (IH _ _ E) as [Hx Hy]. cbn [List.length]. rewrite S_INR, Hx, Hy, Px, Py.
    split; lra.
Qed.

Lemma int_nonneg (r : R) : 0 <= r -> (0 <= int r)%Z.
Proof.
  intros Hr. unfold int. destruct (Rle_dec 0 r); [| contradiction].
  pose proof (base_Int_part r) as [_ B].
  assert (L : -1 < IZR (Int_part r)) by lra.
  apply lt_IZR in L. lia.
Qed.


Lemma no_of_steps_pos (length interpolate : R) :
  0 <= length * interpolate -> (1 <= no_of_steps length interpolate)%Z.
Proof.
  intros H. apply int_nonneg in H. unfold no_of_steps.
  destruct (Z.eqb (int (length * interpolate)) 0) eqn:E; [lia |].
  apply Z.eqb_neq in E. lia.
Qed.

Lemma xy_body_position (x y wait interpolate : R) (bg bg' : BrachioGraph) :
  0 <= interpolate ->
  xy_body x y wait interpolate bg = (Ok tt, bg') ->
  position bg' = (x, y).
Proof.
  intros Hi E. rewrite xy_body_unfold in E.
  destruct (xy_to_angles _ _ x y) as [[a1 a2] | e]; [| discriminate].
  cbv zeta in E.
  match type of E with
  | (if ?c then _ else _) = _ => destruct c
  end.
  - injection E as <-. reflexivity.
  - rewrite xy_interpolate_unfold in E. cbv zeta in E.
    set (len := sqrt ((x - current_x bg) ^ 2 + (y - current_y bg) ^ 2)) in E.
    set (n := no_of_steps len interpolate) in E.
    assert (Hn : (1 <= n)%Z).
    { apply no_of_steps_pos. apply Rmult_le_pos; [apply sqrt_pos | exact Hi]. }
    unfold bind in E.
    destruct (for_each (range n) _ bg) as [[[] | e1] bg2] eqn:L; [| discriminate].
    injection E as <-.
    apply xy_loop_completed in L. destruct L as [Hx Hy].
    rewrite length_range in Hx, Hy.
    assert (K : INR (Z.to_nat n) = IZR n).
    { rewrite INR_IZR_INZ. f_equal. lia. }
    rewrite K in Hx, Hy.
    assert (Npos : 1 <= IZR n) by (apply IZR_le; exact Hn).
    unfold position, sleep, modify. cbn [snd log current_x current_y].
    rewrite Hx, Hy. f_equal; field; lra.
Qed.

(** X15: a call of [xy] with a non-negative [interpolate] that returns normally
    leaves the recorded position at the target, whether it took the
    short-circuit or stepped there: the steps add up to the whole move.
    Floats are read as real numbers, so this is exact; a stepped move of
    the program ends within rounding of the target. *)
Theorem xy_reaches_target (x y wait interpolate : R) (draw : bool)
  (bg bg' : BrachioGraph) :
  0 <= interpolate ->
  xy x y wait interpolate draw bg = (Ok tt, bg') ->
  current_x bg' = x /\ current_y bg' = y.
Proof.
  intros Hi E. rewrite xy_split in E. unfold bind in E.
  destruct (pen_move draw bg) as [[[] | e] bg1]; [| discriminate].
  apply xy_body_position in E; [| exact Hi].
  unfold position in E. injection E as -> ->. auto.
Qed.

(** ** Where the methods built on [xy] end *)

Lemma xy_position (x y wait interpolate : R) (draw : bool) (bg bg' : BrachioGraph) :
  0 <= interpolate ->
  xy x y wait interpolate draw bg = (Ok tt, bg') ->
  position bg' = (x, y).
Proof.
  intros Hi E. rewrite xy_split in E. unfold bind in E.
  destruct (pen_move draw bg) as [[[] | e] bg1]; [| discriminate].
  now apply xy_body_position in E.
Qed.

Lemma xy_pen (x y wait interpolate : R) (draw : bool) (bg : BrachioGraph) :
  pen_virtual_mode (pen bg) = Some true ->
  pen (snd (xy x y wait interpolate draw bg)) = pen (pen_set draw bg).
Proof.
  intros P. rewrite xy_split. unfold bind, pen_move.
  rewrite (pen_virtual draw bg P).
  pose proof (pen_xy_body x y wait interpolate (pen_set draw bg)) as K.
  destruct (xy_body x y wait interpolate (pen_set draw bg)) as [r bg2].
  exact K.
Qed.

Lemma machine_pen_mode (bg bg' : BrachioGraph) :
  machine bg' = machine bg -> pen_virtual_mode (pen bg') = pen_virtual_mode (pen bg).
Proof. unfold machine. intros E. now injection E. Qed.

Lemma machine_arms (bg bg' : BrachioGraph) :
  machine bg' = machine bg ->
  INNER_ARM bg' = INNER_ARM bg /\ OUTER_ARM bg' = OUTER_ARM bg.
Proof. unfold machine. intros E. injection E. auto. Qed.

Lemma default_interpolate_nonneg : 0 <= default_interpolate.
Proof. unfold default_interpolate. lra. Qed.

Lemma park_position (bg bg' : BrachioGraph) :
  park bg = (Ok tt, bg') ->
  position bg' = (- INNER_ARM bg, OUTER_ARM bg).
Proof.
  intros E. unfold park in E. unfold bind at 1 in E.
  pose proof (machine_pen_up bg) as K.
  destruct (PenM.up bg) as [[[] | e] bg1]; [| discriminate]. cbn [snd] in K.
  destruct (machine_arms _ _ K) as [KI KO].
  unfold bind at 1 in E. unfold gets at 1 in E.
  unfold bind at 1 in E. unfold gets at 1 in E.
  unfold bind at 1 in E.
  destruct (xy (- INNER_ARM bg1) (OUTER_ARM bg1) default_wait default_interpolate
              false bg1) as [[[] | e] bg2] eqn:X; [| discriminate].
  apply xy_position in X; [| exact default_interpolate_nonneg].
  unfold bind at 1 in E. unfold sleep at 1, modify at 1 in E.
  pose proof (position_quiet [14; 15; 18]%Z (log (Sleep 1) bg2)) as Q.
  rewrite E in Q. cbn [snd] in Q. rewrite Q.
  change (position (log (Sleep 1) bg2)) with (position bg2).
  rewrite X, KI, KO. reflexivity.
Qed.



(** X16: whatever becomes of the move, [xy] has first put the pen where [draw]
    asks: a call that raises for an unreachable target or a pulse-width out
    of the band has still lowered or raised the pen. *)
Theorem xy_moves_pen_first (x y wait interpolate : R) (draw : bool)
  (bg : BrachioGraph) :
  pen_virtual_mode (pen bg) = Some true ->
  virtual_pw (pen (snd (xy x y wait interpolate draw bg)))
  = Some (if draw then pw_down (pen bg) else pw_up (pen bg)).
Proof.
  intros P. rewrite (xy_pen x y wait interpolate draw bg P). reflexivity.
Qed.

Lemma xy_moves_pen_first_witness :
  fst (xy 100 100 (1 / 10) 10 true (parked_plotter 8 8 None)) = Raise ValueError /\
  virtual_pw (pen (snd (xy 100 100 (1 / 10) 10 true (parked_plotter 8 8 None))))
  = Some 1100.
Proof.
  split.
  - rewrite xy_unfold by reflexivity.
    change (INNER_ARM (parked_plotter 8 8 None)) with 8.
    change (OUTER_ARM (parked_plotter 8 8 None)) with 8.
    assert (H : reach 100 100 ^ 2 = 100 ^ 2 + 100 ^ 2) by apply reach_sq.
    pose proof (reach_nonneg 100 100) as N.
    assert (L : 8 + 8 < reach 100 100) by nra.
    rewrite xy_to_angles_outside; [reflexivity | lra | lra | lra |].
    right. exact L.
  - exact (xy_moves_pen_first 100 100 (1 / 10) 10 true (parked_plotter 8 8 None)
             eq_refl).
Defined.


(** X21: [draw_line] that returns normally has left the pen down at [end].
    Floats are read as real numbers: after a stepped move the program is
    within rounding of [end]. *)
Theorem draw_line_ends (start end_ : R * R) (wait interpolate : R)
  (pre_start : bool) (bg bg' : BrachioGraph) :
  0 <= interpolate ->
  pen_virtual_mode (pen bg) = Some true ->
  draw_line start end_ wait interpolate pre_start bg = (Ok tt, bg') ->
  (current_x bg', current_y bg') = end_ /\
  virtual_pw (pen bg') = Some (pw_down (pen bg')).
Proof.
  intros Hi P E. unfold draw_line in E.
  destruct start as [start_x start_y], end_ as [end_x end_y].
  unfold bind at 1 in E.
  set (pre := if pre_start then _ else _) in E.
  assert (Kp : keeps machine pre).
  { subst pre. destruct pre_start; [| intros ?; reflexivity].
    destruct (pre_start_position (start_x, start_y) (end_x, end_y)).
    apply machine_xy. }
  specialize (Kp bg).
  destruct (pre bg) as [[[] | e] bg1]; [| discriminate]. cbn [snd] in Kp.
  unfold bind at 1 in E.
  pose proof (machine_xy start_x start_y wait interpolate false bg1) as K2.
  destruct (xy start_x start_y wait interpolate false bg1) as [[[] | e] bg2];
    [| discriminate].
  cbn [snd] in K2.
  assert (P2 : pen_virtual_mode (pen bg2) = Some true).
  { rewrite (machine_pen_mode _ _ K2), (machine_pen_mode _ _ Kp). exact P. }
  pose proof (xy_pen end_x end_y wait interpolate true bg2 P2) as K.
  rewrite E in K. cbn [snd] in K.
  apply xy_position in E; [| exact Hi]. split; [exact E |].
  rewrite K. reflexivity.
Qed.

(** X22: [box] that returns without a message has come back to the parked
    position, whatever the bounds and the number of turns.  Floats are read
    as real numbers: after a stepped move the program is within rounding of
    that position. *)
Theorem box_ends_parked (bounds_arg : option Bounds) (wait interpolate : R)
  (repeat : Z) (reverse : bool) (bg bg' : BrachioGraph) :
  box bounds_arg wait interpolate repeat reverse bg = (Ok None, bg') ->
  current_x bg' = - INNER_ARM bg /\ current_y bg' = OUTER_ARM bg.
Proof.
  intros E. unfold box in E. unfold bind at 1 in E. unfold gets at 1 in E.
  destruct (match bounds_arg with Some b => Some b | None => bounds bg end)
    as [[[[b0 b1] b2] b3] |]; [| discriminate].
  unfold bind at 1 in E.
  pose proof (machine_xy b0 b1 wait interpolate false bg) as K1.
  destruct (xy b0 b1 wait interpolate false bg) as [[[] | e] bg1]; [| discriminate].
  cbn [snd] in K1. unfold bind at 1 in E.
  match type of E with
  | context [for_each ?l ?body bg1] =>
      assert (K2 : keeps machine (for_each l body));
      [ apply keeps_for_each; intros r; unfold draw;
        destruct (negb reverse);
        repeat first [apply machine_xy | apply keeps_bind; [| intros ?]]
      | specialize (K2 bg1); destruct (for_each l body bg1) as [[[] | e] bg2];
        [| discriminate] ]
  end.
  cbn [snd] in K2. unfold bind at 1 in E.
  destruct (park bg2) as [[[] | e] bg3] eqn:Pk; [| discriminate].
  unfold ret in E. injection E as <-.
  apply park_position in Pk. unfold position in Pk. injection Pk as -> ->.
  destruct (machine_arms _ _ K2) as [-> ->].
  destruct (machine_arms _ _ K1) as [-> ->]. auto.
Qed.


(** ** [plot_lines] as a whole *)







(** ** The stepped move *)

Lemma machine_same (bg bg' : BrachioGraph) :
  machine bg' = machine bg -> same_machine bg bg'.
Proof. unfold machine, same_machine. intros E. injection E. auto 10. Qed.


Lemma differ_false (a b c d : R) :
  a <> b \/ c <> d -> Reqb a b && Reqb c d = false.
Proof. intros H. apply andb_false_iff. rewrite !Reqb_false. exact H. Qed.



(** One completed turn of the loop in virtual mode. *)
Lemma xy_step_virtual (length wait : R) (n : Z) (lsx lsy : R) (step : Z)
  (bg bg' : BrachioGraph) :
  virtual_mode bg = true ->
  xy_step length wait n lsx lsy step bg = (Ok tt, bg') ->
  exists a1 a2,
    xy_to_angles (INNER_ARM bg) (OUTER_ARM bg) (current_x bg + lsx) (current_y bg + lsy)
      = Ok (a1, a2) /\
    in_band (angles_to_pw_1 bg a1) /\ in_band (angles_to_pw_2 bg a2) /\
    angle_1 bg' = Some a1 /\ angle_2 bg' = Some a2 /\
    List.length (arm_commands bg') = S (List.length (arm_commands bg)).
Proof.
  intros V E. rewrite xy_step_unfold in E.
  destruct (xy_to_angles _ _ _ _) as [[a1 a2] | e]; [| discriminate].
  cbv zeta in E. exists a1, a2. split; [reflexivity |].
  unfold set_pulse_widths in E. unfold bind at 1 in E. unfold gets at 1 in E.
  change (virtual_mode (advanced lsx lsy bg)) with (virtual_mode bg) in E.
  rewrite V in E.
  match type of E with
  | context [if ?c then _ else _] => destruct c eqn:B
  end.
  - rewrite !andb_true_iff, !Rltb_true in B. destruct B as [[B1 B2] [B3 B4]].
    unfold bind, modify in E. cbv beta iota in E.
    destruct (Z.ltb (step + 1) n);
      [destruct (truediv (length * wait) (IZR n)); [| discriminate] |];
      injection E as <-; repeat split; assumption || reflexivity.
  - unfold raise in E. discriminate.
Qed.

(** The completed loop in virtual mode: one command a turn, and after the
    last turn the recorded angles are those of the recorded position. *)
Lemma xy_loop_virtual (length wait : R) (n : Z) (lsx lsy : R) (l : list Z) :
  forall bg bg',
  virtual_mode bg = true ->
  for_each l (xy_step length wait n lsx lsy) bg = (Ok tt, bg') ->
  List.length (arm_commands bg') = (List.length (arm_commands bg) + List.length l)%nat /\
  (l <> [] ->
   exists a1 a2,
     xy_to_angles (INNER_ARM bg) (OUTER_ARM bg) (current_x bg') (current_y bg')
       = Ok (a1, a2) /\
     in_band (angles_to_pw_1 bg a1) /\ in_band (angles_to_pw_2 bg a2) /\
     angle_1 bg' = Some a1 /\ angle_2 bg' = Some a2).
Proof.
  induction l as [| step l IH]; intros bg bg' V E.
  - cbn in E. injection E as <-. cbn. split; [lia | congruence].
  - cbn [for_each] in E. unfold bind in E.
    pose proof (machine_xy_step length wait n lsx lsy step bg) as K.
    pose proof (xy_step_position length wait n lsx lsy step bg) as [Px Py].
    destruct (xy_step length wait n lsx lsy step bg) as [[[] | e] bg1] eqn:S1;
      [| discriminate].
    cbn [snd] in *.
    destruct (machine_same _ _ K) as [KI [KO [KV [K1 [K2 _]]]]].
    destruct (xy_step_virtual _ _ _ _ _ _ _ _ V S1)
      as [a1 [a2 [A [B1 [B2 [An1 [An2 C]]]]]]].
    destruct (IH bg1 bg' ltac:(congruence) E) as [IC IA].
    split; [cbn [List.length]; lia |].
    intros _. destruct l as [| s2 l].
    + cbn in E. injection E as <-. exists a1, a2.
      rewrite Px, Py. auto.
    + destruct (IA ltac:(discriminate)) as [b1 [b2 [A' [B1' [B2' [An1' An2']]]]]].
      exists b1, b2. rewrite KI, KO, K1, K2 in *. auto.
Qed.

Lemma steps_sum (c x : R) (n : Z) :
  (1 <= n)%Z -> c + INR (Z.to_nat n) * ((x - c) / IZR n) = x.
Proof.
  intros Hn. assert (K : INR (Z.to_nat n) = IZR n).
  { rewrite INR_IZR_INZ. f_equal. lia. }
  assert (Npos : 1 <= IZR n) by (apply IZR_le; exact Hn).
  rewrite K. field. lra.
Qed.

Lemma xy_stepped_facts (x y wait interpolate : R) (draw : bool)
  (bg bg' : BrachioGraph) (a1 a2 : R) :
  pen_virtual_mode (pen bg) = Some true -> virtual_mode bg = true ->
  0 <= interpolate ->
  xy_to_angles (INNER_ARM bg) (OUTER_ARM bg) x y = Ok (a1, a2) ->
  angles_to_pw_1 bg a1 <> virtual_pw_1 bg \/ angles_to_pw_2 bg a2 <> virtual_pw_2 bg ->
  xy x y wait interpolate draw bg = (Ok tt, bg') ->
  angle_1 bg' = Some a1 /\ angle_2 bg' = Some a2 /\
  in_band (angles_to_pw_1 bg a1) /\ in_band (angles_to_pw_2 bg a2) /\
  List.length (arm_commands bg')
  = (List.length (arm_commands bg)
     + Z.to_nat (no_of_steps
                   (sqrt ((x - current_x bg) ^ 2 + (y - current_y bg) ^ 2))
                   interpolate))%nat.
Proof.
  intros P V Hi A Hne E. rewrite xy_unfold, A, V in E by assumption.
  cbv zeta in E. cbn [fst snd] in E. rewrite (differ_false _ _ _ _ Hne) in E.
  rewrite xy_interpolate_unfold in E. cbv zeta in E.
  change (current_x (pen_set draw bg)) with (current_x bg) in E.
  change (current_y (pen_set draw bg)) with (current_y bg) in E.
  set (len := sqrt ((x - current_x bg) ^ 2 + (y - current_y bg) ^ 2)) in *.
  set (n := no_of_steps len interpolate) in *.
  assert (Hn : (1 <= n)%Z).
  { apply no_of_steps_pos. apply Rmult_le_pos; [apply sqrt_pos | exact Hi]. }
  unfold bind in E.
  destruct (for_each (range n) _ (pen_set draw bg)) as [[[] | e] bg2] eqn:L;
    [| discriminate].
  unfold sleep, modify in E. injection E as <-.
  pose proof (xy_loop_completed _ _ _ _ _ _ _ _ L) as [Hx Hy].
  rewrite length_range in Hx, Hy.
  change (current_x (pen_set draw bg)) with (current_x bg) in Hx.
  change (current_y (pen_set draw bg)) with (current_y bg) in Hy.
  rewrite steps_sum in Hx, Hy by exact Hn.
  destruct (xy_loop_virtual _ _ _ _ _ _ (pen_set draw bg) _ V L) as [C Last].
  rewrite length_range in C.
  destruct Last as [b1 [b2 [A' [B1 [B2 [An1 An2]]]]]].
  { intros Z0. apply (f_equal (@List.length Z)) in Z0.
    rewrite length_range in Z0. cbn in Z0. lia. }
  change (INNER_ARM (pen_set draw bg)) with (INNER_ARM bg) in A'.
  change (OUTER_ARM (pen_set draw bg)) with (OUTER_ARM bg) in A'.
  change (angles_to_pw_1 (pen_set draw bg)) with (angles_to_pw_1 bg) in B1.
  change (angles_to_pw_2 (pen_set draw bg)) with (angles_to_pw_2 bg) in B2.
  rewrite Hx, Hy, A in A'. injection A' as <- <-.
  repeat split; try assumption; try apply B1; try apply B2.
Qed.

(** X18: a stepped move that returns normally in virtual mode has sent one
    command for each of its steps, and leaves the recorded angles equal to
    the angles of the target, whose pulse-widths are inside the band. *)
Theorem xy_stepped_move (x y wait interpolate : R) (draw : bool)
  (bg bg' : BrachioGraph) (a1 a2 : R) :
  pen_virtual_mode (pen bg) = Some true -> virtual_mode bg = true ->
  0 <= interpolate ->
  xy_to_angles (INNER_ARM bg) (OUTER_ARM bg) x y = Ok (a1, a2) ->
  angles_to_pw_1 bg a1 <> virtual_pw_1 bg \/ angles_to_pw_2 bg a2 <> virtual_pw_2 bg ->
  xy x y wait interpolate draw bg = (Ok tt, bg') ->
  angle_1 bg' = Some a1 /\ angle_2 bg' = Some a2 /\
  in_band (angles_to_pw_1 bg a1) /\ in_band (angles_to_pw_2 bg a2) /\
  List.length (arm_commands bg')
  = (List.length (arm_commands bg)
     + Z.to_nat (no_of_steps
                   (sqrt ((x - current_x bg) ^ 2 + (y - current_y bg) ^ 2))
                   interpolate))%nat.
Proof. exact (xy_stepped_facts x y wait interpolate draw bg bg' a1 a2). Qed.

Lemma xy_stepped_move_witness :
  exists bg',
    xy 0 8 (1 / 10) (1 / 8) false (parked_plotter 8 8 None) = (Ok tt, bg') /\
    angle_1 bg' = Some (-60) /\ angle_2 bg' = Some 120 /\
    in_band (angles_to_pw_1 (parked_plotter 8 8 None) (-60)) /\
    in_band (angles_to_pw_2 (parked_plotter 8 8 None) 120) /\
    List.length (arm_commands bg')
    = (List.length (arm_commands (parked_plotter 8 8 None))
       + Z.to_nat (no_of_steps
                     (sqrt ((0 - current_x (parked_plotter 8 8 None)) ^ 2
                            + (8 - current_y (parked_plotter 8 8 None)) ^ 2))
                     (1 / 8)))%nat.
Proof.
  set (bg0 := parked_plotter 8 8 None).
  assert (P1 : angles_to_pw_1 bg0 (-60) = 1200)
    by (cbn; unfold naive_angles_to_pulse_widths_1; lra).
  assert (P2 : angles_to_pw_2 bg0 120 = 1800)
    by (cbn; unfold naive_angles_to_pulse_widths_2; lra).
  assert (V1 : virtual_pw_1 bg0 = 1500)
    by (cbn; unfold naive_angles_to_pulse_widths_1; lra).
  assert (D : angles_to_pw_1 bg0 (-60) <> virtual_pw_1 bg0
              \/ angles_to_pw_2 bg0 120 <> virtual_pw_2 bg0)
    by (left; rewrite P1, V1; lra).
  destruct (xy_one_step 0 8 (1 / 10) (1 / 8) false bg0 (-60) 120)
    as [bg1 [E1 _]]; try reflexivity; try exact angles_at_0_8; try exact D.
  { change (current_x bg0) with (- (8)). change (current_y bg0) with 8.
    rewrite (sqrt_eq _ 8) by (try lra; ring).
    apply no_of_steps_exact; [lia | field]. }
  { rewrite P1. unfold in_band. lra. }
  { rewrite P2. unfold in_band. lra. }
  exists bg1. split; [exact E1 |].
  exact (xy_stepped_move 0 8 (1 / 10) (1 / 8) false bg0 bg1 (-60) 120
           eq_refl eq_refl ltac:(lra) angles_at_0_8 D E1).
Defined.

(** ** The recorded pulse-widths *)

Lemma preserves_bind {A B : Type} (P : BrachioGraph -> Prop) (m : BG A) (k : A -> BG B) :
  preserves P m -> (forall a, preserves P (k a)) -> preserves P (bind m k).
Proof.
  intros Hm Hk bg H. unfold bind. specialize (Hm bg H).
  destruct (m bg) as [[a | e] bg1]; cbn [snd] in *.
  - apply Hk. exact Hm.
  - exact Hm.
Qed.

Lemma preserves_for_each {A : Type} (P : BrachioGraph -> Prop) (l : list A)
  (body : A -> BG unit) :
  (forall a, preserves P (body a)) -> preserves P (for_each l body).
Proof.
  intros Hb. induction l as [| a l IH]; cbn [for_each].
  - intros bg H. exact H.
  - apply preserves_bind; [apply Hb | intros _; exact IH].
Qed.

Lemma record_set_angles (a1 a2 : R) : preserves virtual_record (set_angles a1 a2).
Proof.
  intros bg [V [F1 F2]]. unfold set_angles. unfold bind at 1. unfold gets at 1.
  unfold angles_to_pulse_widths. unfold bind at 1.
  unfold set_pulse_widths. unfold bind at 1. unfold gets at 1. rewrite V.
  match goal with
  | |- context [if ?c then _ else _] => destruct c eqn:B
  end.
  - rewrite !andb_true_iff, !Rltb_true in B. destruct B as [[B1 B2] [B3 B4]].
    unfold bind, modify. cbn [snd].
    split; [exact V |]. split; cbn; constructor; try assumption; split; assumption.
  - unfold raise. cbn [snd]. repeat split; assumption.
Qed.

Lemma record_pen (draw : bool) : preserves virtual_record (pen_move draw).
Proof.
  intros bg H. unfold pen_move.
  destruct draw; unfold PenM.down, PenM.up, bind, gets;
    destruct (pen_virtual_mode (pen bg)) as [[|] |]; exact H.
Qed.

Lemma record_quiet (servos : list Z) : preserves virtual_record (quiet servos).
Proof.
  intros bg H. pose proof H as [V _]. unfold quiet, bind, gets. rewrite V. exact H.
Qed.

Ltac record_walk :=
  repeat first
    [ apply record_set_angles
    | apply (record_pen true)
    | apply (record_pen false)
    | apply record_quiet
    | apply preserves_bind; [| intros ?]
    | apply preserves_for_each; intros ?
    | solve [intros ? H; exact H]
    | match goal with
      | |- context [match ?x with _ => _ end] => destruct x
      end ].

Lemma record_xy (x y wait interpolate : R) (draw : bool) :
  preserves virtual_record (xy x y wait interpolate draw).
Proof.
  rewrite xy_split. apply preserves_bind; [apply record_pen | intros _].
  unfold xy_body, xy_interpolate, xy_step, get_pulse_widths. record_walk.
Qed.

Lemma record_park : preserves virtual_record park.
Proof.
  unfold park.
  apply preserves_bind; [apply (record_pen false) | intros _].
  repeat (apply preserves_bind; [solve [intros ? H; exact H] | intros ?]).
  apply preserves_bind; [apply record_xy | intros _].
  apply preserves_bind; [intros ? H; exact H | intros _]. apply record_quiet.
Qed.

Lemma record_draw_line (start end_ : R * R) (wait interpolate : R) (pre_start : bool) :
  preserves virtual_record (draw_line start end_ wait interpolate pre_start).
Proof.
  unfold draw_line. destruct start, end_.
  apply preserves_bind; [| intros _].
  - destruct pre_start; [| intros ? H; exact H].
    destruct (pre_start_position _ _). apply record_xy.
  - apply preserves_bind; [apply record_xy | intros _; apply record_xy].
Qed.

Lemma record_box (bounds_arg : option Bounds) (wait interpolate : R) (repeat : Z)
  (reverse : bool) :
  preserves virtual_record (box bounds_arg wait interpolate repeat reverse).
Proof.
  unfold box. apply preserves_bind; [intros ? H; exact H | intros self_bounds].
  destruct (match bounds_arg with Some b => Some b | None => self_bounds end)
    as [[[[b0 b1] b2] b3] |]; [| intros ? H; exact H].
  apply preserves_bind; [apply record_xy | intros _].
  apply preserves_bind; [| intros _].
  - apply preserves_for_each. intros r. unfold draw. destruct (negb reverse);
      repeat first [apply record_xy | apply preserves_bind; [| intros ?]].
  - apply preserves_bind; [apply record_park | intros _]. intros ? H; exact H.
Qed.

Lemma record_centre : preserves virtual_record centre.
Proof.
  unfold centre. apply preserves_bind; [intros ? H; exact H | intros self_bounds].
  destruct self_bounds as [[[[b0 b1] b2] b3] |]; [| intros ? H; exact H].
  apply preserves_bind; [apply (record_pen false) | intros _].
  apply preserves_bind; [apply record_xy | intros _].
  apply preserves_bind; [apply record_quiet | intros _]. intros ? H; exact H.
Qed.

(** X19: in virtual mode every pulse-width that [set_angles] records, and
    [report] later reads, is inside the band, and stays so through every
    method that moves the pen, whether it returns or raises. *)
Theorem records_stay_in_band (bg : BrachioGraph) :
  virtual_mode bg = true -> recorded_in_band bg ->
  (forall a1 a2, recorded_in_band (snd (set_angles a1 a2 bg))) /\
  (forall x y wait interpolate draw,
     recorded_in_band (snd (xy x y wait interpolate draw bg))) /\
  recorded_in_band (snd (park bg)) /\
  (forall start end_ wait interpolate pre_start,
     recorded_in_band (snd (draw_line start end_ wait interpolate pre_start bg))) /\
  (forall bounds_arg wait interpolate repeat reverse,
     recorded_in_band (snd (box bounds_arg wait interpolate repeat reverse bg))) /\
  recorded_in_band (snd (centre bg)).
Proof.
  intros V F. assert (H : virtual_record bg) by (split; assumption).
  split; [intros; exact (proj2 (record_set_angles _ _ bg H)) |].
  split; [intros; exact (proj2 (record_xy _ _ _ _ _ bg H)) |].
  split; [exact (proj2 (record_park bg H)) |].
  split; [intros; exact (proj2 (record_draw_line _ _ _ _ _ bg H)) |].
  split; [intros; exact (proj2 (record_box _ _ _ _ _ bg H)) |].
  exact (proj2 (record_centre bg H)).
Qed.

Lemma records_stay_in_band_witness :
  recorded_in_band (snd (xy 0 8 (1 / 10) (1 / 8) false (parked_plotter 8 8 None))).
Proof.
  assert (F : recorded_in_band (parked_plotter 8 8 None))
    by (split; constructor).
  exact (proj1 (proj2 (records_stay_in_band (parked_plotter 8 8 None) eq_refl F))
           0 8 (1 / 10) (1 / 8) false).
Defined.

(** ** A move that raises *)

(** A turn of the loop that raises in virtual mode: the position has been
    advanced, nothing else has changed, and the exception is that of the
    conversion of the new position, or the [ValueError] of the band test. *)
Lemma xy_step_failure (length wait : R) (n : Z) (lsx lsy : R) (step : Z)
  (bg : BrachioGraph) (e : exn) (bg' : BrachioGraph) :
  virtual_mode bg = true -> n <> 0%Z ->
  xy_step length wait n lsx lsy step bg = (Raise e, bg') ->
  bg' = advanced lsx lsy bg /\
  (xy_to_angles (INNER_ARM bg) (OUTER_ARM bg) (current_x bg + lsx) (current_y bg + lsy)
   = Raise e \/
   (e = ValueError /\
    exists a1 a2,
      xy_to_angles (INNER_ARM bg) (OUTER_ARM bg)
                   (current_x bg + lsx) (current_y bg + lsy) = Ok (a1, a2) /\
      ~ (in_band (angles_to_pw_1 bg a1) /\ in_band (angles_to_pw_2 bg a2)))).
Proof.
  intros V Hn E. rewrite xy_step_unfold in E.
  destruct (xy_to_angles _ _ _ _) as [[a1 a2] | e0].
  - cbv zeta in E.
    unfold set_pulse_widths in E. unfold bind at 1 in E. unfold gets at 1 in E.
    change (virtual_mode (advanced lsx lsy bg)) with (virtual_mode bg) in E.
    rewrite V in E.
    match type of E with
    | context [if ?c then _ else _] => destruct c eqn:B
    end.
    + unfold bind, modify in E. cbv beta iota in E.
      rewrite truediv_ok in E by (apply not_0_IZR; exact Hn).
      destruct (Z.ltb (step + 1) n); discriminate.
    + unfold raise in E. injection E as <- <-.
      split; [reflexivity |]. right. split; [reflexivity |].
      exists a1, a2. split; [reflexivity |].
      intros [B1 B2]. rewrite band_true in B by assumption. discriminate.
  - injection E as <- <-. auto.
Qed.

(** The loop that raises in virtual mode, after [j] turns that completed:
    the position is that of turn [j + 1], the angles are those recorded by
    turn [j], or those before the loop when the first turn raised. *)
Lemma xy_loop_failure (length wait : R) (n : Z) (lsx lsy : R) (l : list Z) :
  forall bg e bg',
  virtual_mode bg = true -> n <> 0%Z ->
  for_each l (xy_step length wait n lsx lsy) bg = (Raise e, bg') ->
  exists j : nat,
    (S j <= List.length l)%nat /\
    current_x bg' = current_x bg + INR (S j) * lsx /\
    current_y bg' = current_y bg + INR (S j) * lsy /\
    (j = 0%nat -> angle_1 bg' = angle_1 bg /\ angle_2 bg' = angle_2 bg) /\
    ((0 < j)%nat ->
     exists a1 a2,
       xy_to_angles (INNER_ARM bg) (OUTER_ARM bg)
                    (current_x bg + INR j * lsx) (current_y bg + INR j * lsy)
         = Ok (a1, a2) /\
       angle_1 bg' = Some a1 /\ angle_2 bg' = Some a2) /\
    (xy_to_angles (INNER_ARM bg) (OUTER_ARM bg) (current_x bg') (current_y bg')
     = Raise e \/
     (e = ValueError /\
      exists a1 a2,
        xy_to_angles (INNER_ARM bg) (OUTER_ARM bg) (current_x bg') (current_y bg')
          = Ok (a1, a2) /\
        ~ (in_band (angles_to_pw_1 bg a1) /\ in_band (angles_to_pw_2 bg a2)))).
Proof.
  induction l as [| step l IH]; intros bg e bg' V Hn E.
  - cbn in E. discriminate.
  - cbn [for_each] in E. unfold bind in E.
    pose proof (machine_xy_step length wait n lsx lsy step bg) as K.
    pose proof (xy_step_position length wait n lsx lsy step bg) as [Px Py].
    destruct (xy_step length wait n lsx lsy step bg) as [[[] | e0] bg1] eqn:S1;
      cbn [snd] in *.
    + destruct (machine_same _ _ K) as [KI [KO [KV [K1 [K2 _]]]]].
      destruct (xy_step_virtual _ _ _ _ _ _ _ _ V S1)
        as [a1 [a2 [A [_ [_ [An1 [An2 _]]]]]]].
      destruct (IH bg1 e bg' ltac:(congruence) Hn E)
        as [j [Hj [Hx [Hy [H0 [Hpos He]]]]]].
      exists (S j). rewrite KI, KO, K1, K2 in *.
      split; [cbn [List.length]; lia |].
      split; [rewrite Hx, Px, (S_INR (S j)); ring |].
      split; [rewrite Hy, Py, (S_INR (S j)); ring |].
      split; [intros Z0; discriminate |].
      split; [| exact He].
      intros _. destruct j as [| j].
      * destruct (H0 eq_refl) as [-> ->]. exists a1, a2.
        replace (current_x bg + INR 1 * lsx) with (current_x bg + lsx)
          by (cbn [INR]; ring).
        replace (current_y bg + INR 1 * lsy) with (current_y bg + lsy)
          by (cbn [INR]; ring).
        auto.
      * destruct (Hpos ltac:(lia)) as [b1 [b2 [A' [Bn1 Bn2]]]].
        exists b1, b2. split; [| auto].
        rewrite Px, Py in A'.
        replace (current_x bg + INR (S (S j)) * lsx)
          with (current_x bg + lsx + INR (S j) * lsx)
          by (rewrite (S_INR (S j)); ring).
        replace (current_y bg + INR (S (S j)) * lsy)
          with (current_y bg + lsy + INR (S j) * lsy)
          by (rewrite (S_INR (S j)); ring).
        exact A'.
    + injection E as <- <-.
      destruct (xy_step_failure _ _ _ _ _ _ _ _ _ V Hn S1) as [-> He].
      exists 0%nat. cbn [List.length INR].
      change (current_x (advanced lsx lsy bg)) with (current_x bg + lsx).
      change (current_y (advanced lsx lsy bg)) with (current_y bg + lsy).
      split; [lia |]. split; [ring |]. split; [ring |].
      split; [intros _; split; reflexivity |].
      split; [intros Z0; lia | exact He].
Qed.

(** C4, as amended, for the plotter the constructor builds (virtual, with a
    virtual pen) and a non-negative [wait].  Floats are read as real
    numbers: the program adds the step once per turn and is within rounding
    of the positions given here.  When the conversion of the
    target itself fails, [xy] raises that exception, [ValueError] or
    [ZeroDivisionError], with position and angles as they were before the
    call.  When the target converts and [xy] raises, it raised in the
    interpolation loop, in turn [j + 1] of [no_of_steps] after [j] turns
    that completed, and nothing is rolled back: the position is that of
    turn [j + 1], which differs from the position before the call unless
    the move had no length; the angles are those of turn [j], the last that
    completed, or those before the call when there is none; the exception is
    that of the conversion of the position reached, or the [ValueError] of
    the band test on its pulse-widths. *)
Theorem xy_failure_state (x y wait interpolate : R) (draw : bool) (bg : BrachioGraph) :
  pen_virtual_mode (pen bg) = Some true -> virtual_mode bg = true -> 0 <= wait ->
  (forall e, xy_to_angles (INNER_ARM bg) (OUTER_ARM bg) x y = Raise e ->
     (e = ValueError \/ e = ZeroDivisionError) /\
     exists bg', xy x y wait interpolate draw bg = (Raise e, bg') /\
                 session bg' = session bg) /\
  (forall a e bg',
     xy_to_angles (INNER_ARM bg) (OUTER_ARM bg) x y = Ok a ->
     xy x y wait interpolate draw bg = (Raise e, bg') ->
     let n := no_of_steps
                (sqrt ((x - current_x bg) ^ 2 + (y - current_y bg) ^ 2))
                interpolate in
     let step_x := (x - current_x bg) / IZR n in
     let step_y := (y - current_y bg) / IZR n in
     exists j : nat,
       (Z.of_nat j < n)%Z /\
       current_x bg' = current_x bg + INR (S j) * step_x /\
       current_y bg' = current_y bg + INR (S j) * step_y /\
       (x <> current_x bg \/ y <> current_y bg ->
        (current_x bg', current_y bg') <> (current_x bg, current_y bg)) /\
       (j = 0%nat -> angle_1 bg' = angle_1 bg /\ angle_2 bg' = angle_2 bg) /\
       ((0 < j)%nat ->
        exists a1 a2,
          xy_to_angles (INNER_ARM bg) (OUTER_ARM bg)
                       (current_x bg + INR j * step_x)
                       (current_y bg + INR j * step_y) = Ok (a1, a2) /\
          angle_1 bg' = Some a1 /\ angle_2 bg' = Some a2) /\
       (xy_to_angles (INNER_ARM bg) (OUTER_ARM bg) (current_x bg') (current_y bg')
        = Raise e \/
        (e = ValueError /\
         exists a1 a2,
           xy_to_angles (INNER_ARM bg) (OUTER_ARM bg) (current_x bg') (current_y bg')
             = Ok (a1, a2) /\
           ~ (in_band (angles_to_pw_1 bg a1) /\ in_band (angles_to_pw_2 bg a2))))).
Proof.
  intros P V _. split.
  - intros e A. split; [exact (xy_to_angles_raises _ _ _ _ _ A) |].
    exists (pen_set draw bg). split; [| reflexivity].
    rewrite xy_unfold, A by assumption. reflexivity.
  - intros [a1 a2] e bg' A E n step_x step_y.
    rewrite xy_unfold, A in E by assumption. cbv zeta in E.
    match type of E with
    | (if ?c then _ else _) = _ => destruct c
    end; [discriminate |].
    rewrite xy_interpolate_unfold in E. cbv zeta in E.
    change (current_x (pen_set draw bg)) with (current_x bg) in E.
    change (current_y (pen_set draw bg)) with (current_y bg) in E.
    fold n in E. fold step_x in E. fold step_y in E.
    unfold bind in E.
    destruct (for_each (range n) _ (pen_set draw bg)) as [[[] | e1] bg2] eqn:L;
      [discriminate |].
    injection E as <- <-.
    apply (xy_loop_failure _ _ _ _ _ _ (pen_set draw bg)) in L;
      [| exact V | apply no_of_steps_nonzero].
    destruct L as [j [Hj [Hx [Hy [H0 [Hpos He]]]]]].
    rewrite length_range in Hj.
    change (current_x (pen_set draw bg)) with (current_x bg) in *.
    change (current_y (pen_set draw bg)) with (current_y bg) in *.
    change (INNER_ARM (pen_set draw bg)) with (INNER_ARM bg) in *.
    change (OUTER_ARM (pen_set draw bg)) with (OUTER_ARM bg) in *.
    change (angles_to_pw_1 (pen_set draw bg)) with (angles_to_pw_1 bg) in *.
    change (angles_to_pw_2 (pen_set draw bg)) with (angles_to_pw_2 bg) in *.
    change (angle_1 (pen_set draw bg)) with (angle_1 bg) in *.
    change (angle_2 (pen_set draw bg)) with (angle_2 bg) in *.
    exists j. split; [lia |]. split; [exact Hx |]. split; [exact Hy |].
    split; [| split; [exact H0 | split; [exact Hpos | exact He]]].
    intros Hmove Heq. injection Heq as Ex Ey.
    assert (Kpos : 1 <= INR (S j)) by (apply (le_INR 1); lia).
    assert (Npos : 1 <= IZR n) by (apply IZR_le; lia).
    assert (Dx : x - current_x bg = step_x * IZR n)
      by (unfold step_x; field; lra).
    assert (Dy : y - current_y bg = step_y * IZR n)
      by (unfold step_y; field; lra).
    assert (Zx : step_x = 0) by nra.
    assert (Zy : step_y = 0) by nra.
    rewrite Zx in Dx. rewrite Zy in Dy. lra.
Qed.

Lemma xy_failure_state_witness :
  (exists bg',
     xy 20 20 (1 / 10) 10 false (parked_plotter 8 8 None) = (Raise ValueError, bg') /\
     session bg' = session (parked_plotter 8 8 None)) /\
  (exists bg',
     xy 4 (-3) (1 / 10) (1 / 5) false (parked_plotter 4 3 None)
       = (Raise ZeroDivisionError, bg') /\
     (current_x bg', current_y bg')
       <> (current_x (parked_plotter 4 3 None), current_y (parked_plotter 4 3 None)) /\
     angle_1 bg' = None /\ angle_2 bg' = None /\
     xy_to_angles 4 3 (current_x bg') (current_y bg') = Raise ZeroDivisionError).
Proof.
  split.
  - destruct (xy_failure_state 20 20 (1 / 10) 10 false (parked_plotter 8 8 None)
                eq_refl eq_refl ltac:(lra)) as [H _].
    apply (H ValueError).
    change (xy_to_angles 8 8 20 20 = Raise ValueError).
    apply xy_to_angles_outside; try lra.
    + pose proof reach_20_20. lra.
    + right. exact reach_20_20.
  - destruct move_through_pivot as [a [bg' [A [E [_ S1]]]]].
    destruct (xy_failure_state 4 (-3) (1 / 10) (1 / 5) false (parked_plotter 4 3 None)
                eq_refl eq_refl ltac:(lra)) as [_ H].
    destruct (H a ZeroDivisionError bg' A E) as [j [_ [_ [_ [Hmove _]]]]].
    exists bg'. split; [exact E |].
    split; [apply Hmove; left; change (4 <> - (4)); lra |].
    unfold session in S1. injection S1 as Sx Sy S1 S2.
    split; [exact S1 |]. split; [exact S2 |].
    rewrite Sx, Sy. apply xy_to_angles_pivot. apply reach_eq; lra.
Defined.

(** ** [pre_start_position] *)

Lemma unit_sign (d : R) :
  d <> 0 -> (0 < d /\ d / Rabs d = 1) \/ (d < 0 /\ d / Rabs d = -1).
Proof.
  intros Hd. destruct (Rlt_dec 0 d) as [Hp | Hn].
  - left. split; [exact Hp |]. rewrite Rabs_right by lra. field. lra.
  - right. assert (d < 0) by lra. split; [assumption |].
    rewrite Rabs_left by assumption. field. lra.
Qed.

(** X24: the point [pre_start_position] returns is half a unit from [start] on
    each axis on which [start] and [end] differ, on the side away from
    [end]: at distance 1/2 for a horizontal or vertical line,
    [sqrt 2 / 2] otherwise, and on the line through [start] and [end] only
    when that line is horizontal, vertical or diagonal. *)
Theorem pre_start_position_offset (start end_ : R * R) :
  let pre := pre_start_position start end_ in
  distance2 pre start
  = (if Reqb (fst start) (fst end_) then 0 else 1 / 4)
    + (if Reqb (snd start) (snd end_) then 0 else 1 / 4) /\
  0 <= (fst pre - fst start) * (fst start - fst end_) /\
  0 <= (snd pre - snd start) * (snd start - snd end_) /\
  ((fst pre - fst start) * (snd start - snd end_)
   = (snd pre - snd start) * (fst start - fst end_)
   <-> fst start = fst end_ \/ snd start = snd end_
       \/ Rabs (fst start - fst end_) = Rabs (snd start - snd end_)).
Proof.
  destruct start as [sx sy], end_ as [ex ey].
  unfold pre_start_position, distance2. cbn [fst snd]. cbv zeta.
  unfold Reqb.
  destruct (Req_dec_T (sx - ex) 0) as [X0 | X1];
    destruct (Req_dec_T sx ex) as [X0' | X1']; try lra;
    destruct (Req_dec_T (sy - ey) 0) as [Y0 | Y1];
    destruct (Req_dec_T sy ey) as [Y0' | Y1']; try lra; cbn [fst snd].
  - destruct (unit_sign _ Y1) as [[Sg E] | [Sg E]]; rewrite E;
      (split; [field |]); (split; [lra |]); (split; [nra |]);
      (split; [auto | intros _; rewrite X0; lra]).
  - destruct (unit_sign _ X1) as [[Sg E] | [Sg E]]; rewrite E;
      (split; [field |]); (split; [nra |]); (split; [lra |]);
      (split; [auto | intros _; rewrite Y0; lra]).
  - destruct (unit_sign _ X1) as [[Sx Ex] | [Sx Ex]];
      destruct (unit_sign _ Y1) as [[Sy Ey] | [Sy Ey]]; rewrite Ex, Ey;
      (split; [field |]); (split; [nra |]); (split; [nra |]);
      (split;
       [ intros H; right; right;
         first [ rewrite (Rabs_right (sx - ex)) by lra
               | rewrite (Rabs_left (sx - ex)) by lra ];
         first [ rewrite (Rabs_right (sy - ey)) by lra
               | rewrite (Rabs_left (sy - ey)) by lra ]; lra
       | intros [H | [H | H]]; [lra | lra |];
         revert H;
         first [ rewrite (Rabs_right (sx - ex)) by lra
               | rewrite (Rabs_left (sx - ex)) by lra ];
         first [ rewrite (Rabs_right (sy - ey)) by lra
               | rewrite (Rabs_left (sy - ey)) by lra ]; intros H; lra ]).
Qed.

(** ** The default calibration *)

Lemma set_angles_unfold (a1 a2 : R) (bg : BrachioGraph) :
  set_angles a1 a2 bg =
  match set_pulse_widths (angles_to_pw_1 bg a1) (angles_to_pw_2 bg a2) bg with
  | (Ok _, bg1) =>
      (Ok tt, with_angles a1 a2 (angles_to_pw_1 bg a1) (angles_to_pw_2 bg a2) bg1)
  | (Raise e, bg1) => (Raise e, bg1)
  end.
Proof.
  unfold set_angles. unfold bind at 1. unfold gets at 1.
  unfold angles_to_pulse_widths. unfold bind at 1.
  destruct (set_pulse_widths _ _ bg) as [[[] | e] bg1]; reflexivity.
Qed.

(** X25: with the default linear calibration, the angles of any reachable target
    give an elbow pulse-width between 600 and 2400, inside the band; the
    virtual plotter accepts them exactly when the shoulder angle is strictly
    between -190 and 10 degrees, and raises [ValueError] otherwise. *)
Theorem default_calibration_band (bg : BrachioGraph) (x y a1 a2 : R) :
  default_calibration bg -> virtual_mode bg = true ->
  xy_to_angles (INNER_ARM bg) (OUTER_ARM bg) x y = Ok (a1, a2) ->
  600 <= angles_to_pw_2 bg a2 <= 2400 /\
  (-190 < a1 < 10 -> fst (set_angles a1 a2 bg) = Ok tt) /\
  (~ (-190 < a1 < 10) -> fst (set_angles a1 a2 bg) = Raise ValueError).
Proof.
  intros [C1 C2] V A. destruct (xy_to_angles_bounds _ _ _ _ _ _ A) as [_ B2].
  assert (P1 : angles_to_pw_1 bg a1 = 600 - 10 * a1)
    by (rewrite C1; unfold naive_angles_to_pulse_widths_1; ring).
  assert (P2 : angles_to_pw_2 bg a2 = 600 + 10 * a2)
    by (rewrite C2; unfold naive_angles_to_pulse_widths_2; ring).
  split; [rewrite P2; lra |].
  rewrite set_angles_unfold.
  split; intros H.
  - rewrite set_pulse_widths_virtual_ok; [reflexivity | exact V | |];
      unfold in_band; lra.
  - rewrite set_pulse_widths_virtual_bad; [reflexivity | exact V |].
    unfold in_band. intros [[L1 L2] _]. apply H. lra.
Qed.

Lemma default_calibration_band_witness :
  600 <= angles_to_pw_2 (parked_plotter 8 8 None) 120 <= 2400 /\
  (-190 < -60 < 10 -> fst (set_angles (-60) 120 (parked_plotter 8 8 None)) = Ok tt) /\
  (~ (-190 < -60 < 10) ->
   fst (set_angles (-60) 120 (parked_plotter 8 8 None)) = Raise ValueError).
Proof.
  apply (default_calibration_band (parked_plotter 8 8 None) 0 8 (-60) 120).
  - split; reflexivity.
  - reflexivity.
  - exact angles_at_0_8.
Defined.

(** ** The constructor *)


(** X26: the virtual plotter as the constructor leaves it, for any arm lengths,
    calibration and pen pulse-widths: it is built without error, stands at
    ([-inner_arm], [outer_arm]) with the pen up after an up, a down and an
    up with three delays of 0.3 s, no angle or pulse-width is recorded and
    no command has gone to the arm, and the simulated pulse-widths that
    [get_pulse_widths] reports are those the calibration gives for -90 and
    90 degrees. *)
Theorem constructor_leaves_parked (inner_arm outer_arm : R)
  (vm force_vm : bool) (bounds : option Bounds)
  (fit_1 fit_2 : option (R -> R)) (z1 z2 d1 d2 pw_up pw_down : R) :
  vm || force_vm = true ->
  let built := init inner_arm outer_arm vm force_vm bounds
                    fit_1 fit_2 z1 z2 d1 d2 pw_up pw_down in
  fst built = Ok tt /\
  position (snd built) = (- inner_arm, outer_arm) /\
  virtual_pw (pen (snd built)) = Some pw_up /\
  angle_1 (snd built) = None /\ angle_2 (snd built) = None /\
  pulse_widths_used_1 (snd built) = [] /\ pulse_widths_used_2 (snd built) = [] /\
  events (snd built) = [Sleep (3 / 10); Sleep (3 / 10); Sleep (3 / 10)] /\
  fst (get_pulse_widths (snd built))
  = Ok (angles_to_pulse_widths (snd built) (-90) 90).
Proof.
  intros Vm built.
  assert (V : virtual_mode (snd built) = true)
    by (subst built; unfold init; rewrite Vm; cbn; reflexivity).
  assert (W1 : virtual_pw_1 (snd built) = angles_to_pw_1 (snd built) (-90))
    by (subst built; unfold init; rewrite Vm; cbn; reflexivity).
  assert (W2 : virtual_pw_2 (snd built) = angles_to_pw_2 (snd built) 90)
    by (subst built; unfold init; rewrite Vm; cbn; reflexivity).
  assert (F : fst built = Ok tt)
    by (subst built; unfold init; rewrite Vm; cbn; reflexivity).
  assert (Q : position (snd built) = (- inner_arm, outer_arm))
    by (subst built; unfold init; rewrite Vm; cbn; reflexivity).
  assert (Pn : virtual_pw (pen (snd built)) = Some pw_up)
    by (subst built; unfold init; rewrite Vm; cbn; reflexivity).
  assert (A1 : angle_1 (snd built) = None)
    by (subst built; unfold init; rewrite Vm; cbn; reflexivity).
  assert (A2 : angle_2 (snd built) = None)
    by (subst built; unfold init; rewrite Vm; cbn; reflexivity).
  assert (U1 : pulse_widths_used_1 (snd built) = [])
    by (subst built; unfold init; rewrite Vm; cbn; reflexivity).
  assert (U2 : pulse_widths_used_2 (snd built) = [])
    by (subst built; unfold init; rewrite Vm; cbn; reflexivity).
  assert (Ev : events (snd built)
               = [Sleep (3 / 10); Sleep (3 / 10); Sleep (3 / 10)])
    by (subst built; unfold init; rewrite Vm; cbn; reflexivity).
  clearbody built.
  repeat (split; [assumption |]).
  rewrite get_pulse_widths_state, V, W1, W2. reflexivity.
Qed.

Lemma constructor_leaves_parked_witness :
  fst (default_plotter 4 3 None) = Ok tt /\
  position (snd (default_plotter 4 3 None)) = (- (4), 3) /\
  virtual_pw (pen (snd (default_plotter 4 3 None))) = Some 1500 /\
  angle_1 (snd (default_plotter 4 3 None)) = None /\
  angle_2 (snd (default_plotter 4 3 None)) = None /\
  pulse_widths_used_1 (snd (default_plotter 4 3 None)) = [] /\
  pulse_widths_used_2 (snd (default_plotter 4 3 None)) = [] /\
  events (snd (default_plotter 4 3 None))
  = [Sleep (3 / 10); Sleep (3 / 10); Sleep (3 / 10)] /\
  fst (get_pulse_widths (snd (default_plotter 4 3 None)))
  = Ok (angles_to_pulse_widths (snd (default_plotter 4 3 None)) (-90) 90).
Proof.
  exact (constructor_leaves_parked 4 3 true false None None None
           1500 1500 (-10) 10 1500 1100 eq_refl).
Defined.

(** ** Where the fitted points lie *)

(** X9: for a drawing with extent on both axes whose point objects are all
    distinct, the LineFitter stage completes and leaves every point with
    its [y] inside the bounds, and its [x] inside the bounds when it was not
    negated, inside the bounds mirrored about the y axis when it was. *)
Theorem line_fitter_placement (h : heap) (lines : Drawing)
  (min_x max_x min_y max_y b0 b1 b2 b3 : R) (flip : bool) :
  bounding_box h lines = Ok (min_x, max_x, min_y, max_y) ->
  min_x < max_x -> min_y < max_y -> b0 < b2 -> b1 < b3 ->
  NoDup (concat lines) ->
  exists f h', line_fitter lines flip (b0, b1, b2, b3) h = (Ok f, h') /\
    forall p, In p (concat lines) ->
      b1 <= snd (h' p) <= b3 /\
      (if xorb flip (rotate f)
       then - b2 <= fst (h' p) <= - b0
       else b0 <= fst (h' p) <= b2).
Proof.
  intros E Hx Hy Hbx Hby ND.
  assert (PB : proper_bounds (b0, b1, b2, b3)) by (cbn; lra).
  destruct (divider_pos _ _ _ _ _ _ _ E PB (or_introl Hx)) as [f [EF Hd]].
  assert (Hd' : divider f <> 0) by lra.
  destruct (line_fitter_spec _ _ flip _ _ EF Hd' ND) as [h' [E' [Hin _]]].
  exists f, h'. split; [exact E' |].
  intros p Hp. rewrite (Hin p Hp).
  pose proof (fitted_contained _ _ _ _ _ _ (b0, b1, b2, b3) f flip p
                E Hx Hy PB EF Hp) as [Cy [Cx Cn]].
  split; [exact Cy |].
  destruct (xorb flip (rotate f)); [apply Cn | apply Cx]; reflexivity.
Qed.

Lemma line_fitter_placement_witness :
  exists f h',
    line_fitter one_line true (1, 1, 5, 3) (two_points (0, 0) (2, 1)) = (Ok f, h') /\
    forall p, In p (concat one_line) ->
      1 <= snd (h' p) <= 3 /\
      (if xorb true (rotate f)
       then - (5) <= fst (h' p) <= - (1)
       else 1 <= fst (h' p) <= 5).
Proof.
  apply (line_fitter_placement (two_points (0, 0) (2, 1)) one_line 0 2 0 1 1 1 5 3 true).
  - apply bounding_box_increasing; lra.
  - lra.
  - lra.
  - lra.
  - lra.
  - cbn. repeat constructor; cbn; intuition discriminate.
Defined.

(** ** [angles_to_xy] at the fold *)




(** ** The constructor in real mode *)

(** X27: in real mode the constructor cannot finish, whatever its other
    arguments: [Pen.__init__] assigns [virtual_mode] on the pen in virtual
    mode only, and the [up] it then calls reads it.  When [AttributeError]
    is raised the PWM frequency of the three pins has been set and no
    pulse-width has been sent to a servo. *)
Theorem constructor_fails_in_real_mode (inner_arm outer_arm : R)
  (bounds : option Bounds) (fit_1 fit_2 : option (R -> R))
  (z1 z2 d1 d2 pw_up pw_down : R) :
  let built := init inner_arm outer_arm false false bounds fit_1 fit_2
                    z1 z2 d1 d2 pw_up pw_down in
  fst built = Raise AttributeError /\
  events (snd built) = [PWMFrequency 18 50; PWMFrequency 15 50; PWMFrequency 14 50] /\
  pen_virtual_mode (pen (snd built)) = None /\
  forall draw, fst (pen_move draw (snd built)) = Raise AttributeError.
Proof.
  cbv zeta. split; [reflexivity |]. split; [reflexivity |]. split; [reflexivity |].
  intros [|]; reflexivity.
Qed.

(** ** Moves that complete *)

Lemma asin_nonpos (v : R) : -1 <= v <= 0 -> asin v <= 0.
Proof.
  intros Hv. pose proof (asin_bound v) as [L U]. pose proof PI_RGT_0 as P.
  destruct (Rle_dec (asin v) 0) as [| N]; [assumption | exfalso].
  assert (S : 0 < sin (asin v)) by (apply sin_gt_0; lra).
  rewrite sin_asin in S by lra. lra.
Qed.

Lemma acos_acute (v : R) : 0 < v <= 1 -> acos v < PI / 2.
Proof.
  intros Hv. pose proof (acos_bound v) as [L U]. pose proof PI_RGT_0 as P.
  destruct (Rlt_dec (acos v) (PI / 2)) as [| N]; [assumption | exfalso].
  assert (C : cos (acos v) <= 0) by (apply cos_le_0; lra).
  rewrite cos_acos in C by lra. lra.
Qed.

(** With the inner arm at least as long as the outer one, a reachable
    target on or left of the y axis has its shoulder angle in (-180, 0]. *)
Lemma left_point_angles (INNER OUTER x y : R) :
  0 < OUTER <= INNER -> x <= 0 ->
  Rabs (INNER - OUTER) < reach x y -> reach x y < INNER + OUTER ->
  exists a1 a2, xy_to_angles INNER OUTER x y = Ok (a1, a2) /\
                -180 < a1 <= 0 /\ 0 <= a2 <= 180.
Proof.
  intros [HO HIO] Hx Hl Hu.
  assert (HI : 0 < INNER) by lra.
  pose proof (annulus_pos INNER OUTER _ Hl) as Hh.
  pose proof (xy_to_angles_inside INNER OUTER HI HO x y Hl Hu) as E.
  destruct (xy_to_angles_bounds _ _ _ _ _ _ E) as [_ B2].
  eexists. eexists. split; [exact E |]. split; [| exact B2].
  pose proof (inner_cos_inside INNER OUTER _ Hl Hu) as [_ Ic1].
  assert (Ic0 : 0 < inner_cos INNER OUTER (reach x y)).
  { unfold inner_cos.
    assert (D : 0 <= (INNER - OUTER) * (INNER + OUTER))
      by (apply Rmult_le_pos; lra).
    assert (H2 : 0 < reach x y * reach x y) by (apply Rmult_lt_0_compat; lra).
    assert (HI2 : 0 < reach x y * INNER) by (apply Rmult_lt_0_compat; lra).
    apply Rdiv_lt_0_compat; [| nra].
    replace (reach x y ^ 2 + INNER ^ 2 - OUTER ^ 2)
      with (reach x y * reach x y + (INNER - OUTER) * (INNER + OUTER)) by ring.
    lra. }
  pose proof (x_over_reach x y Hh) as [Q1 _].
  assert (Q0 : x / reach x y <= 0).
  { apply Rmult_le_reg_r with (reach x y); [exact Hh |].
    unfold Rdiv. rewrite Rmult_assoc, Rinv_l by lra. lra. }
  pose proof (asin_nonpos (x / reach x y) ltac:(lra)) as As.
  pose proof (asin_bound (x / reach x y)) as [Al _].
  pose proof (acos_acute (inner_cos INNER OUTER (reach x y)) ltac:(lra)) as Ac.
  pose proof (acos_bound (inner_cos INNER OUTER (reach x y))) as [Ac0 _].
  pose proof PI_RGT_0 as P. unfold math.degrees.
  assert (K : 180 / PI * PI = 180) by (field; lra).
  assert (T : 0 < 180 / PI) by (apply Rdiv_lt_0_compat; lra).
  split; nra.
Qed.

(** Such a target passes the band test of the default calibration. *)
Lemma left_point_in_band (bg : BrachioGraph) (x y : R) :
  default_calibration bg -> 0 < OUTER_ARM bg <= INNER_ARM bg -> x <= 0 ->
  Rabs (INNER_ARM bg - OUTER_ARM bg) < reach x y ->
  reach x y < INNER_ARM bg + OUTER_ARM bg ->
  exists a1 a2, xy_to_angles (INNER_ARM bg) (OUTER_ARM bg) x y = Ok (a1, a2) /\
                in_band (angles_to_pw_1 bg a1) /\ in_band (angles_to_pw_2 bg a2).
Proof.
  intros [C1 C2] HA Hx Hl Hu.
  destruct (left_point_angles _ _ x y HA Hx Hl Hu) as [a1 [a2 [E [B1 B2]]]].
  exists a1, a2. split; [exact E |]. rewrite C1, C2.
  unfold in_band, naive_angles_to_pulse_widths_1, naive_angles_to_pulse_widths_2.
  split; lra.
Qed.

Lemma xy_step_succeeds (length wait : R) (n : Z) (lsx lsy : R) (step : Z)
  (bg : BrachioGraph) (a1 a2 : R) :
  virtual_mode bg = true -> n <> 0%Z ->
  xy_to_angles (INNER_ARM bg) (OUTER_ARM bg) (current_x bg + lsx) (current_y bg + lsy)
    = Ok (a1, a2) ->
  in_band (angles_to_pw_1 bg a1) -> in_band (angles_to_pw_2 bg a2) ->
  exists bg', xy_step length wait n lsx lsy step bg = (Ok tt, bg').
Proof.
  intros V Hn A B1 B2. rewrite xy_step_unfold, A. cbv zeta.
  rewrite set_pulse_widths_virtual_ok by (assumption || exact V).
  rewrite truediv_ok by (apply not_0_IZR; exact Hn).
  destruct (Z.ltb (step + 1) n); eexists; reflexivity.
Qed.

(** The loop completes when every position it steps through converts to
    angles whose pulse-widths are inside the band. *)
Lemma xy_loop_succeeds (length wait : R) (n : Z) (lsx lsy : R) (l : list Z) :
  forall bg,
  virtual_mode bg = true -> n <> 0%Z ->
  (forall j : nat, (1 <= j <= List.length l)%nat ->
     exists a1 a2,
       xy_to_angles (INNER_ARM bg) (OUTER_ARM bg)
                    (current_x bg + INR j * lsx) (current_y bg + INR j * lsy)
         = Ok (a1, a2) /\
       in_band (angles_to_pw_1 bg a1) /\ in_band (angles_to_pw_2 bg a2)) ->
  exists bg', for_each l (xy_step length wait n lsx lsy) bg = (Ok tt, bg').
Proof.
  induction l as [| step l IH]; intros bg V Hn H.
  - eexists. reflexivity.
  - destruct (H 1%nat) as [a1 [a2 [A [B1 B2]]]]; [cbn [List.length]; lia |].
    replace (current_x bg + INR 1 * lsx) with (current_x bg + lsx) in A
      by (cbn [INR]; ring).
    replace (current_y bg + INR 1 * lsy) with (current_y bg + lsy) in A
      by (cbn [INR]; ring).
    destruct (xy_step_succeeds length wait n lsx lsy step bg a1 a2 V Hn A B1 B2)
      as [bg1 S1].
    pose proof (machine_xy_step length wait n lsx lsy step bg) as K.
    pose proof (xy_step_position length wait n lsx lsy step bg) as [Px Py].
    rewrite S1 in K, Px, Py. cbn [snd] in K, Px, Py.
    destruct (machine_same _ _ K) as [KI [KO [KV [K1 [K2 _]]]]].
    destruct (IH bg1) as [bg' E]; [congruence | exact Hn | |].
    + intros j Hj. rewrite KI, KO, K1, K2, Px, Py.
      destruct (H (S j)) as [b1 [b2 [A' B']]]; [cbn [List.length]; lia |].
      exists b1, b2. split; [| exact B'].
      rewrite (S_INR j) in A'.
      replace (current_x bg + lsx + INR j * lsx)
        with (current_x bg + (INR j + 1) * lsx) by ring.
      replace (current_y bg + lsy + INR j * lsy)
        with (current_y bg + (INR j + 1) * lsy) by ring.
      exact A'.
    + exists bg'. cbn [for_each]. unfold bind. rewrite S1. exact E.
Qed.

(** [xy] completes, in virtual mode and for a non-negative [interpolate],
    when every position on the way, the target included, converts to angles
    whose pulse-widths are inside the band. *)
Lemma xy_completes (x y wait interpolate : R) (draw : bool) (bg : BrachioGraph) :
  pen_virtual_mode (pen bg) = Some true -> virtual_mode bg = true ->
  0 <= interpolate ->
  (forall t : R, 0 < t <= 1 ->
     exists a1 a2,
       xy_to_angles (INNER_ARM bg) (OUTER_ARM bg)
                    (current_x bg + t * (x - current_x bg))
                    (current_y bg + t * (y - current_y bg)) = Ok (a1, a2) /\
       in_band (angles_to_pw_1 bg a1) /\ in_band (angles_to_pw_2 bg a2)) ->
  exists bg', xy x y wait interpolate draw bg = (Ok tt, bg') /\
              machine bg' = machine bg /\ position bg' = (x, y) /\
              pen bg' = pen (pen_set draw bg).
Proof.
  intros P V Hi H.
  assert (E : exists bg', xy x y wait interpolate draw bg = (Ok tt, bg')).
  { destruct (H 1 ltac:(lra)) as [a1 [a2 [A _]]].
    replace (current_x bg + 1 * (x - current_x bg)) with x in A by ring.
    replace (current_y bg + 1 * (y - current_y bg)) with y in A by ring.
    rewrite xy_unfold, A by assumption. cbv zeta.
    match goal with
    | |- context [if ?c then _ else _] => destruct c
    end; [eexists; reflexivity |].
    rewrite xy_interpolate_unfold. cbv zeta.
    change (current_x (pen_set draw bg)) with (current_x bg).
    change (current_y (pen_set draw bg)) with (current_y bg).
    set (len := sqrt ((x - current_x bg) ^ 2 + (y - current_y bg) ^ 2)).
    set (n := no_of_steps len interpolate).
    assert (Hn : (1 <= n)%Z).
    { apply no_of_steps_pos. apply Rmult_le_pos; [apply sqrt_pos | exact Hi]. }
    assert (Npos : 1 <= IZR n) by (apply IZR_le; exact Hn).
    destruct (xy_loop_succeeds len wait n ((x - current_x bg) / IZR n)
                ((y - current_y bg) / IZR n) (range n) (pen_set draw bg))
      as [bg2 L]; [exact V | lia | |].
    - intros j Hj. rewrite length_range in Hj.
      assert (J1 : 1 <= INR j) by (apply (le_INR 1); lia).
      assert (J2 : INR j <= IZR n).
      { rewrite <- (Z2Nat.id n) by lia. rewrite <- INR_IZR_INZ.
        apply le_INR. lia. }
      destruct (H (INR j / IZR n)) as [b1 [b2 [A' B']]].
      { split; [apply Rdiv_lt_0_compat; lra |].
        apply Rmult_le_reg_r with (IZR n); [lra |].
        unfold Rdiv. rewrite Rmult_assoc, Rinv_l by lra. lra. }
      exists b1, b2. split; [| exact B'].
      change (INNER_ARM (pen_set draw bg)) with (INNER_ARM bg).
      change (OUTER_ARM (pen_set draw bg)) with (OUTER_ARM bg).
      change (current_x (pen_set draw bg)) with (current_x bg).
      change (current_y (pen_set draw bg)) with (current_y bg).
      replace (current_x bg + INR j * ((x - current_x bg) / IZR n))
        with (current_x bg + INR j / IZR n * (x - current_x bg)) by (field; lra).
      replace (current_y bg + INR j * ((y - current_y bg) / IZR n))
        with (current_y bg + INR j / IZR n * (y - current_y bg)) by (field; lra).
      exact A'.
    - unfold bind. rewrite L. unfold sleep, modify. eexists. reflexivity. }
  destruct E as [bg' E]. exists bg'. split; [exact E |].
  pose proof (machine_xy x y wait interpolate draw bg) as K.
  pose proof (xy_pen x y wait interpolate draw bg P) as Kp.
  rewrite E in K, Kp. cbn [snd] in K, Kp.
  split; [exact K |]. split; [| exact Kp].
  exact (xy_position x y wait interpolate draw bg bg' Hi E).
Qed.

(** The part of the plane left of [x = - m] and inside the reach is convex
    and, for [m] above the difference of the arms, free of the hole around
    the pivot: a move between two of its points stays in it. *)
Lemma left_region_convex (m r cx cy x y t : R) :
  0 < m -> 0 < r ->
  cx <= - m -> cx ^ 2 + cy ^ 2 < r ^ 2 ->
  x <= - m -> x ^ 2 + y ^ 2 < r ^ 2 ->
  0 <= t <= 1 ->
  cx + t * (x - cx) <= - m /\
  m <= reach (cx + t * (x - cx)) (cy + t * (y - cy)) < r.
Proof.
  intros Hm Hr C1 C2 T1 T2 [Ht0 Ht1].
  set (px := cx + t * (x - cx)). set (py := cy + t * (y - cy)).
  assert (Px : px <= - m) by (unfold px; nra).
  assert (N : px ^ 2 + py ^ 2 < r ^ 2).
  { assert (I : px ^ 2 + py ^ 2
                = (1 - t) * (cx ^ 2 + cy ^ 2) + t * (x ^ 2 + y ^ 2)
                  - t * (1 - t) * ((x - cx) ^ 2 + (y - cy) ^ 2))
      by (unfold px, py; ring).
    assert (D : 0 <= t * (1 - t) * ((x - cx) ^ 2 + (y - cy) ^ 2)).
    { apply Rmult_le_pos; [apply Rmult_le_pos; lra |].
      apply Rplus_le_le_0_compat; apply pow2_ge_0. }
    rewrite I.
    set (a := cx ^ 2 + cy ^ 2) in *. set (b := x ^ 2 + y ^ 2) in *.
    set (d := t * (1 - t) * ((x - cx) ^ 2 + (y - cy) ^ 2)) in *.
    assert (M1 : 0 <= (1 - t) * (r ^ 2 - a)) by (apply Rmult_le_pos; lra).
    assert (M2 : 0 <= t * (r ^ 2 - b)) by (apply Rmult_le_pos; lra).
    destruct (Rle_dec t (1 / 2)) as [Hs | Hs].
    - assert (M3 : (1 / 2) * (r ^ 2 - a) <= (1 - t) * (r ^ 2 - a))
        by (apply Rmult_le_compat_r; lra).
      lra.
    - assert (M3 : (1 / 2) * (r ^ 2 - b) <= t * (r ^ 2 - b))
        by (apply Rmult_le_compat_r; lra).
      lra. }
  pose proof (reach_sq px py) as Sq. pose proof (reach_nonneg px py) as Nn.
  assert (Py : 0 <= py ^ 2) by apply pow2_ge_0.
  assert (M2 : m * m <= px * px) by nra.
  split; [exact Px |]. split.
  - destruct (Rle_dec m (reach px py)) as [| Hlt]; [assumption | exfalso].
    assert (L : reach px py * reach px py < m * m).
    { apply Rle_lt_trans with (reach px py * m).
      - apply Rmult_le_compat_l; lra.
      - apply Rmult_lt_compat_r; lra. }
    nra.
  - destruct (Rlt_dec (reach px py) r) as [| Hge]; [assumption | exfalso].
    assert (L : r * r <= reach px py * reach px py).
    { apply Rle_trans with (r * reach px py).
      - apply Rmult_le_compat_l; lra.
      - apply Rmult_le_compat_r; lra. }
    nra.
Qed.

(** With the default calibration, on a virtual plotter whose inner arm is
    at least as long as the outer one, a move between two positions left of
    [x = - m], for [m] above the difference of the arms, and inside the
    reach completes and ends at its target. *)
Lemma xy_completes_left (m x y wait interpolate : R) (draw : bool)
  (bg : BrachioGraph) :
  pen_virtual_mode (pen bg) = Some true -> virtual_mode bg = true ->
  default_calibration bg -> 0 < OUTER_ARM bg <= INNER_ARM bg ->
  INNER_ARM bg - OUTER_ARM bg < m -> 0 < m ->
  0 <= interpolate ->
  current_x bg <= - m ->
  current_x bg ^ 2 + current_y bg ^ 2 < (INNER_ARM bg + OUTER_ARM bg) ^ 2 ->
  x <= - m -> x ^ 2 + y ^ 2 < (INNER_ARM bg + OUTER_ARM bg) ^ 2 ->
  exists bg', xy x y wait interpolate draw bg = (Ok tt, bg') /\
              machine bg' = machine bg /\ position bg' = (x, y) /\
              pen bg' = pen (pen_set draw bg).
Proof.
  intros P V C HA Hm Hm0 Hi C1 C2 T1 T2.
  apply xy_completes; try assumption.
  intros t Ht.
  destruct (left_region_convex m (INNER_ARM bg + OUTER_ARM bg)
              (current_x bg) (current_y bg) x y t) as [Px [Pl Pu]];
    try assumption; try lra.
  apply left_point_in_band; try assumption; try lra.
  rewrite Rabs_right by lra. lra.
Qed.

(** ** Runs on a plotter with arms 4 and 3 *)

Lemma parked_at_rest (i o : R) (b : option Bounds) :
  0 < i -> 0 < o -> at_rest (parked_plotter i o b).
Proof. intros Hi Ho. unfold at_rest. cbn. repeat split; assumption. Qed.

Lemma small_plotter_kept (bg bg' : BrachioGraph) :
  machine bg' = machine bg -> small_plotter bg -> small_plotter bg'.
Proof.
  intros M [P [V [EI [EO [C1 C2]]]]].
  destruct (machine_same _ _ M) as [KI [KO [KV [K1 [K2 KP]]]]].
  unfold small_plotter, default_calibration.
  rewrite KI, KO, KV, K1, K2, KP. auto 10.
Qed.

Lemma reach_bounds (lo hi x y : R) :
  0 <= lo -> 0 < hi -> lo ^ 2 <= x ^ 2 + y ^ 2 -> x ^ 2 + y ^ 2 < hi ^ 2 ->
  lo <= reach x y < hi.
Proof.
  intros Hlo Hhi L U.
  pose proof (reach_sq x y) as Sq. pose proof (reach_nonneg x y) as Nn.
  split.
  - destruct (Rle_dec lo (reach x y)) as [| N]; [assumption | exfalso].
    assert (T : reach x y * reach x y < lo * lo).
    { apply Rle_lt_trans with (reach x y * lo).
      - apply Rmult_le_compat_l; lra.
      - apply Rmult_lt_compat_r; lra. }
    nra.
  - destruct (Rlt_dec (reach x y) hi) as [| N]; [assumption | exfalso].
    assert (T : hi * hi <= reach x y * reach x y).
    { apply Rle_trans with (hi * reach x y).
      - apply Rmult_le_compat_l; lra.
      - apply Rmult_le_compat_r; lra. }
    nra.
Qed.

(** The elbow is at 90 degrees only at the distance of the parked
    position. *)
Lemma elbow_right_angle (INNER OUTER x y a1 a2 : R) :
  0 < INNER -> 0 < OUTER ->
  Rabs (INNER - OUTER) < reach x y -> reach x y < INNER + OUTER ->
  xy_to_angles INNER OUTER x y = Ok (a1, a2) -> a2 = 90 ->
  x ^ 2 + y ^ 2 = INNER ^ 2 + OUTER ^ 2.
Proof.
  intros HI HO Hl Hu E H90.
  rewrite (xy_to_angles_inside INNER OUTER HI HO x y Hl Hu) in E.
  injection E as _ E2. rewrite H90 in E2. unfold math.degrees in E2.
  pose proof PI_RGT_0 as P.
  pose proof (outer_cos_inside INNER OUTER _ Hl Hu) as Oc.
  set (oc := outer_cos INNER OUTER (reach x y)) in *.
  assert (A : acos oc = PI / 2).
  { assert (K : PI - acos oc = (PI - acos oc) * (180 / PI) * (PI / 180))
      by (field; lra).
    rewrite E2 in K. lra. }
  assert (C : oc = 0) by (rewrite <- (cos_acos oc), A by lra; apply cos_PI2).
  unfold oc, outer_cos in C.
  assert (N : INNER ^ 2 + OUTER ^ 2 - reach x y ^ 2
              = (INNER ^ 2 + OUTER ^ 2 - reach x y ^ 2) / (2 * INNER * OUTER)
                * (2 * INNER * OUTER)) by (field; lra).
  rewrite C in N. rewrite reach_sq in N. lra.
Qed.

Lemma int_small (r : R) : 0 <= r < 1 -> int r = 0%Z.
Proof.
  intros [L U]. unfold int. destruct (Rle_dec 0 r); [| contradiction].
  symmetry. apply Int_part_spec. cbn. lra.
Qed.

Lemma no_of_steps_small (length interpolate : R) :
  0 <= length * interpolate < 1 -> no_of_steps length interpolate = 1%Z.
Proof. intros H. unfold no_of_steps. rewrite int_small by exact H. reflexivity. Qed.

(** A move of one step on such a plotter, to a target left of [x = -2] and
    inside the reach: the pulse-widths differ from the recorded ones, the
    step passes the band test, and one command is sent. *)
Lemma one_step_43 (x y wait interpolate : R) (draw : bool) (bg : BrachioGraph) :
  small_plotter bg ->
  x <= -2 -> x ^ 2 + y ^ 2 < 49 ->
  no_of_steps (sqrt ((x - current_x bg) ^ 2 + (y - current_y bg) ^ 2)) interpolate
    = 1%Z ->
  virtual_pw_1 bg <= 500 \/ (x ^ 2 + y ^ 2 <> 25 /\ virtual_pw_2 bg = 1500) ->
  exists bg',
    xy x y wait interpolate draw bg = (Ok tt, bg') /\
    small_plotter bg' /\
    current_x bg' = x /\ current_y bg' = y /\
    virtual_pw_1 bg' <= 500 /\
    List.length (arm_commands bg') = S (List.length (arm_commands bg)).
Proof.
  intros Sm Tx Tr N1 Hd. pose proof Sm as [P [V [EI [EO [C1 C2]]]]].
  assert (Rb : 2 <= reach x y < 7) by (apply reach_bounds; nra).
  assert (Hl : Rabs (4 - 3) < reach x y).
  { replace (4 - 3) with 1 by ring. rewrite Rabs_R1. lra. }
  assert (Hu : reach x y < 4 + 3) by lra.
  destruct (left_point_angles 4 3 x y ltac:(lra) ltac:(lra) Hl Hu)
    as [a1 [a2 [A [B1 B2]]]].
  assert (P1 : angles_to_pw_1 bg a1 = 600 - 10 * a1)
    by (rewrite C1; unfold naive_angles_to_pulse_widths_1; ring).
  assert (P2 : angles_to_pw_2 bg a2 = 600 + 10 * a2)
    by (rewrite C2; unfold naive_angles_to_pulse_widths_2; ring).
  assert (Hne : angles_to_pw_1 bg a1 <> virtual_pw_1 bg
                \/ angles_to_pw_2 bg a2 <> virtual_pw_2 bg).
  { destruct Hd as [Hd | [Hd1 Hd2]].
    - left. rewrite P1. lra.
    - right. rewrite P2, Hd2. intros H.
      apply Hd1. replace 25 with (4 ^ 2 + 3 ^ 2) by ring.
      apply (elbow_right_angle 4 3 x y a1 a2); try assumption; lra. }
  assert (A' : xy_to_angles (INNER_ARM bg) (OUTER_ARM bg) x y = Ok (a1, a2))
    by (rewrite EI, EO; exact A).
  assert (I1 : in_band (angles_to_pw_1 bg a1))
    by (rewrite P1; unfold in_band; lra).
  assert (I2 : in_band (angles_to_pw_2 bg a2))
    by (rewrite P2; unfold in_band; lra).
  destruct (xy_one_step x y wait interpolate draw bg a1 a2 P V A' Hne N1 I1 I2)
    as [bg' [E [_ [X1 [Y1 [_ [_ [W1 [_ Cm]]]]]]]]].
  exists bg'. split; [exact E |].
  pose proof (machine_xy x y wait interpolate draw bg) as K.
  rewrite E in K. cbn [snd] in K.
  split; [exact (small_plotter_kept _ _ K Sm) |].
  split; [exact X1 |]. split; [exact Y1 |]. split.
  - rewrite W1, P1, C1. unfold naive_angles_to_pulse_widths_1. lra.
  - rewrite Cm. reflexivity.
Qed.

Lemma small_plotter_parked (b : option Bounds) :
  at_rest (parked_plotter 4 3 b) /\ small_plotter (parked_plotter 4 3 b) /\
  current_x (parked_plotter 4 3 b) = - (4) /\ current_y (parked_plotter 4 3 b) = 3 /\
  virtual_pw_2 (parked_plotter 4 3 b) = 1500 /\
  arm_commands (parked_plotter 4 3 b) = [] /\
  bounds (parked_plotter 4 3 b) = b.
Proof.
  split; [apply parked_at_rest; lra |].
  split; [unfold small_plotter, default_calibration; repeat split; reflexivity |].
  repeat split; try reflexivity.
  cbn. unfold naive_angles_to_pulse_widths_2. lra.
Qed.

(** The states the short-circuit leaves. *)
Lemma positioned_frame (x y : R) (draw : bool) (bg : BrachioGraph) :
  machine (positioned x y (pen_set draw bg)) = machine bg /\
  virtual_pw_1 (positioned x y (pen_set draw bg)) = virtual_pw_1 bg /\
  virtual_pw_2 (positioned x y (pen_set draw bg)) = virtual_pw_2 bg /\
  current_x (positioned x y (pen_set draw bg)) = x /\
  current_y (positioned x y (pen_set draw bg)) = y /\
  arm_commands (positioned x y (pen_set draw bg)) = arm_commands bg.
Proof. repeat split; reflexivity. Qed.

Lemma xy_reaches_target_witness :
  exists bg',
    xy (-2) 3 (1 / 10) 1 false (parked_plotter 4 3 None) = (Ok tt, bg') /\
    (current_x bg' = -2 /\ current_y bg' = 3) /\
    List.length (arm_commands bg') = 2%nat.
Proof.
  destruct (small_plotter_parked None) as [_ [Sm [X0 [Y0 [W2 [C0 _]]]]]].
  remember (parked_plotter 4 3 None) as bg0 eqn:Hbg0 in *.
  pose proof Sm as [P [V [EI [EO C]]]].
  destruct (xy_completes_left 2 (-2) 3 (1 / 10) 1 false bg0)
    as [bg' [E _]]; try assumption; rewrite ?EI, ?EO, ?X0, ?Y0; try lra.
  exists bg'. split; [exact E |].
  split; [apply (xy_reaches_target (-2) 3 (1 / 10) 1 false bg0 bg'); [lra | exact E] |].
  assert (Rb : 2 <= reach (-2) 3 < 7) by (apply reach_bounds; lra).
  assert (Hl : Rabs (4 - 3) < reach (-2) 3).
  { replace (4 - 3) with 1 by ring. rewrite Rabs_R1. lra. }
  destruct (left_point_angles 4 3 (-2) 3 ltac:(lra) ltac:(lra) Hl ltac:(lra))
    as [a1 [a2 [A _]]].
  assert (Hne : angles_to_pw_1 bg0 a1 <> virtual_pw_1 bg0
                \/ angles_to_pw_2 bg0 a2 <> virtual_pw_2 bg0).
  { right. rewrite W2. destruct C as [_ C2]. rewrite C2.
    unfold naive_angles_to_pulse_widths_2. intros H.
    assert (H90 : a2 = 90) by lra.
    pose proof (elbow_right_angle 4 3 (-2) 3 a1 a2 ltac:(lra) ltac:(lra) Hl
                  ltac:(lra) A H90). lra. }
  assert (A' : xy_to_angles (INNER_ARM bg0) (OUTER_ARM bg0) (-2) 3 = Ok (a1, a2))
    by (rewrite EI, EO; exact A).
  destruct (xy_stepped_facts (-2) 3 (1 / 10) 1 false bg0 bg' a1 a2 P V ltac:(lra)
              A' Hne E) as [_ [_ [_ [_ Cn]]]].
  rewrite Cn, C0, X0, Y0. cbn [List.length Nat.add].
  rewrite (sqrt_eq _ 2) by (try lra; ring).
  rewrite (no_of_steps_exact 2 1 2) by (try lia; ring). reflexivity.
Defined.


Lemma draw_line_ends_witness :
  exists bg',
    draw_line (-3, 3) (-3, 4) (1 / 10) (1 / 2) false (parked_plotter 4 3 None)
      = (Ok tt, bg') /\
    ((current_x bg', current_y bg') = (-3, 4) /\
     virtual_pw (pen bg') = Some (pw_down (pen bg'))) /\
    List.length (arm_commands bg') = 2%nat.
Proof.
  destruct (small_plotter_parked None) as [_ [Sm [X0 [Y0 [W2 [C0 _]]]]]].
  remember (parked_plotter 4 3 None) as bg0 eqn:Hbg0 in *.
  pose proof Sm as [P _].
  assert (N0 : no_of_steps (sqrt ((-3 - current_x bg0) ^ 2 + (3 - current_y bg0) ^ 2))
                 (1 / 2) = 1%Z).
  { rewrite X0, Y0. rewrite (sqrt_eq _ 1) by (try lra; ring).
    apply no_of_steps_small. lra. }
  destruct (one_step_43 (-3) 3 (1 / 10) (1 / 2) false bg0 Sm ltac:(lra) ltac:(lra) N0)
    as [bg1 [E1 [S1 [X1 [Y1 [W1 C1]]]]]]; [right; split; [lra | exact W2] |].
  assert (N1 : no_of_steps (sqrt ((-3 - current_x bg1) ^ 2 + (4 - current_y bg1) ^ 2))
                 (1 / 2) = 1%Z).
  { rewrite X1, Y1. rewrite (sqrt_eq _ 1) by (try lra; ring).
    apply no_of_steps_small. lra. }
  destruct (one_step_43 (-3) 4 (1 / 10) (1 / 2) true bg1 S1 ltac:(lra) ltac:(lra) N1)
    as [bg2 [E2 [_ [_ [_ [_ C2]]]]]]; [left; exact W1 |].
  assert (E : draw_line (-3, 3) (-3, 4) (1 / 10) (1 / 2) false bg0 = (Ok tt, bg2)).
  { unfold draw_line. unfold bind at 1. unfold ret at 1.
    unfold bind at 1. rewrite E1. exact E2. }
  exists bg2. split; [exact E |].
  split; [exact (draw_line_ends (-3, 3) (-3, 4) (1 / 10) (1 / 2) false bg0 bg2
                   ltac:(lra) P E) |].
  rewrite C2, C1, C0. reflexivity.
Defined.

(** [park] on such a plotter that stands at the parked position with
    other pulse-widths recorded: a stepped move of no length. *)
Lemma park_in_place_43 (bg : BrachioGraph) :
  small_plotter bg ->
  current_x bg = - (4) -> current_y bg = 3 -> virtual_pw_1 bg <= 500 ->
  exists bg',
    park bg = (Ok tt, bg') /\
    List.length (arm_commands bg') = S (List.length (arm_commands bg)).
Proof.
  intros Sm X0 Y0 W1. pose proof Sm as [P [V [EI [EO C]]]].
  unfold park. unfold bind at 1.
  assert (U : PenM.up bg = (Ok tt, pen_set false bg))
    by exact (pen_virtual false bg P).
  rewrite U. unfold bind at 1. unfold gets at 1. unfold bind at 1. unfold gets at 1.
  change (INNER_ARM (pen_set false bg)) with (INNER_ARM bg).
  change (OUTER_ARM (pen_set false bg)) with (OUTER_ARM bg).
  rewrite EI, EO.
  assert (Sp : small_plotter (pen_set false bg)) by exact Sm.
  assert (Np : no_of_steps
                 (sqrt ((- (4) - current_x (pen_set false bg)) ^ 2
                        + (3 - current_y (pen_set false bg)) ^ 2))
                 default_interpolate = 1%Z).
  { change (current_x (pen_set false bg)) with (current_x bg).
    change (current_y (pen_set false bg)) with (current_y bg).
    rewrite X0, Y0. apply no_of_steps_zero.
    rewrite (sqrt_eq _ 0) by (try lra; ring). ring. }
  destruct (one_step_43 (- (4)) 3 default_wait default_interpolate false
              (pen_set false bg) Sp ltac:(lra) ltac:(lra) Np)
    as [bg1 [E1 [S1 [_ [_ [_ C1]]]]]]; [left; exact W1 |].
  destruct S1 as [_ [V1 _]].
  unfold bind at 1. rewrite E1.
  unfold bind at 1. unfold sleep at 1. unfold modify at 1.
  unfold quiet, bind, gets.
  change (virtual_mode (log (Sleep 1) bg1)) with (virtual_mode bg1).
  rewrite V1. eexists. split; [reflexivity |]. exact C1.
Qed.

Lemma box_ends_parked_witness :
  exists bg',
    box (Some (- (4), 3, -3, 4)) (1 / 10) (1 / 2) 1 false (parked_plotter 4 3 None)
      = (Ok None, bg') /\
    (current_x bg' = - (4) /\ current_y bg' = 3) /\
    List.length (arm_commands bg') = 5%nat.
Proof.
  destruct (small_plotter_parked None) as [R0 [Sm [X0 [Y0 [W2 [C0 _]]]]]].
  remember (parked_plotter 4 3 None) as bg0 eqn:Hbg0 in *.
  pose proof Sm as [_ [_ [EI [EO _]]]].
  destruct (xy_at_rest (- (4)) 3 (1 / 10) (1 / 2) false bg0 R0)
    as [E1 _]; [rewrite EI; reflexivity | rewrite EO; reflexivity |].
  destruct (positioned_frame (- (4)) 3 false bg0) as [M1 [_ [V1 [X1 [Y1 C1]]]]].
  remember (positioned (- (4)) 3 (pen_set false bg0)) as bg1 eqn:Hbg1 in *.
  pose proof (small_plotter_kept _ _ M1 Sm) as S1.
  assert (N1 : no_of_steps (sqrt ((-3 - current_x bg1) ^ 2 + (3 - current_y bg1) ^ 2))
                 (1 / 2) = 1%Z).
  { rewrite X1, Y1. rewrite (sqrt_eq _ 1) by (try lra; ring).
    apply no_of_steps_small. lra. }
  destruct (one_step_43 (-3) 3 (1 / 10) (1 / 2) true bg1 S1 ltac:(lra) ltac:(lra) N1)
    as [bg2 [E2 [S2 [X2 [Y2 [W2' C2]]]]]];
    [right; split; [lra | rewrite V1; exact W2] |].
  assert (N2 : no_of_steps (sqrt ((-3 - current_x bg2) ^ 2 + (4 - current_y bg2) ^ 2))
                 (1 / 2) = 1%Z).
  { rewrite X2, Y2. rewrite (sqrt_eq _ 1) by (try lra; ring).
    apply no_of_steps_small. lra. }
  destruct (one_step_43 (-3) 4 (1 / 10) (1 / 2) true bg2 S2 ltac:(lra) ltac:(lra) N2)
    as [bg3 [E3 [S3 [X3 [Y3 [W3 C3]]]]]]; [left; exact W2' |].
  assert (N3 : no_of_steps
                 (sqrt ((- (4) - current_x bg3) ^ 2 + (4 - current_y bg3) ^ 2))
                 (1 / 2) = 1%Z).
  { rewrite X3, Y3. rewrite (sqrt_eq _ 1) by (try lra; ring).
    apply no_of_steps_small. lra. }
  destruct (one_step_43 (- (4)) 4 (1 / 10) (1 / 2) true bg3 S3 ltac:(lra) ltac:(lra) N3)
    as [bg4 [E4 [S4 [X4 [Y4 [W4 C4]]]]]]; [left; exact W3 |].
  assert (N4 : no_of_steps
                 (sqrt ((- (4) - current_x bg4) ^ 2 + (3 - current_y bg4) ^ 2))
                 (1 / 2) = 1%Z).
  { rewrite X4, Y4. rewrite (sqrt_eq _ 1) by (try lra; ring).
    apply no_of_steps_small. lra. }
  destruct (one_step_43 (- (4)) 3 (1 / 10) (1 / 2) true bg4 S4 ltac:(lra) ltac:(lra) N4)
    as [bg5 [E5 [S5 [X5 [Y5 [W5 C5]]]]]]; [left; exact W4 |].
  destruct (park_in_place_43 bg5 S5 X5 Y5 W5) as [bg6 [E6 C6]].
  assert (E : box (Some (- (4), 3, -3, 4)) (1 / 10) (1 / 2) 1 false bg0
              = (Ok None, bg6)).
  { unfold box. unfold bind at 1. unfold gets at 1.
    unfold bind at 1. rewrite E1.
    unfold bind at 1.
    change (range 1) with [0%Z]. cbn [for_each negb]. unfold draw.
    unfold bind at 1. unfold bind at 1. rewrite E2.
    unfold bind at 1. rewrite E3.
    unfold bind at 1. rewrite E4.
    rewrite E5. unfold ret at 1.
    unfold bind at 1. rewrite E6. reflexivity. }
  exists bg6. split; [exact E |].
  split; [rewrite <- EI, <- EO; exact (box_ends_parked _ _ _ _ _ bg0 bg6 E) |].
  rewrite C6, C5, C4, C3, C2, C1, C0. reflexivity.
Defined.





